(** * Gene-Disease-Trends: a shallow embedding of the retrieval cache,
    pair extraction, graph construction and temporal analysis.

    The Python sources are embedded function by function.  Strings are
    sequences of Unicode code points, Python dictionaries are
    insertion-ordered association lists (their iteration order is
    observable in this program), Python sets are finite sets whose
    iteration order is left open, exceptions are an explicit result
    type, and the outside world (HTTP responses, the wall clock, the
    annotation service) is an explicit input. *)

From Stdlib Require Import ZArith QArith String Ascii.
From stdpp Require Import base tactics option list sorting gmap.

Local Open Scope Z_scope.

(** ** The Python runtime *)

Module Py.

(** A Python [str]: the sequence of its code points. *)
Abbreviation str := (list N).

(** String literals of the source (all of them ASCII). *)
Definition lit (s : string) : str :=
  N_of_ascii <$> list_ascii_of_string s.

Inductive exn : Set :=
| ValueError
| KeyError
| AttributeError
| HTTPError
| ConnectionError
| JSONDecodeError
| ParseError.

Inductive result (A : Type) : Type :=
| Ok (a : A)
| Raise (e : exn).
Arguments Ok {A} a.
Arguments Raise {A} e.

#[export] Instance result_ret : MRet result := fun A a => Ok a.

#[export] Instance result_bind : MBind result := fun A B k m =>
  match m with
  | Ok a => k a
  | Raise e => Raise e
  end.

(** The character database of the interpreter outside ASCII, and the
    interpreter's limit on the length of decimal literals
    ([sys.get_int_max_str_digits()], 0 when disabled or absent). *)
Class Runtime := {
  uni_isdigit : N -> bool;
  uni_decimal : N -> option Z;
  uni_isalnum : N -> bool;
  int_max_str_digits : Z
}.

Section WithRuntime.
Context {rt : Runtime}.

Definition is_ascii (c : N) : bool := (c <? 128)%N.

Definition ascii_digit (c : N) : bool := (48 <=? c)%N && (c <=? 57)%N.

Definition ascii_alpha (c : N) : bool :=
  ((65 <=? c)%N && (c <=? 90)%N) || ((97 <=? c)%N && (c <=? 122)%N).

(** [c.isdigit()] for a one-character string. *)
Definition char_isdigit (c : N) : bool :=
  if is_ascii c then ascii_digit c else uni_isdigit c.

(** [c.isalnum()] for a one-character string. *)
Definition char_isalnum (c : N) : bool :=
  if is_ascii c then ascii_digit c || ascii_alpha c else uni_isalnum c.

(** The digit value [int] gives to a character, if any. *)
Definition char_decimal (c : N) : option Z :=
  if is_ascii c then
    if ascii_digit c then Some (Z.of_N c - 48) else None
  else uni_decimal c.

(** [s.isdigit()]: at least one character, all of them digits. *)
Definition isdigit (s : str) : bool :=
  match s with
  | [] => false
  | _ => forallb char_isdigit s
  end.

(** [s.isalnum()]. *)
Definition isalnum (s : str) : bool :=
  match s with
  | [] => false
  | _ => forallb char_isalnum s
  end.

Fixpoint decimal_value (acc : Z) (s : str) : option Z :=
  match s with
  | [] => Some acc
  | c :: s' =>
      match char_decimal c with
      | Some d => decimal_value (10 * acc + d) s'
      | None => None
      end
  end.

(** [int(s)] for a string made of digit characters only, which is
    how the program calls it (behind [s.isdigit()]): a [ValueError]
    for a digit that is not a decimal one, or for a literal beyond
    the interpreter's length limit (checked above 640 digits). *)
Definition int_of_digits (s : str) : result Z :=
  let n := Z.of_nat (length s) in
  if (640 <? n) && (0 <? int_max_str_digits) && (int_max_str_digits <? n)
  then Raise ValueError
  else match s with
       | [] => Raise ValueError
       | _ => match decimal_value 0 s with
              | Some z => Ok z
              | None => Raise ValueError
              end
       end.

End WithRuntime.

(** [s.startswith(p)]. *)
Fixpoint startswith (p s : str) : bool :=
  match p, s with
  | [], _ => true
  | _ :: _, [] => false
  | a :: p', b :: s' => (a =? b)%N && startswith p' s'
  end.

(** [c in s] for a one-character string [c]. *)
Definition contains_char (c : N) (s : str) : bool :=
  existsb (N.eqb c) s.

(** [s.split(c, 1)] when [c in s]: the text before the first [c] and
    the text after it. *)
Fixpoint split_first (c : N) (s : str) : str * str :=
  match s with
  | [] => ([], [])
  | x :: s' =>
      if (x =? c)%N then ([], s')
      else let '(a, b) := split_first c s' in (x :: a, b)
  end.

(** [s[1:]]. *)
Definition slice_from_1 (s : str) : str := tail s.

(** [range(a, b)]. *)
Definition range (a b : Z) : list Z :=
  (fun i => a + Z.of_nat i) <$> seq 0 (Z.to_nat (b - a)).

Definition colon : N := 58%N.

(** A Python [set] of strings is a finite set; the order in which a
    [for] loop visits it is not fixed by the language, so it is any
    enumeration of the elements. *)
Class SetIter := {
  iter : gset str -> list str;
  iter_perm : forall s, iter s ≡ₚ elements s
}.

(** [s.replace(a, b)] for one-character strings [a] and [b]. *)
Definition replace_char (a b : N) (s : str) : str :=
  (fun c => if (c =? a)%N then b else c) <$> s.

(** [s.split(sep)] for a one-character [sep]: the text before the
    first [sep], and the parts after it. *)
Fixpoint split_parts (sep : N) (s : str) : str * list str :=
  match s with
  | [] => ([], [])
  | c :: s' =>
      let '(p, ps) := split_parts sep s' in
      if (c =? sep)%N then ([], p :: ps) else (c :: p, ps)
  end.

Definition split (sep : N) (s : str) : list str :=
  let '(p, ps) := split_parts sep s in p :: ps.

(** The characters [str.isspace()] accepts outside ASCII; inside
    ASCII they are the codes 9 to 13 and 28 to 32. *)
Class Whitespace := { uni_isspace : N -> bool }.

Section WithWhitespace.
Context {ws : Whitespace}.

Definition char_isspace (c : N) : bool :=
  if is_ascii c
  then ((9 <=? c)%N && (c <=? 13)%N) || ((28 <=? c)%N && (c <=? 32)%N)
  else uni_isspace c.

(** [s.lstrip()] and [s.strip()]. *)
Fixpoint lstrip (s : str) : str :=
  match s with
  | [] => []
  | c :: s' => if char_isspace c then lstrip s' else s
  end.

Definition strip (s : str) : str :=
  reverse (lstrip (reverse (lstrip s))).

End WithWhitespace.

Definition semicolon : N := 59%N.
Definition comma : N := 44%N.
Definition space : N := 32%N.
Definition underscore : N := 95%N.
Definition slash : N := 47%N.
Definition dot : N := 46%N.

(** A [pathlib] path of the POSIX flavour, as its tuple [parts]: the
    root first when the path is absolute, then the components. *)
Abbreviation Path := (list str).

(** [s.lstrip(c)] for a one-character string [c]. *)
Fixpoint lstrip_char (c : N) (s : str) : str :=
  match s with
  | [] => []
  | x :: s' => if (x =? c)%N then lstrip_char c s' else s
  end.

(** [splitroot] of the POSIX flavour: the root of a path string and
    the rest of it.  Two leading slashes are a root of their own, any
    other number of them counts as one. *)
Definition splitroot (part : str) : str * str :=
  let stripped := lstrip_char slash part in
  match (length part - length stripped)%nat with
  | 0%nat => ([], stripped)
  | 2%nat => ([slash; slash], stripped)
  | _ => ([slash], stripped)
  end.

(** The components of the rest: the pieces between slashes that are
    neither empty nor ".". *)
Definition components (rel : str) : list str :=
  filter (fun x => x <> [] /\ x <> [dot]) (split slash rel).

(** [base / key] for a path [base] and a string [key]: a [key] with
    a root replaces [base]. *)
Definition truediv (base : Path) (key : str) : Path :=
  let '(root, rel) := splitroot key in
  match root with
  | [] => base ++ components rel
  | _ => root :: components rel
  end.

(** [Path(s)]. *)
Definition path_of (s : str) : Path := truediv [] s.

End Py.

Export Py.

(** ** Insertion-ordered dictionaries *)

Module Dict.
Section Dict.
Context {K V : Type} `{EqDecision K}.

Fixpoint get (k : K) (d : list (K * V)) : option V :=
  match d with
  | [] => None
  | (k', v) :: d' => if decide (k = k') then Some v else get k d'
  end.

(** [d[k] = v]: in place when [k] is a key, at the end otherwise. *)
Fixpoint set (k : K) (v : V) (d : list (K * V)) : list (K * V) :=
  match d with
  | [] => [(k, v)]
  | (k', v') :: d' =>
      if decide (k = k') then (k, v) :: d' else (k', v') :: set k v d'
  end.

Definition mem (k : K) (d : list (K * V)) : bool :=
  bool_decide (is_Some (get k d)).

Definition keys (d : list (K * V)) : list K := d.*1.
Definition values (d : list (K * V)) : list V := d.*2.
End Dict.
End Dict.

(** ** networkx.Graph, as far as the program uses it *)

Module Nx.

(** The attribute dictionary of an edge.  Both attributes are lists;
    a missing attribute reads as the empty list, as the analyzer's
    [attrs.get("years", [])] has it. *)
Record EdgeAttrs := { pmids : list str; years : list str }.

Definition no_attrs : EdgeAttrs := {| pmids := []; years := [] |}.

(** [_node] maps a node to its [type] attribute ([None] when the
    attribute is absent); [_adj] maps a node to its neighbours, each
    with a reference to the attribute dictionary of the edge, which
    the two directions of an edge share; [heap] holds these
    dictionaries. *)
Record Graph := {
  node : list (str * option str);
  adj : list (str * list (str * nat));
  heap : list EdgeAttrs
}.

Definition empty : Graph := {| node := []; adj := []; heap := [] |}.

Definition has_node (G : Graph) (n : str) : bool := Dict.mem n (node G).

(** [G.add_node(n, type=ty)]. *)
Definition add_node (n : str) (ty : str) (G : Graph) : Graph :=
  if Dict.mem n (node G)
  then {| node := Dict.set n (Some ty) (node G); adj := adj G; heap := heap G |}
  else {| node := Dict.set n (Some ty) (node G);
          adj := Dict.set n [] (adj G);
          heap := heap G |}.

(** The reference held by [G[u][v]], if the edge is there. *)
Definition ref_in (a : list (str * list (str * nat))) (u v : str) : option nat :=
  Dict.get u a ≫= Dict.get v.

Definition edge_ref (G : Graph) (u v : str) : option nat :=
  ref_in (adj G) u v.

Definition has_edge (G : Graph) (u v : str) : bool :=
  bool_decide (is_Some (edge_ref G u v)).

Definition deref (G : Graph) (r : nat) : EdgeAttrs :=
  default no_attrs (heap G !! r).

(** The node part of [add_edge]: an endpoint that is not a node yet
    becomes one, without attributes. *)
Definition touch_node (n : str) (G : Graph) : Graph :=
  if Dict.mem n (node G) then G
  else {| node := Dict.set n None (node G);
          adj := Dict.set n [] (adj G);
          heap := heap G |}.

Definition link (u v : str) (r : nat) (a : list (str * list (str * nat)))
  : list (str * list (str * nat)) :=
  Dict.set u (Dict.set v r (default [] (Dict.get u a))) a.

(** [G.add_edge(u, v, pmids=ps, years=ys)]. *)
Definition add_edge (u v : str) (ps ys : list str) (G : Graph) : Graph :=
  let G1 := touch_node v (touch_node u G) in
  let attrs := {| pmids := ps; years := ys |} in
  let '(r, h) :=
    match edge_ref G1 u v with
    | Some r => (r, <[r := attrs]> (heap G1))
    | None => (length (heap G1), heap G1 ++ [attrs])
    end in
  {| node := node G1;
     adj := link v u r (link u v r (adj G1));
     heap := h |}.

(** [G[u][v]["pmids"].append(p)] followed by
    [G[u][v]["years"].append(y)], through the reference [r]. *)
Definition append_evidence (r : nat) (p y : str) (G : Graph) : Graph :=
  let a := deref G r in
  let a1 := {| pmids := pmids a ++ [p]; years := years a |} in
  let a2 := {| pmids := pmids a1; years := years a1 ++ [y] |} in
  {| node := node G; adj := adj G; heap := <[r := a2]> (heap G) |}.

(** [G[u][v]], if the edge is there. *)
Definition edge_attrs (G : Graph) (u v : str) : option EdgeAttrs :=
  deref G <$> edge_ref G u v.

(** [G.edges(data=True)]: nodes in insertion order, each with its
    neighbours in insertion order, skipping the neighbours already
    visited as nodes. *)
Fixpoint edges_from (G : Graph) (seen : list str)
    (a : list (str * list (str * nat))) : list (str * str * EdgeAttrs) :=
  match a with
  | [] => []
  | (n, ns) :: a' =>
      ((fun '(nbr, r) => (n, nbr, deref G r)) <$>
         filter (fun e => e.1 ∉ seen) ns)
      ++ edges_from G (n :: seen) a'
  end.

Definition edges (G : Graph) : list (str * str * EdgeAttrs) :=
  edges_from G [] (adj G).

(** [G.nodes[u].get("type")]: a [KeyError] when [u] is not a node. *)
Definition node_type (G : Graph) (u : str) : result (option str) :=
  match Dict.get u (node G) with
  | Some ty => Ok ty
  | None => Raise KeyError
  end.

End Nx.

(** ** data_retrieval.py: the record type (the functions follow below) *)

Record PubRecord := {
  pmid : str;
  title : str;
  abstract : str;
  year : str
}.

(** ** ner.py *)

Module Ner.

(** A tagged span: [(offset, offset + length, snippet, identifier)]. *)
Definition mention : Type := Z * Z * str * str.

Definition ident (m : mention) : str := m.2.

(** The annotation of one document. *)
Record tags := { genes : list mention; diseases : list mention }.

(** [(pmid, gene_id, disease_id, year)]. *)
Definition pair : Type := str * str * str * str.

Definition pair_pmid (q : pair) : str := q.1.1.1.
Definition pair_gene (q : pair) : str := q.1.1.2.
Definition pair_disease (q : pair) : str := q.1.2.
Definition pair_year (q : pair) : str := q.2.

(** [_split_ids(identifier)]: the first of [';'] and [','] that
    occurs decides the split. *)
Definition split_on {ws : Whitespace} (sep : N) (identifier : str) : list str :=
  strip <$> filter (fun p => strip p <> []) (split sep identifier).

Definition _split_ids {ws : Whitespace} (identifier : str) : list str :=
  if contains_char semicolon identifier then split_on semicolon identifier
  else if contains_char comma identifier then split_on comma identifier
  else [strip identifier].

Section WithRuntime.
Context {rt : Runtime} {si : SetIter}.

(** The test of the loop over [tags["diseases"]]. *)
Definition keep_disease (did : str) : bool :=
  if contains_char colon did then
    let '(prefix, core) := split_first colon did in
    isalnum core
  else startswith (lit "D") did && isdigit (slice_from_1 did).

Definition gene_set (t : tags) : gset str :=
  list_to_set (filter (fun gid => isdigit gid) (ident <$> genes t)).

Definition disease_set (t : tags) : gset str :=
  fold_left
    (fun ds did => if keep_disease did then {[ did ]} ∪ ds else ds)
    (ident <$> diseases t) ∅.

(** The sets that are only logged. *)
Definition bad_genes (t : tags) : gset str :=
  list_to_set (filter (fun gid => negb (isdigit gid)) (ident <$> genes t)).

Definition bad_diseases (t : tags) : gset str :=
  list_to_set
    (filter (fun did => bool_decide (did ≠ []) && bool_decide (did ∉ disease_set t))
       (ident <$> diseases t)).

(** [{r["pmid"]: r["year"] for r in records}]. *)
Definition year_map (records : list PubRecord) : list (str * str) :=
  fold_left (fun m r => Dict.set (pmid r) (year r) m) records [].

(** The year of a document as the record list has it: that of the
    last record with this pmid, the empty string without one. *)
Definition document_year (records : list PubRecord) (p : str) : str :=
  from_option year (lit "") (last (filter (fun r => pmid r = p) records)).

(** The two nested loops over [genes] and [diseases] of one
    document, each round appending one tuple. *)
Definition doc_pairs (ym : list (str * str)) (p : str) (t : tags)
  : list pair :=
  g ← iter (gene_set t);
  d ← iter (disease_set t);
  [(p, g, d, default (lit "") (Dict.get p ym))].

(** [extract_gene_disease_pairs], from the point where [records]
    and the annotation dictionary [ann] (what [annotate_pmids]
    returned) are at hand.  The logging calls leave the result
    untouched and are left out. *)
Definition extract_gene_disease_pairs
    (records : list PubRecord) (ann : list (str * tags)) : list pair :=
  let ym := year_map records in
  fold_left (fun results '(p, t) => results ++ doc_pairs ym p t) ann [].

End WithRuntime.
End Ner.

(** ** graph_builder.py *)

Module GraphBuilder.
Section WithRuntime.
Context {rt : Runtime}.

Definition is_valid_gene_id (gene_id : str) : bool := isdigit gene_id.

Definition is_valid_disease_id (disease_id : str) : bool :=
  (startswith (lit "MESH:") disease_id || startswith (lit "OMIM:") disease_id)
  || (startswith (lit "D") disease_id && isdigit (slice_from_1 disease_id)).

(** One round of the loop over [pairs]; the state is the graph and
    the counter [skipped].  The test [G.has_edge(gene, disease)] and
    the lookups [G[gene][disease]] behind it are one match on the
    reference of the edge. *)
Definition build_step (st : Nx.Graph * Z) (p : Ner.pair) : Nx.Graph * Z :=
  let '(G, skipped) := st in
  let '(pm, gene, disease, yr) := p in
  if negb (is_valid_gene_id gene) || negb (is_valid_disease_id disease)
  then (G, skipped + 1)
  else
    let G1 := if negb (Nx.has_node G gene)
              then Nx.add_node gene (lit "gene") G else G in
    let G2 := if negb (Nx.has_node G1 disease)
              then Nx.add_node disease (lit "disease") G1 else G1 in
    match Nx.edge_ref G2 gene disease with
    | Some r => (Nx.append_evidence r pm yr G2, skipped)
    | None => (Nx.add_edge gene disease [pm] [yr] G2, skipped)
    end.

(** The body of [build_temporal_graph] once [pairs] is at hand. *)
Definition build_from_pairs (pairs : list Ner.pair) : Nx.Graph * Z :=
  fold_left build_step pairs (Nx.empty, 0).

Definition build_graph (pairs : list Ner.pair) : Nx.Graph :=
  (build_from_pairs pairs).1.

Context {si : SetIter}.

(** [build_temporal_graph(term, batch_size, records)] with the
    records given and [ann] the annotation of their pmids. *)
Definition build_temporal_graph
    (records : list PubRecord) (ann : list (str * Ner.tags)) : Nx.Graph :=
  build_graph (Ner.extract_gene_disease_pairs records ann).

End WithRuntime.
End GraphBuilder.

(** ** temporal_analysis.py *)

Module TemporalAnalysis.

(** One row of the report. *)
Record Row := {
  gene : str;
  disease : str;
  first_mention : Z;
  peak_year : Z;
  time_to_peak : Z;
  total_mentions : Z;
  peak_count : Z;
  burstiness : Q;
  annual_counts : list (Z * Z)
}.

(** The order of [ascending=False] on the column [total_mentions]. *)
Definition by_total_desc (a b : Row) : Prop :=
  total_mentions b <= total_mentions a.

(** [df.sort_values("total_mentions", ascending=False)] is called
    with the default sorting algorithm of pandas, which the library
    documents as not stable.  What the call guarantees is a
    rearrangement of the rows that is non-increasing in the column. *)
Class SortValues := {
  sort_values_desc : list Row -> list Row;
  sort_values_perm : forall rows, sort_values_desc rows ≡ₚ rows;
  sort_values_sorted : forall rows,
    Sorted by_total_desc (sort_values_desc rows)
}.

(** [Counter(years)]: the keys in order of first occurrence. *)
Definition counter (ys : list Z) : list (Z * Z) :=
  fold_left (fun cnt y => Dict.set y (default 0 (Dict.get y cnt) + 1) cnt) ys [].

(** [min(xs)]: the first least element; [ValueError] on no element. *)
Definition py_min (xs : list Z) : result Z :=
  match xs with
  | [] => Raise ValueError
  | x :: xs' => Ok (fold_left (fun m y => if y <? m then y else m) xs' x)
  end.

(** [max(xs, key=key)]: the first element of greatest key. *)
Definition py_max_by {A} (key : A -> Z) (xs : list A) : result A :=
  match xs with
  | [] => Raise ValueError
  | x :: xs' => Ok (fold_left (fun m y => if key m <? key y then y else m) xs' x)
  end.

Definition py_sum (xs : list Z) : Z := fold_left Z.add xs 0.

(** The order of Python tuples [(year, count)]. *)
Definition item_le (a b : Z * Z) : Prop :=
  a.1 < b.1 \/ (a.1 = b.1 /\ a.2 <= b.2).

#[export] Instance item_le_dec a b : Decision (item_le a b).
Proof. unfold item_le. apply _. Defined.

(** [dict(sorted(cnt.items()))]. *)
Definition sorted_items (cnt : list (Z * Z)) : list (Z * Z) :=
  fold_left (fun d kv => Dict.set kv.1 kv.2 d) (merge_sort item_le cnt) [].

Section WithRuntime.
Context {rt : Runtime}.

(** [[int(y) for y in ys if y.isdigit()]]. *)
Fixpoint parse_years (ys : list str) : result (list Z) :=
  match ys with
  | [] => Ok []
  | y :: ys' =>
      if isdigit y then
        z ← int_of_digits y;
        zs ← parse_years ys';
        Ok (z :: zs)
      else parse_years ys'
  end.

(** The orientation of an edge: [Some (gene, disease)], or [None]
    in the branch that warns about bad types. *)
Definition orient (G : Nx.Graph) (u v : str) : result (option (str * str)) :=
  tu ← Nx.node_type G u;
  tv ← Nx.node_type G v;
  if bool_decide (tu = Some (lit "gene")) && bool_decide (tv = Some (lit "disease"))
  then Ok (Some (u, v))
  else if bool_decide (tv = Some (lit "gene")) && bool_decide (tu = Some (lit "disease"))
  then Ok (Some (v, u))
  else Ok None.

(** The statistics of one edge, from its list of integer years
    (not empty when the program gets here). *)
Definition edge_stats (g d : str) (ys : list Z) : result Row :=
  let cnt := counter ys in
  first ← py_min (Dict.keys cnt);
  '(peak, peak_count) ← py_max_by snd cnt;
  let total := py_sum (Dict.values cnt) in
  let burst := if total =? 0 then 0%Q
               else (inject_Z peak_count / inject_Z total)%Q in
  Ok {| gene := g;
        disease := d;
        first_mention := first;
        peak_year := peak;
        time_to_peak := peak - first;
        total_mentions := total;
        peak_count := peak_count;
        burstiness := burst;
        annual_counts := sorted_items cnt |}.

(** One round of the loop over [G.edges(data=True)]; the state is
    the list [records] and the counter [skipped]. *)
Definition analyze_step (G : Nx.Graph) (st : list Row * Z)
    (e : str * str * Nx.EdgeAttrs) : result (list Row * Z) :=
  let '(records, skipped) := st in
  let '(u, v, attrs) := e in
  o ← orient G u v;
  match o with
  | None => Ok (records, skipped + 1)
  | Some (g, d) =>
      ys ← parse_years (Nx.years attrs);
      match ys with
      | [] => Ok (records, skipped)
      | _ => row ← edge_stats g d ys; Ok (records ++ [row], skipped)
      end
  end.

Fixpoint analyze_loop (G : Nx.Graph) (st : list Row * Z)
    (es : list (str * str * Nx.EdgeAttrs)) : result (list Row * Z) :=
  match es with
  | [] => Ok st
  | e :: es' => st' ← analyze_step G st e; analyze_loop G st' es'
  end.

Context {sv : SortValues}.

(** [analyze_temporal_edges(G)].  A frame built from no record has
    no column, and sorting it by [total_mentions] is a
    [KeyError]. *)
Definition analyze_temporal_edges (G : Nx.Graph) : result (list Row) :=
  '(records, skipped) ← analyze_loop G ([], 0) (Nx.edges G);
  match records with
  | [] => Raise KeyError
  | _ => Ok (sort_values_desc records)
  end.

End WithRuntime.
End TemporalAnalysis.

(** ** config.py *)

Module Config.
Definition START_YEAR : Z := 1990.
Definition BATCH_SIZE : Z := 100.
Definition DATA_DIR : Path := path_of (lit "data").
End Config.

(** ** data_retrieval.py *)

Module DataRetrieval.

(** The content of a term's cache file. *)
Record CacheData := {
  completed_years : list Z;
  records : list PubRecord
}.

Inductive level : Set := INFO | WARNING | ERROR.

(** The log lines of the module, with their arguments. *)
Inductive message : Set :=
| Search429 (year attempt max_retries wait : Z)
| SearchHttpError (year status : Z)
| SearchFailed (year max_retries : Z)
| Fetch429 (attempt max_retries wait : Z)
| FetchHttpError (status : Z)
| SkippingYear (year : Z)
| Searching (year : Z)
| NoPmids (year : Z)
| NoNewPmids (year : Z)
| Fetching (n : Z)
| FileUpdated
| FileUpToDate.

(** What a call leaves behind besides its result. *)
Inductive event : Type :=
| Log (l : level) (m : message)
| Sleep (seconds : Q).

(** A computation with a trace of events that returns or raises. *)
Record Eff (A : Type) := MkEff { trace : list event; outcome : result A }.
Arguments MkEff {A} trace outcome.
Arguments trace {A} _.
Arguments outcome {A} _.

#[export] Instance eff_ret : MRet Eff := fun A a => MkEff [] (Ok a).

#[export] Instance eff_bind : MBind Eff := fun A B k m =>
  match outcome m with
  | Ok a => MkEff (trace m ++ trace (k a)) (outcome (k a))
  | Raise e => MkEff (trace m) (Raise e)
  end.

Definition emit (e : event) : Eff unit := MkEff [e] (Ok ()).
Definition log (l : level) (m : message) : Eff unit := emit (Log l m).
Definition sleep (seconds : Q) : Eff unit := emit (Sleep seconds).
Definition lift {A} (r : result A) : Eff A := MkEff [] r.

(** The response to an esearch request: its status code, and what
    [resp.json().get("esearchresult", {}).get("idlist", [])] gives
    (decoding the body can raise). *)
Record SearchResponse := {
  status_code : Z;
  idlist : result (list str)
}.

(** The response to an efetch request: its status code, and the
    records read off the parsed body (parsing can raise). *)
Record FetchResponse := {
  fetch_status_code : Z;
  articles : result (list PubRecord)
}.

(** The world around one run: the calendar year the clock shows when
    [end_year] is defaulted and at the top of the round of each year,
    and what [requests.get] gives for each request (a response, or
    an exception of the transport). *)
Record World := {
  now_year_default : Z;
  now_year : Z -> Z;
  esearch : Z -> Z -> result SearchResponse;
  efetch : Z -> nat -> Z -> result FetchResponse
}.

(** [resp.raise_for_status()] raises for the codes 400 to 599. *)
Definition is_http_error (status : Z) : bool :=
  (400 <=? status) && (status <? 600).

(** [_term_file(term)]: the path [DATA_DIR / f"{safe}.json"]. *)
Definition _term_file (term : str) : Path :=
  let safe := replace_char space underscore term in
  truediv Config.DATA_DIR (safe ++ lit ".json").

(** [_load_data] and [_save_data] on the file of the term, whose
    content is [None] while the file does not exist. *)
Definition _load_data (file : option CacheData) : CacheData :=
  match file with
  | Some data => data
  | None => {| completed_years := []; records := [] |}
  end.

Definition _save_data (data : CacheData) : option CacheData := Some data.

(** [_chunked(l, size)]; [range] refuses a zero step and is empty
    for a negative one. *)
Fixpoint chunks_of {A} (fuel size : nat) (l : list A) : list (list A) :=
  match fuel, l with
  | O, _ | _, [] => []
  | S fuel', _ => take size l :: chunks_of fuel' size (drop size l)
  end.

Definition _chunked {A} (l : list A) (size : Z) : result (list (list A)) :=
  if size =? 0 then Raise ValueError
  else if size <? 0 then Ok []
  else Ok (chunks_of (length l) (Z.to_nat size) l).

(** The retry loop of [_search_year] over the remaining attempts. *)
Fixpoint search_attempts (get : Z -> result SearchResponse)
    (year max_retries : Z) (attempts : list Z) : Eff (list str) :=
  match attempts with
  | [] =>
      log ERROR (SearchFailed year max_retries);;
      mret []
  | attempt :: rest =>
      resp ← lift (get attempt);
      if status_code resp =? 429 then
        let wait := 2 ^ attempt in
        log WARNING (Search429 year attempt max_retries wait);;
        sleep (inject_Z wait);;
        search_attempts get year max_retries rest
      else if is_http_error (status_code resp) then
        log ERROR (SearchHttpError year (status_code resp));;
        mret []
      else lift (idlist resp)
  end.

Definition _search_year (w : World) (year : Z) (max_retries : Z)
  : Eff (list str) :=
  search_attempts (esearch w year) year max_retries
    (range 1 (max_retries + 1)).

(** The retry loop of [_fetch_pmids] for one chunk: the records the
    chunk adds. *)
Fixpoint fetch_attempts (get : Z -> result FetchResponse)
    (max_retries : Z) (attempts : list Z) : Eff (list PubRecord) :=
  match attempts with
  | [] => mret []
  | attempt :: rest =>
      resp ← lift (get attempt);
      if fetch_status_code resp =? 429 then
        let wait := 2 ^ attempt in
        log WARNING (Fetch429 attempt max_retries wait);;
        sleep (inject_Z wait);;
        fetch_attempts get max_retries rest
      else if is_http_error (fetch_status_code resp) then
        log ERROR (FetchHttpError (fetch_status_code resp));;
        mret []
      else
        recs ← lift (articles resp);
        sleep (34 # 100);;
        mret recs
  end.

Fixpoint fetch_chunks (get : nat -> Z -> result FetchResponse)
    (max_retries : Z) (i : nat) (chunks : list (list str))
    (acc : list PubRecord) : Eff (list PubRecord) :=
  match chunks with
  | [] => mret acc
  | _ :: chunks' =>
      recs ← fetch_attempts (get i) max_retries (range 1 (max_retries + 1));
      fetch_chunks get max_retries (S i) chunks' (acc ++ recs)
  end.

Definition _fetch_pmids (w : World) (year : Z) (pmids : list str)
    (batch_size max_retries : Z) : Eff (list PubRecord) :=
  chunks ← lift (_chunked pmids batch_size);
  fetch_chunks (efetch w year) max_retries 0 chunks [].

(** The state of the loop of [retrieve_full_data]: [data],
    [existing] and [updated]. *)
Abbreviation loop_state := (CacheData * gset str * bool)%type.

Definition mark_completed (year : Z) (data : CacheData) : CacheData :=
  {| completed_years := completed_years data ++ [year];
     records := records data |}.

Definition extend_records (recs : list PubRecord) (data : CacheData)
  : CacheData :=
  {| completed_years := completed_years data;
     records := records data ++ recs |}.

(** One round of the loop over the years. *)
Definition year_step (w : World) (done : gset Z) (st : loop_state)
    (year : Z) : Eff loop_state :=
  let '(data, existing, updated) := st in
  let is_current := bool_decide (year = now_year w year) in
  if bool_decide (year ∈ done) && negb is_current then
    log INFO (SkippingYear year);;
    mret st
  else
    log INFO (Searching year);;
    pmids ← _search_year w year 3;
    match pmids with
    | [] =>
        log INFO (NoPmids year);;
        if negb is_current
        then mret (mark_completed year data, existing, true)
        else mret st
    | _ =>
        let new_pmids := filter (fun p => p ∉ existing) pmids in
        match new_pmids with
        | [] =>
            log INFO (NoNewPmids year);;
            if negb is_current
            then mret (mark_completed year data, existing, true)
            else mret st
        | _ =>
            log INFO (Fetching (Z.of_nat (length new_pmids)));;
            recs ← _fetch_pmids w year new_pmids Config.BATCH_SIZE 3;
            let data1 := extend_records recs data in
            let existing1 := existing ∪ list_to_set new_pmids in
            let data2 := if negb is_current
                         then mark_completed year data1 else data1 in
            mret (data2, existing1, true)
        end
    end.

Fixpoint year_loop (w : World) (done : gset Z) (st : loop_state)
    (years : list Z) : Eff loop_state :=
  match years with
  | [] => mret st
  | year :: years' =>
      st' ← year_step w done st year;
      year_loop w done st' years'
  end.

(** [end_year or datetime.now().year]. *)
Definition effective_end_year (w : World) (end_year : option Z) : Z :=
  match end_year with
  | Some e => if e =? 0 then now_year_default w else e
  | None => now_year_default w
  end.

(** [retrieve_full_data(term, start_year, end_year)] on the cache file
    of the term: the file afterwards and the records returned. *)
Definition retrieve_full_data (w : World) (file : option CacheData)
    (start_year : Z) (end_year : option Z)
  : Eff (option CacheData * list PubRecord) :=
  let end_year := effective_end_year w end_year in
  let data := _load_data file in
  let done : gset Z := list_to_set (completed_years data) in
  let existing : gset str := list_to_set (pmid <$> records data) in
  '(data', _, updated) ←
    year_loop w done (data, existing, false) (range start_year (end_year + 1));
  if (updated : bool) then
    log INFO FileUpdated;;
    mret (_save_data data', records data')
  else
    log INFO FileUpToDate;;
    mret (file, records data').

(** The cache file after a run: untouched when the run raised, since
    the only write is the last step. *)
Definition persisted (file : option CacheData)
    (run : Eff (option CacheData * list PubRecord)) : option CacheData :=
  match outcome run with
  | Ok (file', _) => file'
  | Raise _ => file
  end.

End DataRetrieval.

(** ** ner.py: the annotation service *)

Module Annotate.

(** [s.lower()], which outside ASCII depends on the character
    database and on the position of a character in its word. *)
Class Lowercase := { py_lower : str -> str }.

(** One entry of a passage's annotation list, as far as the loop
    reads it: [infons.get("type", "")] and
    [infons.get("identifier", "")], each [None] when the value is not
    a string (a JSON null, say), and the first element of the location
    list with its fields [offset] and [length] ([None] when the list
    is missing or empty, an exception when the element has not these
    fields). *)
Record Denotation := {
  den_type : option str;
  den_identifier : option str;
  den_location : option (result (Z * Z))
}.

(** A passage: [passage.get("text", "")] and its annotation list. *)
Record Passage := { passage_text : str; denotations : list Denotation }.

(** A document: [doc.get("id")] and [doc.get("passages", [])]. *)
Record Document := { doc_id : str; passages : list Passage }.

(** What the service answers to the request of one batch: an
    exception of the transport, or a body that [resp.json()] decodes to
    the list of documents ([JSONDecodeError] when it is not JSON, any
    other exception when it has not the expected shape).  The pauses
    and the log lines of the module are left out. *)
Abbreviation Service := (nat -> result (result (list Document))).

(** A method of [str] called on a value that is not a string. *)
Definition as_str (v : option str) : result str :=
  match v with
  | Some s => Ok s
  | None => Raise AttributeError
  end.

(** [s[a:b]] for integers [a] and [b]. *)
Definition clamp_index (n i : Z) : Z :=
  if i <? 0 then Z.max (i + n) 0 else Z.min i n.

Definition py_slice (s : str) (a b : Z) : str :=
  let n := Z.of_nat (length s) in
  let a' := clamp_index n a in
  let b' := clamp_index n b in
  take (Z.to_nat (b' - a')) (drop (Z.to_nat a') s).

Section WithTables.
Context {ws : Whitespace} {lc : Lowercase}.

(** The innermost loop, over [_split_ids(raw_id)]. *)
Definition add_ident (t : str) (m : Z * Z * str) (ann : Ner.tags)
    (ident : str) : Ner.tags :=
  if decide (t = lit "gene") then
    {| Ner.genes := Ner.genes ann ++ [(m, ident)];
       Ner.diseases := Ner.diseases ann |}
  else if decide (t = lit "disease") then
    {| Ner.genes := Ner.genes ann;
       Ner.diseases := Ner.diseases ann ++ [(m, ident)] |}
  else ann.

(** One round of the loop over the annotations of a passage. *)
Definition add_denotation (text : str) (ann : Ner.tags) (inf : Denotation)
  : result Ner.tags :=
  ty ← as_str (den_type inf);
  let t := py_lower ty in
  identifier ← as_str (den_identifier inf);
  let raw_id := strip identifier in
  match raw_id with
  | [] => Ok ann
  | _ =>
      match den_location inf with
      | None => Ok ann
      | Some loc =>
          '(offset, length) ← loc;
          let snippet := py_slice text offset (offset + length) in
          Ok (fold_left (add_ident t (offset, offset + length, snippet))
                (Ner._split_ids raw_id) ann)
      end
  end.

Fixpoint add_denotations (text : str) (ann : Ner.tags)
    (denots : list Denotation) : result Ner.tags :=
  match denots with
  | [] => Ok ann
  | inf :: denots' =>
      ann' ← add_denotation text ann inf;
      add_denotations text ann' denots'
  end.

Fixpoint add_passages (ann : Ner.tags) (ps : list Passage) : result Ner.tags :=
  match ps with
  | [] => Ok ann
  | passage :: ps' =>
      ann' ← add_denotations (passage_text passage) ann (denotations passage);
      add_passages ann' ps'
  end.

(** The tags of one document. *)
Definition annotate_doc (doc : Document) : result Ner.tags :=
  add_passages {| Ner.genes := []; Ner.diseases := [] |} (passages doc).

(** The loop over the documents of one batch. *)
Fixpoint add_docs (annotations : list (str * Ner.tags)) (docs : list Document)
  : result (list (str * Ner.tags)) :=
  match docs with
  | [] => Ok annotations
  | doc :: docs' =>
      ann ← annotate_doc doc;
      add_docs (Dict.set (doc_id doc) ann annotations) docs'
  end.

(** The loop over the batches; a body that is not JSON skips its
    batch. *)
Fixpoint annotate_batches (service : Service) (i : nat)
    (chunks : list (list str)) (annotations : list (str * Ner.tags))
  : result (list (str * Ner.tags)) :=
  match chunks with
  | [] => Ok annotations
  | _ :: chunks' =>
      body ← service i;
      match body with
      | Raise JSONDecodeError =>
          annotate_batches service (S i) chunks' annotations
      | Raise e => Raise e
      | Ok docs =>
          annotations' ← add_docs annotations docs;
          annotate_batches service (S i) chunks' annotations'
      end
  end.

(** [annotate_pmids(pmids, batch_size)]; the batches are cut as
    [_chunked] cuts them. *)
Definition annotate_pmids (service : Service) (pmids : list str)
    (batch_size : Z) : result (list (str * Ner.tags)) :=
  chunks ← DataRetrieval._chunked pmids batch_size;
  annotate_batches service 0 chunks [].

Context {rt : Runtime} {si : SetIter}.

(** [extract_gene_disease_pairs(term, batch_size, records)] with the
    records given. *)
Definition extract_gene_disease_pairs (service : Service)
    (records : list PubRecord) (batch_size : Z) : result (list Ner.pair) :=
  let pmids := pmid <$> records in
  ann ← annotate_pmids service pmids batch_size;
  Ok (Ner.extract_gene_disease_pairs records ann).

End WithTables.
End Annotate.

(** ** gene_disease_utils.py *)

Module GeneDiseaseUtils.

(** The directory of cached names: the file of a name maps to the
    value under "name" in it ([None] for a JSON null); a file that
    does not exist is no key. *)
Abbreviation Cache := (list (str * option str)).

(** The results [get_gene_names] and [get_disease_names] return. *)
Abbreviation Names := (list (str * option str)).

(** The truth value of a name: a string that is not empty. *)
Definition truthy (v : option str) : bool :=
  match v with
  | Some (_ :: _) => true
  | _ => false
  end.

(** [_cache_path(prefix, id_)], inside [CACHE_DIR]. *)
Definition _cache_path (prefix id_ : str) : str :=
  prefix ++ lit "_" ++ id_ ++ lit ".json".

Definition _load_cached_name (c : Cache) (prefix id_ : str) : option str :=
  match Dict.get (_cache_path prefix id_) c with
  | Some name => name
  | None => None
  end.

Definition _save_cached_name (c : Cache) (prefix id_ : str)
    (name : option str) : Cache :=
  Dict.set (_cache_path prefix id_) name c.

(** The body of an ESummary answer: [result["uids"]], and for a uid
    the value of [summary.get("name")] when [result.get(uid)] is a
    dictionary that is not empty ([None] when it is missing, null or
    empty). *)
Record SummaryData := {
  uids : list str;
  summary_name : str -> option (option str)
}.

(** An ESummary answer; [resp.ok] holds below status 400. *)
Record SummaryResponse := {
  summary_status : Z;
  summary_result : result SummaryData
}.

(** An answer of the MeSH lookup: its status, and the entries of its
    body, each with its [descriptor] and its [label] ([None] when
    missing or null). *)
Record MeshResponse := {
  mesh_status : Z;
  mesh_entries : result (list (option str * option str))
}.

Definition ok (status : Z) : bool := negb (DataRetrieval.is_http_error status).

Definition newline : N := 10%N.

(** The loop of [_batch_fetch] over the chunks. *)
Fixpoint fetch_summaries (service : nat -> result SummaryResponse) (i : nat)
    (chunks : list (list str)) (out : list (str * option (option str)))
  : result (list (str * option (option str))) :=
  match chunks with
  | [] => Ok out
  | chunk :: chunks' =>
      resp ← service i;
      out' ← (if ok (summary_status resp) then
                data ← summary_result resp;
                Ok (fold_left (fun out uid => Dict.set uid (summary_name data uid) out)
                      (uids data) out)
              else
                Ok (fold_left (fun out uid => Dict.set uid None out) chunk out));
      fetch_summaries service (S i) chunks' out'
  end.

(** [_batch_fetch(db, ids, batch_size)]. *)
Definition _batch_fetch (service : nat -> result SummaryResponse)
    (ids : list str) (batch_size : Z)
  : result (list (str * option (option str))) :=
  chunks ← DataRetrieval._chunked ids batch_size;
  fetch_summaries service 0 chunks [].

Section WithRuntime.
Context {rt : Runtime} {si : SetIter}.

(** The first loop of [get_gene_names]: the state is [res] and
    [to_fetch]. *)
Definition gene_lookup (c : Cache) (st : Names * list str) (gid : str)
  : Names * list str :=
  let '(res, to_fetch) := st in
  let cached := _load_cached_name c (lit "gene") gid in
  if truthy cached then (Dict.set gid cached res, to_fetch)
  else (res, to_fetch ++ [gid]).

(** The second loop of [get_gene_names], over [summaries.items()]:
    the state is the cache directory and [res]. *)
Definition gene_store (st : Cache * Names) (item : str * option (option str))
  : Cache * Names :=
  let '(c, res) := st in
  let '(gid, summary) := item in
  let name := match summary with
              | Some name => name
              | None => Some gid
              end in
  (_save_cached_name c (lit "gene") gid name, Dict.set gid name res).

(** [get_gene_names(gene_ids)] on the cache directory [c]: the
    directory afterwards and the names. *)
Definition get_gene_names (service : nat -> result SummaryResponse)
    (c : Cache) (gene_ids : list str) : result (Cache * Names) :=
  let unique := filter (fun gid => isdigit gid = true)
                       (iter (list_to_set gene_ids)) in
  let '(res, to_fetch) := fold_left (gene_lookup c) unique ([], []) in
  match to_fetch with
  | [] => Ok (c, res)
  | _ =>
      summaries ← _batch_fetch service to_fetch 200;
      Ok (fold_left gene_store summaries (c, res))
  end.

(** [MESH_UI_PATTERN.match(s)]: a D or a C, six decimal digits, and
    then the end of the string or a newline that ends it. *)
Definition is_decimal_char (c : N) : bool :=
  bool_decide (is_Some (char_decimal c)).

Definition mesh_ui_match (s : str) : bool :=
  match s with
  | [] => false
  | c :: rest =>
      ((c =? 68)%N || (c =? 67)%N)
      && bool_decide (length (take 6 rest) = 6%nat)
      && forallb is_decimal_char (take 6 rest)
      && match drop 6 rest with
         | [] => true
         | [c'] => (c' =? newline)%N
         | _ => false
         end
  end.

(** [mid.split(":", 1)[-1]]: the text after the first colon, the
    identifier itself without one. *)
Definition core_of (mid : str) : str :=
  if contains_char colon mid then (split_first colon mid).2 else mid.

(** The loop of [_batch_fetch_mesh_names] over the chunks. *)
Fixpoint fetch_labels (service : nat -> result MeshResponse) (i : nat)
    (chunks : list (list str)) (out : list (str * str))
  : result (list (str * str)) :=
  match chunks with
  | [] => Ok out
  | _ :: chunks' =>
      resp ← service i;
      if mesh_status resp =? 400 then fetch_labels service (S i) chunks' out
      else if ok (mesh_status resp) then
        entries ← mesh_entries resp;
        fetch_labels service (S i) chunks'
          (fold_left
             (fun out '(ui, label) =>
                match ui, label with
                | Some (c :: u), Some (c' :: l) => Dict.set (c :: u) (c' :: l) out
                | _, _ => out
                end)
             entries out)
      else fetch_labels service (S i) chunks' out
  end.

(** [_batch_fetch_mesh_names(cores, batch_size)]. *)
Definition _batch_fetch_mesh_names (service : nat -> result MeshResponse)
    (cores : list str) (batch_size : Z) : result (list (str * str)) :=
  let valid := filter (fun c => mesh_ui_match c = true) cores in
  chunks ← DataRetrieval._chunked valid batch_size;
  fetch_labels service 0 chunks [].

(** [labels.get(core) or core]. *)
Definition label_or_core (labels : list (str * str)) (core : str) : str :=
  match Dict.get core labels with
  | Some (ch :: l) => ch :: l
  | _ => core
  end.

(** The test [cached and cached != core] of [get_disease_names]. *)
Definition usable (cached : option str) (core : str) : bool :=
  truthy cached && bool_decide (cached <> Some core).

(** The first loop of [get_disease_names]: the state is [cores] and
    [res]. *)
Definition disease_lookup (c : Cache) (st : list str * Names) (mid : str)
  : list str * Names :=
  let '(cores, res) := st in
  let core := core_of mid in
  if mesh_ui_match core then
    let cached := _load_cached_name c (lit "mesh") core in
    if usable cached core
    then (cores, Dict.set mid cached res)
    else (cores ++ [core], res)
  else (cores, Dict.set mid (Some mid) res).

(** The second loop of [get_disease_names], over [cores]: the state
    is the cache directory and [res]. *)
Definition disease_store (labels : list (str * str)) (mesh_ids : list str)
    (st : Cache * Names) (core : str) : Cache * Names :=
  let '(c, res) := st in
  let name := label_or_core labels core in
  (_save_cached_name c (lit "mesh") core (Some name),
   fold_left
     (fun res mid =>
        if decide (core_of mid = core) then Dict.set mid (Some name) res else res)
     mesh_ids res).

(** [get_disease_names(mesh_ids)] on the cache directory [c]. *)
Definition get_disease_names (service : nat -> result MeshResponse)
    (c : Cache) (mesh_ids : list str) : result (Cache * Names) :=
  let '(cores, res) :=
    fold_left (disease_lookup c) (iter (list_to_set mesh_ids)) ([], []) in
  match cores with
  | [] => Ok (c, res)
  | _ =>
      labels ← _batch_fetch_mesh_names service cores 50;
      Ok (fold_left (disease_store labels mesh_ids) cores (c, res))
  end.

End WithRuntime.
End GeneDiseaseUtils.

(** ** Vocabulary of the statements *)

Module Spec.
Section WithRuntime.
Context {rt : Runtime}.

(** The pairs of a list that mention gene [g] with disease [d], in
    their order of arrival. *)
Definition evidence (g d : str) (pairs : list Ner.pair) : list Ner.pair :=
  filter (fun q => Ner.pair_gene q = g /\ Ner.pair_disease q = d) pairs.

(** What links a graph under construction to the pairs consumed so
    far. *)
Record built (pairs : list Ner.pair) (G : Nx.Graph) : Prop := {
  built_keys : (Nx.node G).*1 = (Nx.adj G).*1;
  built_nodup : NoDup (Nx.adj G).*1;
  built_nbrs : forall n ns,
    Dict.get n (Nx.adj G) = Some ns -> NoDup ns.*1;
  built_type : forall n ty,
    Dict.get n (Nx.node G) = Some ty ->
    (ty = Some (lit "gene") /\ GraphBuilder.is_valid_gene_id n = true)
    \/ (ty = Some (lit "disease") /\ GraphBuilder.is_valid_disease_id n = true);
  built_sym : forall u v r,
    Nx.edge_ref G u v = Some r -> Nx.edge_ref G v u = Some r;
  built_ends : forall u v r,
    Nx.edge_ref G u v = Some r ->
    (GraphBuilder.is_valid_gene_id u = true
     /\ GraphBuilder.is_valid_disease_id v = true)
    \/ (GraphBuilder.is_valid_disease_id u = true
        /\ GraphBuilder.is_valid_gene_id v = true);
  built_inj : forall g d g' d' r,
    GraphBuilder.is_valid_gene_id g = true ->
    GraphBuilder.is_valid_gene_id g' = true ->
    Nx.edge_ref G g d = Some r -> Nx.edge_ref G g' d' = Some r ->
    g = g' /\ d = d';
  built_evidence : forall g d r,
    GraphBuilder.is_valid_gene_id g = true ->
    Nx.edge_ref G g d = Some r ->
    evidence g d pairs <> []
    /\ Nx.heap G !! r
       = Some {| Nx.pmids := Ner.pair_pmid <$> evidence g d pairs;
                 Nx.years := Ner.pair_year <$> evidence g d pairs |};
  built_complete : forall g d,
    GraphBuilder.is_valid_gene_id g = true ->
    GraphBuilder.is_valid_disease_id d = true ->
    evidence g d pairs <> [] -> is_Some (Nx.edge_ref G g d)
}.

(** How often a year occurs in a list of years. *)
Definition count (y : Z) (ys : list Z) : Z :=
  Z.of_nat (length (filter (fun x => x = y) ys)).

(** The distinct years of a list in order of first occurrence,
    leaving out those of [seen]. *)
Fixpoint first_seen (seen ys : list Z) : list Z :=
  match ys with
  | [] => []
  | y :: ys' =>
      if decide (y ∈ seen) then first_seen seen ys'
      else y :: first_seen (seen ++ [y]) ys'
  end.

(** The loop of the analyzer, edge by edge: [rows_of G es rows k]
    when the edges [es] yield the report rows [rows], in this
    order, and [k] edges take the branch for bad endpoint types. *)
Inductive rows_of (G : Nx.Graph)
  : list (str * str * Nx.EdgeAttrs) -> list TemporalAnalysis.Row -> Z -> Prop :=
| rows_done : rows_of G [] [] 0
| rows_bad_types u v attrs es rows k :
    TemporalAnalysis.orient G u v = Ok None ->
    rows_of G es rows k ->
    rows_of G ((u, v, attrs) :: es) rows (1 + k)
| rows_no_year u v attrs es rows k g d :
    TemporalAnalysis.orient G u v = Ok (Some (g, d)) ->
    TemporalAnalysis.parse_years (Nx.years attrs) = Ok [] ->
    rows_of G es rows k ->
    rows_of G ((u, v, attrs) :: es) rows k
| rows_row u v attrs es rows k g d ys row :
    TemporalAnalysis.orient G u v = Ok (Some (g, d)) ->
    TemporalAnalysis.parse_years (Nx.years attrs) = Ok ys ->
    ys <> [] ->
    TemporalAnalysis.edge_stats g d ys = Ok row ->
    rows_of G es rows k ->
    rows_of G ((u, v, attrs) :: es) (row :: rows) k.

(** The endpoints of a listed edge, gene first. *)
Definition gene_first (e : str * str * Nx.EdgeAttrs) : str * str :=
  if GraphBuilder.is_valid_gene_id e.1.1 then e.1 else (e.1.2, e.1.1).

End WithRuntime.

Section WithTables.
Context {ws : Whitespace} {lc : Annotate.Lowercase}.

(** A mention that one annotation [inf] of a passage with text
    [text] gives rise to, for the kind [kind] ("gene" or "disease"). *)
Definition mention_in (kind text : str) (inf : Annotate.Denotation)
    (m : Ner.mention) : Prop :=
  exists ty identifier offset length,
    Annotate.den_type inf = Some ty
    /\ Annotate.py_lower ty = kind
    /\ Annotate.den_identifier inf = Some identifier
    /\ strip identifier <> []
    /\ Annotate.den_location inf = Some (Ok (offset, length))
    /\ Ner.ident m ∈ Ner._split_ids (strip identifier)
    /\ m.1 = (offset, offset + length,
              Annotate.py_slice text offset (offset + length)).

(** A mention that a document gives rise to. *)
Definition mention_of (kind : str) (doc : Annotate.Document)
    (m : Ner.mention) : Prop :=
  exists passage inf,
    passage ∈ Annotate.passages doc
    /\ inf ∈ Annotate.denotations passage
    /\ mention_in kind (Annotate.passage_text passage) inf m.

(** The mentions of kind [kind] that one annotation gives rise to,
    one for each part of its identifier, in the order of the parts. *)
Definition mentions_in (kind text : str) (inf : Annotate.Denotation)
  : list Ner.mention :=
  match Annotate.den_type inf, Annotate.den_identifier inf,
        Annotate.den_location inf with
  | Some ty, Some identifier, Some (Ok (offset, length)) =>
      if decide (Annotate.py_lower ty = kind) then
        match strip identifier with
        | [] => []
        | raw =>
            (fun id => (offset, offset + length,
                        Annotate.py_slice text offset (offset + length), id))
              <$> Ner._split_ids raw
        end
      else []
  | _, _, _ => []
  end.

(** The mentions of a document, passage by passage and annotation by
    annotation. *)
Definition mentions_of (kind : str) (doc : Annotate.Document)
  : list Ner.mention :=
  passage ← Annotate.passages doc;
  inf ← Annotate.denotations passage;
  mentions_in kind (Annotate.passage_text passage) inf.

End WithTables.

Section WithRuntime.
Context {rt : Runtime}.

(** A disease identifier whose core [get_disease_names] has to look
    up: the core is a MeSH code without a usable cached label. *)
Definition pending (c : GeneDiseaseUtils.Cache) (mid : str) : Prop :=
  GeneDiseaseUtils.mesh_ui_match (GeneDiseaseUtils.core_of mid) = true
  /\ GeneDiseaseUtils.usable
       (GeneDiseaseUtils._load_cached_name c (lit "mesh")
          (GeneDiseaseUtils.core_of mid))
       (GeneDiseaseUtils.core_of mid) = false.

(** The name of a disease identifier that needs no lookup. *)
Definition settled (c : GeneDiseaseUtils.Cache) (mid : str) : option str :=
  if GeneDiseaseUtils.mesh_ui_match (GeneDiseaseUtils.core_of mid)
  then GeneDiseaseUtils._load_cached_name c (lit "mesh")
         (GeneDiseaseUtils.core_of mid)
  else Some mid.

End WithRuntime.




(** Every fetch that a run over [years] sends is answered with records
    of identifiers it asked for, each at most once.  [existing] is
    the set of identifiers the loop holds at the top of the first
    round. *)
Fixpoint fetches_as_asked (w : DataRetrieval.World) (done : gset Z)
    (existing : gset str) (years : list Z) : Prop :=
  match years with
  | [] => True
  | y :: years' =>
      if bool_decide (y ∈ done)
         && negb (bool_decide (y = DataRetrieval.now_year w y))
      then fetches_as_asked w done existing years'
      else
        match DataRetrieval.outcome (DataRetrieval._search_year w y 3) with
        | Raise _ => True
        | Ok ids =>
            match filter (fun p => p ∉ existing) ids with
            | [] => fetches_as_asked w done existing years'
            | new_pmids =>
                (forall got,
                   DataRetrieval.outcome
                     (DataRetrieval._fetch_pmids w y new_pmids Config.BATCH_SIZE 3)
                   = Ok got ->
                   NoDup (pmid <$> got)
                   /\ forall r, r ∈ got -> pmid r ∈ new_pmids)
                /\ fetches_as_asked w done
                     (existing ∪ list_to_set new_pmids) years'
            end
        end
  end.

(** The number an ASCII digit string denotes. *)
Definition digits_value (s : str) : Z :=
  fold_left (fun acc c => 10 * acc + (Z.of_N c - 48)) s 0.

(** What [_search_year] leaves behind for the attempts that were
    answered with 429: a warning and a pause of [2 ^ attempt] seconds
    each. *)
Definition backoff (year max_retries : Z) (attempts : list Z)
  : list DataRetrieval.event :=
  attempt ← attempts;
  [DataRetrieval.Log DataRetrieval.WARNING
     (DataRetrieval.Search429 year attempt max_retries (2 ^ attempt));
   DataRetrieval.Sleep (inject_Z (2 ^ attempt))].

(** What one chunk adds to the records of [_fetch_pmids], read off
    the answers [get 1], [get 2], ... to its requests: nothing when
    every attempt is answered with 429, nothing when the first other
    answer carries an HTTP error status, and the articles of that
    answer otherwise. *)
Inductive chunk_yield (get : Z -> result DataRetrieval.FetchResponse)
    (max_retries : Z) : list PubRecord -> Prop :=
| yield_exhausted :
    (forall n, 1 <= n <= max_retries ->
       exists r, get n = Ok r /\ DataRetrieval.fetch_status_code r = 429) ->
    chunk_yield get max_retries []
| yield_http_error n resp :
    1 <= n <= max_retries ->
    (forall m, 1 <= m < n ->
       exists r, get m = Ok r /\ DataRetrieval.fetch_status_code r = 429) ->
    get n = Ok resp ->
    DataRetrieval.fetch_status_code resp <> 429 ->
    DataRetrieval.is_http_error (DataRetrieval.fetch_status_code resp) = true ->
    chunk_yield get max_retries []
| yield_articles n resp recs :
    1 <= n <= max_retries ->
    (forall m, 1 <= m < n ->
       exists r, get m = Ok r /\ DataRetrieval.fetch_status_code r = 429) ->
    get n = Ok resp ->
    DataRetrieval.fetch_status_code resp <> 429 ->
    DataRetrieval.is_http_error (DataRetrieval.fetch_status_code resp) = false ->
    DataRetrieval.articles resp = Ok recs ->
    chunk_yield get max_retries recs.

End Spec.

(** ** A concrete runtime, for running the model on examples *)

Module Sample.

(** A character database that knows no digit and no letter outside
    ASCII, with the default limit on decimal literals. *)
Definition ascii_runtime : Runtime :=
  {| uni_isdigit := fun _ => false;
     uni_decimal := fun _ => None;
     uni_isalnum := fun _ => false;
     int_max_str_digits := 4300 |}.

(** Sets visited in the order of [elements]. *)
Definition elements_iter : SetIter :=
  {| iter := elements; iter_perm := fun s => reflexivity (elements s) |}.

Definition span (identifier : string) : Ner.mention :=
  (0, 1, lit "x", lit identifier).

Definition record_of (p y : string) : PubRecord :=
  {| pmid := lit p; title := lit ""; abstract := lit ""; year := lit y |}.

#[local] Instance by_total_desc_dec a b :
  Decision (TemporalAnalysis.by_total_desc a b).
Proof. unfold TemporalAnalysis.by_total_desc. apply _. Defined.

#[local] Instance by_total_desc_total : Total TemporalAnalysis.by_total_desc.
Proof. intros a b. unfold TemporalAnalysis.by_total_desc. lia. Qed.

(** A sort that meets the contract and keeps the input order of rows
    of equal key. *)
Definition merge_sort_values : TemporalAnalysis.SortValues :=
  {| TemporalAnalysis.sort_values_desc := fun rows =>
       merge_sort TemporalAnalysis.by_total_desc rows;
     TemporalAnalysis.sort_values_perm := fun rows =>
       merge_sort_Permutation TemporalAnalysis.by_total_desc rows;
     TemporalAnalysis.sort_values_sorted := fun rows =>
       Sorted_merge_sort TemporalAnalysis.by_total_desc rows |}.

(** A world in the year 2024 where every search finds the one
    identifier 31, every fetch returns its record, and
    [throttled_year] is answered with status 429 throughout. *)
Definition throttled_year : Z := 2020.

Definition steady_world : DataRetrieval.World :=
  {| DataRetrieval.now_year_default := 2024;
     DataRetrieval.now_year := fun _ => 2024;
     DataRetrieval.esearch := fun year _ =>
       if year =? throttled_year
       then Ok {| DataRetrieval.status_code := 429;
                  DataRetrieval.idlist := Raise JSONDecodeError |}
       else Ok {| DataRetrieval.status_code := 200;
                  DataRetrieval.idlist := Ok [lit "31"] |};
     DataRetrieval.efetch := fun _ _ _ =>
       Ok {| DataRetrieval.fetch_status_code := 200;
             DataRetrieval.articles := Ok [record_of "31" "2023"] |} |}.

(** One edge mentioned in 2000, 2000 and 2001. *)
Definition three_pairs : list Ner.pair :=
  [(lit "101", lit "1", lit "D000001", lit "2000");
   (lit "102", lit "1", lit "D000001", lit "2000");
   (lit "103", lit "1", lit "D000001", lit "2001")].

(** The answers of [steady_world] a year later. *)
Definition later_world : DataRetrieval.World :=
  {| DataRetrieval.now_year_default := 2025;
     DataRetrieval.now_year := fun _ => 2025;
     DataRetrieval.esearch := DataRetrieval.esearch steady_world;
     DataRetrieval.efetch := DataRetrieval.efetch steady_world |}.

(** A world in the year 2024 where every search finds the identifiers
    31 and 32 and every fetch is answered with the record of 32. *)
Definition two_id_world : DataRetrieval.World :=
  {| DataRetrieval.now_year_default := 2024;
     DataRetrieval.now_year := fun _ => 2024;
     DataRetrieval.esearch := fun _ _ =>
       Ok {| DataRetrieval.status_code := 200;
             DataRetrieval.idlist := Ok [lit "31"; lit "32"] |};
     DataRetrieval.efetch := fun _ _ _ =>
       Ok {| DataRetrieval.fetch_status_code := 200;
             DataRetrieval.articles := Ok [record_of "32" "2023"] |} |}.

(** A world in the year 2024 where no search finds an identifier. *)
Definition empty_world : DataRetrieval.World :=
  {| DataRetrieval.now_year_default := 2024;
     DataRetrieval.now_year := fun _ => 2024;
     DataRetrieval.esearch := fun _ _ =>
       Ok {| DataRetrieval.status_code := 200;
             DataRetrieval.idlist := Ok [] |};
     DataRetrieval.efetch := fun _ _ _ => Raise ConnectionError |}.

(** The same, with the connection lost during the search of 2023. *)
Definition interrupted_world : DataRetrieval.World :=
  {| DataRetrieval.now_year_default := 2024;
     DataRetrieval.now_year := fun _ => 2024;
     DataRetrieval.esearch := fun year attempt =>
       if year =? 2023 then Raise ConnectionError
       else DataRetrieval.esearch empty_world year attempt;
     DataRetrieval.efetch := DataRetrieval.efetch empty_world |}.

(** A world in the year 2024 where the search finds the identifier
    31 and the fetch request fails in the transport. *)
Definition offline_world : DataRetrieval.World :=
  {| DataRetrieval.now_year_default := 2024;
     DataRetrieval.now_year := fun _ => 2024;
     DataRetrieval.esearch := fun _ _ =>
       Ok {| DataRetrieval.status_code := 200;
             DataRetrieval.idlist := Ok [lit "31"] |};
     DataRetrieval.efetch := fun _ _ _ => Raise ConnectionError |}.


(** A character database that knows one digit outside ASCII, the
    superscript two, which [str.isdigit] accepts and [int] refuses. *)
Definition superscript_two : N := 178%N.

Definition superscript_runtime : Runtime :=
  {| uni_isdigit := fun c => (c =? superscript_two)%N;
     uni_decimal := fun _ => None;
     uni_isalnum := fun c => (c =? superscript_two)%N;
     int_max_str_digits := 4300 |}.

(** Lowercasing of ASCII letters only. *)
Definition ascii_lowercase : Annotate.Lowercase :=
  {| Annotate.py_lower := fmap (fun c : N =>
       if ((65 <=? c) && (c <=? 90))%N then (c + 32)%N else c) |}.

(** A document with one passage, "BRCA1 and cancer", tagged with a
    gene of two identifiers and a disease. *)
Definition tagged_doc : Annotate.Document :=
  {| Annotate.doc_id := lit "77";
     Annotate.passages :=
       [ {| Annotate.passage_text := lit "BRCA1 and cancer";
            Annotate.denotations :=
              [ {| Annotate.den_type := Some (lit "Gene");
                   Annotate.den_identifier := Some (lit " 672;675 ");
                   Annotate.den_location := Some (Ok (0, 5)) |};
                {| Annotate.den_type := Some (lit "Disease");
                   Annotate.den_identifier := Some (lit "MESH:D009369");
                   Annotate.den_location := Some (Ok (10, 6)) |} ] |} ] |}.

(** A document whose one annotation names the same gene twice. *)
Definition repeated_doc : Annotate.Document :=
  {| Annotate.doc_id := lit "78";
     Annotate.passages :=
       [ {| Annotate.passage_text := lit "TP53";
            Annotate.denotations :=
              [ {| Annotate.den_type := Some (lit "Gene");
                   Annotate.den_identifier := Some (lit "7157;7157");
                   Annotate.den_location := Some (Ok (0, 4)) |} ] |} ] |}.

(** A service that answers the first batch with [tagged_doc] and
    every other batch with a body that is not JSON. *)
Definition one_doc_service : Annotate.Service :=
  fun i => match i with
           | O => Ok (Ok [tagged_doc])
           | S _ => Ok (Raise JSONDecodeError)
           end.

(** A cache directory that holds the name of gene 672. *)
Definition name_cache : GeneDiseaseUtils.Cache :=
  [(lit "gene_672.json", Some (lit "BRCA1"))].

(** An ESummary service that answers every request with status 500. *)
Definition failing_summary : nat -> result GeneDiseaseUtils.SummaryResponse :=
  fun _ => Ok {| GeneDiseaseUtils.summary_status := 500;
                 GeneDiseaseUtils.summary_result := Raise JSONDecodeError |}.

(** A MeSH lookup that knows the label of D009369. *)
Definition mesh_service : nat -> result GeneDiseaseUtils.MeshResponse :=
  fun _ => Ok {| GeneDiseaseUtils.mesh_status := 200;
                 GeneDiseaseUtils.mesh_entries :=
                   Ok [(Some (lit "D009369"), Some (lit "Neoplasms"))] |}.

(** The whitespace of ASCII only. *)
Definition ascii_whitespace : Whitespace :=
  {| uni_isspace := fun _ => false |}.

End Sample.

(** * Properties *)

(** ** Strings and identifier classes *)

Section PyFacts.
Context {rt : Runtime}.

Lemma isdigit_cons c s :
  isdigit (c :: s) = true -> char_isdigit c = true.
Proof. cbn. intros Hd. apply andb_true_iff in Hd. tauto. Qed.

Lemma isalnum_forall s :
  isalnum s = true -> Forall (fun c => char_isalnum c = true) s.
Proof.
  destruct s as [|c s]; [discriminate|].
  unfold isalnum. intros Ha.
  apply List.Forall_forall. apply (proj1 (List.forallb_forall _ _) Ha).
Qed.

Lemma isdigit_forall s :
  isdigit s = true -> Forall (fun c => char_isdigit c = true) s.
Proof.
  destruct s as [|c s]; [discriminate|].
  unfold isdigit. intros Ha.
  apply List.Forall_forall. apply (proj1 (List.forallb_forall _ _) Ha).
Qed.

(** An ASCII character that is not one of 0-9 is no digit, whatever
    the character database says elsewhere. *)
Lemma ascii_non_digit c :
  (c < 128)%N -> ascii_digit c = false -> char_isdigit c = false.
Proof.
  intros Hc Hd. unfold char_isdigit, is_ascii.
  apply N.ltb_lt in Hc. now rewrite Hc.
Qed.

Lemma colon_not_digit : char_isdigit colon = false.
Proof. reflexivity. Qed.

Lemma startswith_cons a p c s :
  startswith (a :: p) (c :: s) = true -> c = a /\ startswith p s = true.
Proof.
  cbn. intros Hs. apply andb_true_iff in Hs as [Ha Hp].
  apply N.eqb_eq in Ha. auto.
Qed.

Lemma startswith_app p s :
  startswith p s = true <-> exists rest, s = p ++ rest.
Proof.
  revert s. induction p as [|a p IH]; intros s.
  - split; [intros _; now exists s|reflexivity].
  - destruct s as [|c s]; cbn.
    + split; [discriminate|intros [rest Hr]; discriminate].
    + rewrite andb_true_iff, N.eqb_eq, IH. split.
      * intros [-> [rest ->]]. now exists rest.
      * intros [rest Hr]. injection Hr as -> ->. eauto.
Qed.

(** A string with a digit in front does not start with a letter. *)
Lemma isdigit_not_startswith a p s :
  (a < 128)%N -> ascii_digit a = false ->
  isdigit s = true -> startswith (a :: p) s = false.
Proof.
  intros Ha Hd Hs. destruct s as [|c s]; [reflexivity|].
  apply isdigit_cons in Hs.
  destruct (startswith (a :: p) (c :: s)) eqn:E; [|reflexivity].
  apply startswith_cons in E as [-> _].
  rewrite (ascii_non_digit a Ha Hd) in Hs. discriminate.
Qed.

Lemma contains_char_false c s :
  contains_char c s = false <-> c ∉ s.
Proof.
  unfold contains_char. induction s as [|x s IH]; cbn.
  - split; [intros _; apply not_elem_of_nil|reflexivity].
  - rewrite orb_false_iff, IH, not_elem_of_cons, N.eqb_neq. tauto.
Qed.

Lemma contains_char_true c s :
  contains_char c s = true <-> c ∈ s.
Proof.
  destruct (contains_char c s) eqn:E.
  - split; [intros _|reflexivity].
    destruct (decide (c ∈ s)) as [|Hn]; [assumption|].
    apply contains_char_false in Hn. congruence.
  - apply contains_char_false in E. split; [discriminate|tauto].
Qed.

(** [split_first] cuts at the first occurrence. *)
Lemma split_first_spec c s :
  c ∈ s ->
  s = (split_first c s).1 ++ c :: (split_first c s).2
  /\ c ∉ (split_first c s).1.
Proof.
  induction s as [|x s IH]; intros Hin.
  - now apply elem_of_nil in Hin.
  - cbn. destruct (N.eqb_spec x c) as [->|Hne].
    + cbn. split; [reflexivity|apply not_elem_of_nil].
    + apply elem_of_cons in Hin as [->|Hin]; [congruence|].
      destruct (IH Hin) as [Heq Hnot].
      destruct (split_first c s) as [a b]. cbn in *.
      split; [now f_equal|].
      apply not_elem_of_cons. split; [congruence|assumption].
Qed.

Lemma split_first_unique c s a b :
  s = a ++ c :: b -> c ∉ a -> split_first c s = (a, b).
Proof.
  revert s. induction a as [|x a IH]; intros s -> Hnot; cbn.
  - now rewrite N.eqb_refl.
  - apply not_elem_of_cons in Hnot as [Hne Hnot].
    destruct (N.eqb_spec x c) as [->|_]; [congruence|].
    now rewrite (IH _ eq_refl Hnot).
Qed.

End PyFacts.

(** ** Dictionaries *)

Section DictFacts.
Context {K V : Type} `{EqDecision K}.
Implicit Types (d : list (K * V)) (k : K) (v : V).

Lemma get_set_eq k v d : Dict.get k (Dict.set k v d) = Some v.
Proof.
  induction d as [|[k' v'] d IH]; cbn.
  - now rewrite decide_True.
  - destruct (decide (k = k')) as [->|Hne]; cbn.
    + now rewrite decide_True.
    + now rewrite decide_False.
Qed.

Lemma get_set_ne k k' v d :
  k <> k' -> Dict.get k' (Dict.set k v d) = Dict.get k' d.
Proof.
  intros Hne. induction d as [|[k0 v0] d IH]; cbn.
  - rewrite decide_False; [reflexivity|congruence].
  - destruct (decide (k = k0)) as [->|Hne0]; cbn.
    + rewrite !decide_False; [reflexivity|congruence|congruence].
    + destruct (decide (k' = k0)); [reflexivity|assumption].
Qed.

Lemma get_set k k' v d :
  Dict.get k' (Dict.set k v d) = if decide (k = k') then Some v else Dict.get k' d.
Proof.
  destruct (decide (k = k')) as [->|Hne];
    [apply get_set_eq|now apply get_set_ne].
Qed.

Lemma get_None k d : Dict.get k d = None <-> k ∉ d.*1.
Proof.
  induction d as [|[k' v'] d IH]; cbn.
  - split; [intros _; apply not_elem_of_nil|reflexivity].
  - rewrite not_elem_of_cons. destruct (decide (k = k')) as [->|Hne].
    + split; [discriminate|tauto].
    + rewrite IH. tauto.
Qed.

Lemma elem_get k v d : NoDup d.*1 -> (k, v) ∈ d -> Dict.get k d = Some v.
Proof.
  induction d as [|[k' v'] d IH]; cbn; intros Hnd Hin.
  - now apply elem_of_nil in Hin.
  - apply NoDup_cons in Hnd as [Hnot Hnd].
    apply elem_of_cons in Hin as [[= -> ->]|Hin].
    + now rewrite decide_True.
    + rewrite decide_False; [now apply IH|].
      intros ->. apply Hnot. apply list_elem_of_fmap. now exists (k', v).
Qed.

Lemma mem_true k d : Dict.mem k d = true <-> k ∈ d.*1.
Proof.
  unfold Dict.mem. rewrite bool_decide_eq_true.
  destruct (Dict.get k d) as [v|] eqn:E.
  - split; [intros _|intros _; eauto].
    destruct (decide (k ∈ d.*1)) as [|Hn]; [assumption|].
    apply get_None in Hn. congruence.
  - apply get_None in E. split; [intros [? [=]]|tauto].
Qed.

Lemma mem_false k d : Dict.mem k d = false <-> k ∉ d.*1.
Proof.
  rewrite <- mem_true. destruct (Dict.mem k d); split; congruence.
Qed.

Lemma mem_cons k k' v' d :
  Dict.mem k ((k', v') :: d) = if decide (k = k') then true else Dict.mem k d.
Proof.
  destruct (decide (k = k')) as [->|Hne].
  - apply mem_true. cbn. apply list_elem_of_here.
  - destruct (Dict.mem k d) eqn:E.
    + apply mem_true. apply mem_true in E. cbn. now apply list_elem_of_further.
    + apply mem_false. apply mem_false in E. cbn.
      apply not_elem_of_cons. auto.
Qed.

Lemma keys_set k v d :
  (Dict.set k v d).*1 = if Dict.mem k d then d.*1 else d.*1 ++ [k].
Proof.
  induction d as [|[k' v'] d IH]; [reflexivity|].
  rewrite mem_cons. cbn [Dict.set].
  destruct (decide (k = k')) as [->|Hne]; [reflexivity|].
  cbn. rewrite IH. now destruct (Dict.mem k d).
Qed.

Lemma NoDup_keys_set k v d : NoDup d.*1 -> NoDup (Dict.set k v d).*1.
Proof.
  intros Hnd. rewrite keys_set. destruct (Dict.mem k d) eqn:E; [assumption|].
  apply mem_false in E. apply NoDup_app. split_and!; [assumption| |apply NoDup_singleton].
  intros x Hx Hx'. apply list_elem_of_singleton in Hx'. now subst.
Qed.

Lemma elem_of_keys_set k k' v d :
  k' ∈ (Dict.set k v d).*1 <-> k' = k \/ k' ∈ d.*1.
Proof.
  rewrite keys_set. destruct (Dict.mem k d) eqn:E.
  - apply mem_true in E. split; [tauto|intros [->|?]; assumption].
  - rewrite elem_of_app, list_elem_of_singleton. tauto.
Qed.

End DictFacts.

(** ** Pair extraction (ner.py) *)

Section NerFacts.
Context {rt : Runtime} {si : SetIter}.

Lemma iter_elem (s : gset str) x : x ∈ iter s <-> x ∈ s.
Proof. rewrite (iter_perm s). apply elem_of_elements. Qed.

Lemma iter_NoDup (s : gset str) : NoDup (iter s).
Proof. rewrite (iter_perm s). apply NoDup_elements. Qed.


Lemma elem_gene_set t g :
  g ∈ Ner.gene_set t <->
  isdigit g = true /\ exists m, m ∈ Ner.genes t /\ Ner.ident m = g.
Proof.
  unfold Ner.gene_set.
  rewrite elem_of_list_to_set, list_elem_of_filter, list_elem_of_fmap.
  rewrite Is_true_true. split.
  - intros [Hd [m [-> Hm]]]. eauto.
  - intros [Hd [m [Hm <-]]]. eauto.
Qed.

Lemma elem_disease_fold (l : list str) (acc : gset str) d :
  d ∈ fold_left
        (fun ds did => if Ner.keep_disease did then {[ did ]} ∪ ds else ds)
        l acc
  <-> d ∈ acc \/ (d ∈ l /\ Ner.keep_disease d = true).
Proof.
  revert acc. induction l as [|x l IH]; intros acc; cbn.
  - rewrite elem_of_nil. tauto.
  - rewrite IH, elem_of_cons. destruct (Ner.keep_disease x) eqn:E.
    + rewrite elem_of_union, elem_of_singleton. split.
      * intros [[->|?]|[? ?]]; auto.
      * intros [?|[[->|?] ?]]; auto.
    + split.
      * intros [?|[? ?]]; auto.
      * intros [?|[[->|?] ?]]; auto. congruence.
Qed.

Lemma elem_disease_set t d :
  d ∈ Ner.disease_set t <->
  Ner.keep_disease d = true /\ exists m, m ∈ Ner.diseases t /\ Ner.ident m = d.
Proof.
  unfold Ner.disease_set. rewrite elem_disease_fold, list_elem_of_fmap.
  rewrite elem_of_empty. split.
  - intros [[]|[[m [-> Hm]] Hk]]. eauto.
  - intros [Hk [m [Hm <-]]]. eauto.
Qed.

(** What the disease filter accepts, in terms of the text. *)
Lemma keep_disease_spec d :
  Ner.keep_disease d = true <->
  (exists prefix core,
      d = prefix ++ colon :: core /\ (colon ∉ prefix) /\ isalnum core = true)
  \/ (exists rest, d = lit "D" ++ rest /\ isdigit rest = true).
Proof.
  unfold Ner.keep_disease. destruct (contains_char colon d) eqn:E.
  - apply contains_char_true in E.
    destruct (split_first_spec colon d E) as [Heq Hnot].
    destruct (split_first colon d) as [a b] eqn:Es. cbn in Heq, Hnot. split.
    + intros Ha. left. exists a, b. auto.
    + intros [(a' & b' & Hd & Hn & Ha)|(rest & Hd & Hr)].
      * rewrite (split_first_unique colon d a' b' Hd Hn) in Es.
        now injection Es as <- <-.
      * exfalso. clear Heq. rewrite Hd in E. cbn in E.
        apply elem_of_cons in E as [E|E]; [discriminate|].
        apply isdigit_forall in Hr.
        rewrite List.Forall_forall in Hr.
        apply list_elem_of_In in E. apply Hr in E.
        rewrite colon_not_digit in E. discriminate.
  - rewrite andb_true_iff, startswith_app. unfold slice_from_1. split.
    + intros [[rest ->] Hd]. right. exists rest. auto.
    + intros [(a & b & Hd & _ & _)|(rest & -> & Hr)].
      * apply contains_char_false in E. exfalso. apply E. subst d.
        apply elem_of_app. right. apply list_elem_of_here.
      * split; [now exists rest|exact Hr].
Qed.

Lemma fold_left_app_bind {A B C} (f : A -> B -> list C)
    (l : list (A * B)) (acc : list C) :
  fold_left (fun results '(a, b) => results ++ f a b) l acc
  = acc ++ (l ≫= fun '(a, b) => f a b).
Proof.
  revert acc. induction l as [|[a b] l IH]; intros acc; cbn.
  - now rewrite app_nil_r.
  - rewrite IH. now rewrite <- app_assoc.
Qed.

Lemma extract_bind records ann :
  Ner.extract_gene_disease_pairs records ann =
  ann ≫= (fun '(p, t) => Ner.doc_pairs (Ner.year_map records) p t).
Proof.
  unfold Ner.extract_gene_disease_pairs.
  now rewrite (fold_left_app_bind (Ner.doc_pairs (Ner.year_map records))).
Qed.

Lemma elem_doc_pairs ym p t q :
  q ∈ Ner.doc_pairs ym p t <->
  exists g d, q = (p, g, d, default (lit "") (Dict.get p ym))
              /\ g ∈ Ner.gene_set t /\ d ∈ Ner.disease_set t.
Proof.
  unfold Ner.doc_pairs. rewrite list_elem_of_bind. split.
  - intros (g & Hq & Hg). apply list_elem_of_bind in Hq as (d & Hq & Hd).
    apply list_elem_of_singleton in Hq.
    exists g, d. rewrite <- !iter_elem. auto.
  - intros (g & d & -> & Hg & Hd). exists g. rewrite iter_elem. split; [|assumption].
    apply list_elem_of_bind. exists d. rewrite iter_elem.
    split; [apply list_elem_of_here|assumption].
Qed.


Lemma NoDup_product {A B C} (f : A -> B -> C) (la : list A) (lb : list B) :
  (forall a b a' b', f a b = f a' b' -> a = a' /\ b = b') ->
  NoDup la -> NoDup lb ->
  NoDup (a ← la; b ← lb; [f a b]).
Proof.
  intros Hinj Ha Hb. induction Ha as [|a la Hnot Ha IH]; cbn.
  - constructor.
  - apply NoDup_app. split_and!.
    + clear -Hinj Hb. induction Hb as [|b lb Hnot Hb IH]; cbn; constructor.
      * intros (b' & Hx & Hb')%list_elem_of_bind.
        apply list_elem_of_singleton in Hx. apply Hinj in Hx as [_ ->]. tauto.
      * exact IH.
    + intros x (b & Hx & Hb')%list_elem_of_bind
               (a' & (b' & Hx' & Hb'')%list_elem_of_bind & Ha')%list_elem_of_bind.
      apply list_elem_of_singleton in Hx, Hx'. subst x.
      apply Hinj in Hx' as [-> _]. tauto.
    + exact IH.
Qed.


Lemma NoDup_doc_pairs ym p t : NoDup (Ner.doc_pairs ym p t).
Proof.
  unfold Ner.doc_pairs.
  apply (NoDup_product (fun g d => (p, g, d, default (lit "") (Dict.get p ym))));
    [|apply iter_NoDup..].
  intros a b a' b' [= -> ->]. auto.
Qed.


Lemma filter_all {A} (P : A -> Prop) `{forall x, Decision (P x)} (l : list A) :
  (forall x, x ∈ l -> P x) -> filter P l = l.
Proof.
  induction l as [|x l IH]; intros Hall; [reflexivity|].
  rewrite filter_cons_True by (apply Hall, list_elem_of_here).
  f_equal. apply IH. intros y Hy. apply Hall. now apply list_elem_of_further.
Qed.

Lemma filter_none {A} (P : A -> Prop) `{forall x, Decision (P x)} (l : list A) :
  (forall x, x ∈ l -> ~ P x) -> filter P l = [].
Proof.
  induction l as [|x l IH]; intros Hall; [reflexivity|].
  rewrite filter_cons_False by (apply Hall, list_elem_of_here).
  apply IH. intros y Hy. apply Hall. now apply list_elem_of_further.
Qed.


Lemma year_map_fold (rs : list PubRecord) (acc : list (str * str)) p :
  Dict.get p (fold_left (fun m r => Dict.set (pmid r) (year r) m) rs acc)
  = match last (filter (fun r => pmid r = p) rs) with
    | Some r => Some (year r)
    | None => Dict.get p acc
    end.
Proof.
  revert acc. induction rs as [|r rs IH]; intros acc; [reflexivity|].
  cbn [fold_left]. rewrite IH. destruct (decide (pmid r = p)) as [Hp|Hp].
  - rewrite filter_cons_True by assumption.
    destruct (filter _ rs) as [|r' l] eqn:E.
    + cbn. rewrite <- Hp. apply get_set_eq.
    + rewrite last_cons_cons.
      destruct (last (r' :: l)) eqn:El; [reflexivity|].
      apply last_None in El. discriminate.
  - rewrite filter_cons_False by assumption.
    destruct (last _); [reflexivity|]. now apply get_set_ne.
Qed.

End NerFacts.

Section NerClaims.
Context {rt : Runtime} {si : SetIter}.

Lemma year_map_get records p :
  default (lit "") (Dict.get p (Ner.year_map records))
  = Ner.document_year records p.
Proof.
  unfold Ner.year_map, Ner.document_year. rewrite year_map_fold.
  now destruct (last _).
Qed.

Lemma doc_pairs_nil ym p t :
  Ner.gene_set t = ∅ \/ Ner.disease_set t = ∅ -> Ner.doc_pairs ym p t = [].
Proof.
  intros Hempty. apply elem_of_nil_inv. intros q (g & d & _ & Hg & Hd)%elem_doc_pairs.
  destruct Hempty as [E|E]; rewrite E in *.
  - now apply elem_of_empty in Hg.
  - now apply elem_of_empty in Hd.
Qed.

Lemma elem_extract records ann q :
  q ∈ Ner.extract_gene_disease_pairs records ann ->
  exists p t, (p, t) ∈ ann /\ q ∈ Ner.doc_pairs (Ner.year_map records) p t.
Proof.
  rewrite extract_bind. intros ([p t] & Hq & Hpt)%list_elem_of_bind. eauto.
Qed.


(** C7: a pair is only ever formed from a gene identifier made of
    digits and a disease identifier that is either prefix:core with
    an alphanumeric core or D followed by digits; "ABC" never is the
    gene of a pair and "XYZ" never the disease, and a document whose
    only gene is "ABC" gives no pair although its disease
    "MESH:D000123" passes the filter, as does a document whose only
    disease is "XYZ". *)
Theorem identifiers_are_filtered records :
  (forall ann q, q ∈ Ner.extract_gene_disease_pairs records ann ->
     isdigit (Ner.pair_gene q) = true
     /\ ((exists prefix core,
             Ner.pair_disease q = prefix ++ colon :: core
             /\ isalnum core = true)
         \/ (exists rest,
               Ner.pair_disease q = lit "D" ++ rest /\ isdigit rest = true)))
  /\ (forall ann q, q ∈ Ner.extract_gene_disease_pairs records ann ->
       Ner.pair_gene q <> lit "ABC" /\ Ner.pair_disease q <> lit "XYZ")
  /\ Ner.keep_disease (lit "MESH:D000123") = true
  /\ (forall p a b sn a' b' sn',
       Ner.extract_gene_disease_pairs records
         [(p, {| Ner.genes := [(a, b, sn, lit "ABC")];
                 Ner.diseases := [(a', b', sn', lit "MESH:D000123")] |})] = [])
  /\ (forall p a b sn a' b' sn',
       Ner.extract_gene_disease_pairs records
         [(p, {| Ner.genes := [(a, b, sn, lit "1")];
                 Ner.diseases := [(a', b', sn', lit "XYZ")] |})] = []).
Proof.
  assert (Hmem : forall ann q, q ∈ Ner.extract_gene_disease_pairs records ann ->
            isdigit (Ner.pair_gene q) = true
            /\ Ner.keep_disease (Ner.pair_disease q) = true).
  { intros ann q (p & t & _ & (g & d & -> & Hg & Hd)%elem_doc_pairs)%elem_extract.
    apply elem_gene_set in Hg as [Hg _]. apply elem_disease_set in Hd as [Hd _].
    auto. }
  split_and!.
  - intros ann q Hq. destruct (Hmem ann q Hq) as [Hg Hd]. split; [exact Hg|].
    apply keep_disease_spec in Hd as [(a & b & ? & _ & ?)|?]; eauto.
  - intros ann q Hq. destruct (Hmem ann q Hq) as [Hg Hd].
    split; intros E; rewrite E in *; discriminate.
  - reflexivity.
  - intros. rewrite extract_bind. cbn. rewrite app_nil_r.
    apply doc_pairs_nil. left. reflexivity.
  - intros. rewrite extract_bind. cbn. rewrite app_nil_r.
    apply doc_pairs_nil. right. reflexivity.
Qed.

End NerClaims.


(** ** Graph construction (graph_builder.py) *)

Section NxFacts.

Local Abbreviation aref := Nx.ref_in.

Lemma edge_ref_aref G u v : Nx.edge_ref G u v = aref (Nx.adj G) u v.
Proof. reflexivity. Qed.

Lemma get_link u v r a x :
  Dict.get x (Nx.link u v r a)
  = if decide (u = x)
    then Some (Dict.set v r (default [] (Dict.get u a)))
    else Dict.get x a.
Proof. unfold Nx.link. apply get_set. Qed.

Lemma aref_link u v r a x y :
  aref (Nx.link u v r a) x y
  = if decide (x = u /\ y = v) then Some r else aref a x y.
Proof.
  unfold Nx.ref_in. rewrite get_link. destruct (decide (u = x)) as [->|Hne].
  - cbn. rewrite get_set. destruct (decide (v = y)) as [->|Hne].
    + now rewrite decide_True.
    + rewrite decide_False by (intros [_ ->]; congruence).
      now destruct (Dict.get x a).
  - rewrite decide_False by (intros [-> _]; congruence). reflexivity.
Qed.

Lemma keys_link u v r a : u ∈ a.*1 -> (Nx.link u v r a).*1 = a.*1.
Proof.
  intros Hu. unfold Nx.link. rewrite keys_set.
  apply mem_true in Hu. now rewrite Hu.
Qed.

Lemma aref_fresh_key n a u v :
  Dict.get n a = None -> aref (Dict.set n [] a) u v = aref a u v.
Proof.
  intros Hn. unfold Nx.ref_in. rewrite get_set.
  destruct (decide (n = u)) as [->|Hne]; [|reflexivity].
  now rewrite Hn.
Qed.

Lemma aref_Some_key a u v r : aref a u v = Some r -> u ∈ a.*1.
Proof.
  unfold Nx.ref_in. destruct (Dict.get u a) as [ns|] eqn:E; [|discriminate].
  intros _. destruct (decide (u ∈ a.*1)) as [|Hn]; [assumption|].
  apply get_None in Hn. congruence.
Qed.

(** Every triple of [G.edges(data=True)] comes from an adjacency
    entry and carries the attribute dictionary behind its
    reference. *)
Lemma elem_edges_from G seen a u v attrs :
  (forall n ns, (n, ns) ∈ a -> Dict.get n (Nx.adj G) = Some ns) ->
  (forall n ns, Dict.get n (Nx.adj G) = Some ns -> NoDup ns.*1) ->
  (u, v, attrs) ∈ Nx.edges_from G seen a ->
  exists r, Nx.edge_ref G u v = Some r /\ attrs = Nx.deref G r.
Proof.
  intros Hsub Hnbrs. revert seen Hsub.
  induction a as [|[n ns] a IH]; intros seen Hsub Hin; cbn in Hin.
  - now apply elem_of_nil in Hin.
  - apply elem_of_app in Hin as [Hin|Hin].
    + apply list_elem_of_fmap in Hin as ([nbr r] & Heq & Hin).
      injection Heq as -> -> ->.
      apply list_elem_of_filter in Hin as [_ Hin].
      exists r. split; [|reflexivity].
      unfold Nx.edge_ref, Nx.ref_in.
      rewrite (Hsub n ns) by apply list_elem_of_here. cbn.
      apply elem_get; [|assumption].
      apply (Hnbrs n), Hsub, list_elem_of_here.
    + apply (IH (n :: seen)); [|assumption].
      intros n' ns' Hn'. apply Hsub. now apply list_elem_of_further.
Qed.

Lemma elem_edges G u v attrs :
  NoDup (Nx.adj G).*1 ->
  (forall n ns, Dict.get n (Nx.adj G) = Some ns -> NoDup ns.*1) ->
  (u, v, attrs) ∈ Nx.edges G ->
  exists r, Nx.edge_ref G u v = Some r /\ attrs = Nx.deref G r.
Proof.
  intros Hnd Hnbrs. apply elem_edges_from; [|assumption].
  intros n ns Hin. now apply elem_get.
Qed.

End NxFacts.

Section BuildFacts.
Context {rt : Runtime}.

Local Abbreviation vg := GraphBuilder.is_valid_gene_id.
Local Abbreviation vd := GraphBuilder.is_valid_disease_id.

(** No string is both a valid gene identifier and a valid disease
    identifier. *)
Lemma valid_ids_disjoint s : vg s = true -> vd s = false.
Proof.
  unfold vg, vd. intros Hd.
  change (lit "MESH:") with (77%N :: lit "ESH:").
  change (lit "OMIM:") with (79%N :: lit "MIM:").
  change (lit "D") with (68%N :: lit "").
  now rewrite !(isdigit_not_startswith _ _ s) by (reflexivity || assumption).
Qed.

Lemma valid_ids_differ g d : vg g = true -> vd d = true -> g <> d.
Proof. intros Hg Hd ->. apply valid_ids_disjoint in Hg. congruence. Qed.

Lemma evidence_snoc g d pairs q :
  Spec.evidence g d (pairs ++ [q])
  = Spec.evidence g d pairs
    ++ (if decide (Ner.pair_gene q = g /\ Ner.pair_disease q = d)
        then [q] else []).
Proof.
  unfold Spec.evidence. rewrite filter_app. reflexivity.
Qed.

Lemma evidence_snoc_other g d pairs q :
  ~ (Ner.pair_gene q = g /\ Ner.pair_disease q = d) ->
  Spec.evidence g d (pairs ++ [q]) = Spec.evidence g d pairs.
Proof.
  intros Hq. rewrite evidence_snoc, decide_False by assumption.
  apply app_nil_r.
Qed.

Lemma evidence_snoc_same pm g d yr pairs :
  Spec.evidence g d (pairs ++ [(pm, g, d, yr)])
  = Spec.evidence g d pairs ++ [(pm, g, d, yr)].
Proof. rewrite evidence_snoc, decide_True; auto. Qed.

Lemma built_empty : Spec.built [] Nx.empty.
Proof.
  constructor; cbn; try discriminate; try reflexivity.
  - constructor.
  - intros g d _ _ Hne. now destruct Hne.
Qed.

Lemma built_edge_lt pairs G u v r :
  Spec.built pairs G -> Nx.edge_ref G u v = Some r -> (r < length (Nx.heap G))%nat.
Proof.
  intros HB Hr.
  destruct (Spec.built_ends _ _ HB u v r Hr) as [[Hu Hv]|[Hu Hv]].
  - destruct (Spec.built_evidence _ _ HB u v r Hu Hr) as [_ Hl].
    now apply lookup_lt_Some in Hl.
  - apply (Spec.built_sym _ _ HB) in Hr.
    destruct (Spec.built_evidence _ _ HB v u r Hv Hr) as [_ Hl].
    now apply lookup_lt_Some in Hl.
Qed.

Lemma built_gene_edge pairs G g d r :
  Spec.built pairs G -> vg g = true -> Nx.edge_ref G g d = Some r -> vd d = true.
Proof.
  intros HB Hg Hr.
  destruct (Spec.built_ends _ _ HB g d r Hr) as [[_ Hv]|[Hu _]]; [assumption|].
  apply valid_ids_disjoint in Hg. congruence.
Qed.

(** A pair that fails validation leaves the graph as it is. *)
Lemma built_skip pairs G q :
  Spec.built pairs G ->
  vg (Ner.pair_gene q) = false \/ vd (Ner.pair_disease q) = false ->
  Spec.built (pairs ++ [q]) G.
Proof.
  intros HB Hbad. destruct HB. constructor; try assumption.
  - intros g d r Hg Hr.
    rewrite evidence_snoc_other; [now apply built_evidence|].
    intros [<- <-]. destruct Hbad as [Hb|Hb]; [congruence|].
    destruct (built_ends _ _ _ Hr) as [[_ Hv]|[Hu _]]; [congruence|].
    apply valid_ids_disjoint in Hg. congruence.
  - intros g d Hg Hd. rewrite evidence_snoc_other; [now apply built_complete|].
    intros [<- <-]. destruct Hbad; congruence.
Qed.

(** A node inserted for the first time, with the type of its class. *)
Lemma built_add_node pairs G n ty :
  Spec.built pairs G ->
  Nx.has_node G n = false ->
  (ty = lit "gene" /\ vg n = true) \/ (ty = lit "disease" /\ vd n = true) ->
  Spec.built pairs (Nx.add_node n ty G).
Proof.
  intros HB Hfresh Hty. unfold Nx.has_node in Hfresh.
  unfold Nx.add_node. rewrite Hfresh.
  assert (Hadj : Dict.get n (Nx.adj G) = None).
  { apply get_None. rewrite <- (Spec.built_keys _ _ HB). now apply mem_false. }
  assert (Hmem : Dict.mem n (Nx.adj G) = false).
  { apply mem_false. now apply get_None. }
  assert (Href : forall u v,
             Nx.edge_ref
               {| Nx.node := Dict.set n (Some ty) (Nx.node G);
                  Nx.adj := Dict.set n [] (Nx.adj G);
                  Nx.heap := Nx.heap G |} u v = Nx.edge_ref G u v).
  { intros u v. unfold Nx.edge_ref. cbn. now apply aref_fresh_key. }
  destruct HB. constructor; cbn [Nx.node Nx.adj Nx.heap].
  - rewrite !keys_set, Hfresh, Hmem. now f_equal.
  - now apply NoDup_keys_set.
  - intros x ns. rewrite get_set. destruct (decide (n = x)).
    + intros [= <-]. constructor.
    + apply built_nbrs.
  - intros x ty'. rewrite get_set. destruct (decide (n = x)) as [<-|].
    + intros [= <-]. destruct Hty as [[-> ?]|[-> ?]]; auto.
    + apply built_type.
  - intros u v r. rewrite !Href. apply built_sym.
  - intros u v r. rewrite !Href. apply built_ends.
  - intros g d g' d' r. rewrite !Href. apply built_inj.
  - intros g d r. rewrite !Href. apply built_evidence.
  - intros g d. rewrite !Href. apply built_complete.
Qed.

(** A repeated pair appends to both lists of its edge. *)
Lemma built_append pairs G pm g d yr r :
  Spec.built pairs G ->
  vg g = true ->
  Nx.edge_ref G g d = Some r ->
  Spec.built (pairs ++ [(pm, g, d, yr)]) (Nx.append_evidence r pm yr G).
Proof.
  intros HB Hg Hr.
  pose proof (built_gene_edge _ _ _ _ _ HB Hg Hr) as Hd.
  pose proof (built_edge_lt _ _ _ _ _ HB Hr) as Hlt.
  destruct (Spec.built_evidence _ _ HB g d r Hg Hr) as [Hne Hl].
  unfold Nx.append_evidence, Nx.deref. rewrite Hl. cbn [default Nx.pmids Nx.years].
  destruct HB. constructor; cbn [Nx.node Nx.adj Nx.heap]; try assumption.
  - intros g' d' r' Hg' Hr'.
    change (Nx.edge_ref _ g' d') with (Nx.edge_ref G g' d') in Hr'.
    destruct (decide (r' = r)) as [->|Hrr].
    + destruct (built_inj g' d' g d r Hg' Hg Hr' Hr) as [-> ->].
      rewrite evidence_snoc_same, !fmap_app. split.
      * intros E. now apply app_eq_nil in E as [_ E].
      * now rewrite list_lookup_insert_eq.
    + rewrite list_lookup_insert_ne by congruence.
      rewrite evidence_snoc_other; [now apply built_evidence|].
      cbn. intros [<- <-]. congruence.
  - intros g' d' Hg' Hd'. change (Nx.edge_ref _ g' d') with (Nx.edge_ref G g' d').
    destruct (decide (g = g' /\ d = d')) as [[<- <-]|Hne'].
    + intros _. now rewrite Hr.
    + rewrite evidence_snoc_other by exact Hne'. now apply built_complete.
Qed.

Local Ltac case_ends :=
  repeat match goal with
    | |- context [decide (?x = ?a /\ ?y = ?b)] =>
        destruct (decide (x = a /\ y = b)) as [[? ?]|?]
    end.

(** The first pair of a gene and a disease creates their edge with
    singleton lists. *)
Lemma built_add_edge pairs G pm g d yr :
  Spec.built pairs G ->
  vg g = true -> vd d = true ->
  Nx.has_node G g = true -> Nx.has_node G d = true ->
  Nx.edge_ref G g d = None ->
  Spec.built (pairs ++ [(pm, g, d, yr)]) (Nx.add_edge g d [pm] [yr] G).
Proof.
  intros HB Hg Hd Hng Hnd Hr.
  pose proof (valid_ids_differ g d Hg Hd) as Hgd.
  unfold Nx.add_edge, Nx.touch_node. unfold Nx.has_node in Hng, Hnd.
  rewrite Hng, Hnd, Hr.
  assert (Hkg : g ∈ (Nx.adj G).*1).
  { rewrite <- (Spec.built_keys _ _ HB). now apply mem_true. }
  assert (Hkd : d ∈ (Nx.adj G).*1).
  { rewrite <- (Spec.built_keys _ _ HB). now apply mem_true. }
  set (r := length (Nx.heap G)).
  set (attrs := {| Nx.pmids := [pm]; Nx.years := [yr] |}).
  set (a' := Nx.link d g r (Nx.link g d r (Nx.adj G))).
  remember {| Nx.node := Nx.node G; Nx.adj := a'; Nx.heap := Nx.heap G ++ [attrs] |}
    as G' eqn:EG'.
  assert (Hnode : Nx.node G' = Nx.node G) by now subst G'.
  assert (Hadj : Nx.adj G' = a') by now subst G'.
  assert (Hheap : Nx.heap G' = Nx.heap G ++ [attrs]) by now subst G'.
  assert (Href : forall x y,
             Nx.edge_ref G' x y
             = if decide (x = d /\ y = g) then Some r
               else if decide (x = g /\ y = d) then Some r
               else Nx.edge_ref G x y).
  { intros x y. rewrite edge_ref_aref, Hadj. unfold a'. now rewrite !aref_link. }
  clear EG'.
  assert (Hold : forall x y r', Nx.edge_ref G x y = Some r' -> r' <> r).
  { intros x y r' Hr' ->. apply (built_edge_lt _ _ _ _ _ HB) in Hr'.
    unfold r in Hr'. lia. }
  assert (Hev : Spec.evidence g d pairs = []).
  { destruct (Spec.evidence g d pairs) eqn:E; [reflexivity|].
    destruct (Spec.built_complete _ _ HB g d Hg Hd) as [r' Hr']; [now rewrite E|].
    congruence. }
  assert (Hkeys : a'.*1 = (Nx.adj G).*1).
  { unfold a'. rewrite !keys_link; [reflexivity|assumption|].
    now rewrite keys_link. }
  destruct HB. constructor; rewrite ?Hnode, ?Hadj, ?Hheap.
  - now rewrite Hkeys.
  - now rewrite Hkeys.
  - intros x ns. unfold a'. rewrite !get_link.
    destruct (decide (d = x)) as [<-|Hdx].
    + intros [= <-]. apply NoDup_keys_set.
      rewrite decide_False by assumption.
      destruct (Dict.get d (Nx.adj G)) eqn:E; [now apply (built_nbrs d)|constructor].
    + destruct (decide (g = x)) as [<-|Hgx]; [|apply built_nbrs].
      intros [= <-]. apply NoDup_keys_set.
      destruct (Dict.get g (Nx.adj G)) eqn:E; [now apply (built_nbrs g)|constructor].
  - assumption.
  - intros u v r'. rewrite !Href.
    case_ends; subst; try tauto; try congruence.
    apply built_sym.
  - intros u v r'. rewrite !Href.
    case_ends; subst; try tauto.
    apply built_ends.
  - intros g1 d1 g2 d2 r' Hg1 Hg2. rewrite !Href.
    case_ends; subst; intros Hr1 Hr2;
      try (apply valid_ids_disjoint in Hg1; congruence);
      try (apply valid_ids_disjoint in Hg2; congruence);
      try tauto.
    + injection Hr1 as <-. now apply Hold in Hr2.
    + injection Hr2 as <-. now apply Hold in Hr1.
    + now apply (built_inj g1 d1 g2 d2 r').
  - intros g1 d1 r' Hg1. rewrite !Href.
    case_ends; subst; intros Hr1;
      try (apply valid_ids_disjoint in Hg1; congruence).
    + injection Hr1 as <-. rewrite evidence_snoc_same, Hev. split; [discriminate|].
      unfold r. now rewrite list_lookup_middle.
    + rewrite evidence_snoc_other by (intros [E1 E2]; cbn in E1, E2; subst; auto).
      destruct (built_evidence g1 d1 r' Hg1 Hr1) as [Hne Hl]. split; [assumption|].
      rewrite lookup_app_l; [assumption|]. now apply lookup_lt_Some in Hl.
  - intros g1 d1 Hg1 Hd1. rewrite !Href.
    case_ends; subst; try (intros _; now eexists).
    rewrite evidence_snoc_other by (intros [E1 E2]; cbn in E1, E2; subst; auto).
    now apply built_complete.
Qed.

Lemma build_step_invalid G sk q :
  vg (Ner.pair_gene q) = false \/ vd (Ner.pair_disease q) = false ->
  GraphBuilder.build_step (G, sk) q = (G, sk + 1).
Proof.
  destruct q as [[[pm g] d] yr]. cbn. intros [-> | ->]; cbn; [reflexivity|].
  now rewrite orb_true_r.
Qed.

Lemma has_node_add_node n ty G x :
  Nx.has_node (Nx.add_node n ty G) x = true <-> x = n \/ Nx.has_node G x = true.
Proof.
  unfold Nx.has_node, Nx.add_node.
  destruct (Dict.mem n (Nx.node G)); cbn [Nx.node];
    now rewrite !mem_true, elem_of_keys_set.
Qed.

(** Each round of the loop keeps the graph in step with the pairs
    consumed. *)
Lemma built_step pairs G sk q :
  Spec.built pairs G ->
  Spec.built (pairs ++ [q]) (GraphBuilder.build_step (G, sk) q).1.
Proof.
  intros HB. destruct q as [[[pm g] d] yr].
  destruct (vg g) eqn:Hg; cycle 1.
  { rewrite build_step_invalid by (left; exact Hg). now apply built_skip; [|left]. }
  destruct (vd d) eqn:Hd; cycle 1.
  { rewrite build_step_invalid by (right; exact Hd). now apply built_skip; [|right]. }
  cbn [GraphBuilder.build_step]. rewrite Hg, Hd. cbn [negb orb].
  set (G1 := if negb (Nx.has_node G g) then Nx.add_node g (lit "gene") G else G).
  assert (HB1 : Spec.built pairs G1 /\ Nx.has_node G1 g = true).
  { unfold G1. destruct (Nx.has_node G g) eqn:E; cbn [negb]; [auto|]. split.
    - apply built_add_node; auto.
    - apply has_node_add_node. now left. }
  destruct HB1 as [HB1 Hn1].
  set (G2 := if negb (Nx.has_node G1 d) then Nx.add_node d (lit "disease") G1 else G1).
  assert (HB2 : Spec.built pairs G2 /\ Nx.has_node G2 g = true
                /\ Nx.has_node G2 d = true).
  { unfold G2. destruct (Nx.has_node G1 d) eqn:E; cbn [negb]; [auto|]. split_and!.
    - apply built_add_node; auto.
    - apply has_node_add_node. now right.
    - apply has_node_add_node. now left. }
  destruct HB2 as (HB2 & Hg2 & Hd2).
  destruct (Nx.edge_ref G2 g d) as [r|] eqn:Hr; cbn [fst].
  - now apply built_append.
  - now apply built_add_edge.
Qed.

Lemma built_fold rest :
  forall prefix G sk,
    Spec.built prefix G ->
    Spec.built (prefix ++ rest)
               (fold_left GraphBuilder.build_step rest (G, sk)).1.
Proof.
  induction rest as [|q rest IH]; intros prefix G sk HB; cbn [fold_left].
  - now rewrite app_nil_r.
  - destruct (GraphBuilder.build_step (G, sk) q) as [G' sk'] eqn:E.
    replace (prefix ++ q :: rest) with ((prefix ++ [q]) ++ rest)
      by now rewrite <- app_assoc.
    apply IH. pose proof (built_step prefix G sk q HB) as HB'.
    now rewrite E in HB'.
Qed.

(** The graph returned by the builder is in step with its input. *)
Lemma built_build_graph pairs :
  Spec.built pairs (GraphBuilder.build_graph pairs).
Proof. apply (built_fold pairs [] Nx.empty 0), built_empty. Qed.

Lemma build_graph_snoc pairs q :
  GraphBuilder.build_graph (pairs ++ [q])
  = (GraphBuilder.build_step (GraphBuilder.build_from_pairs pairs) q).1.
Proof.
  unfold GraphBuilder.build_graph, GraphBuilder.build_from_pairs.
  now rewrite fold_left_app.
Qed.

(** The attributes of the edge between a gene and a disease, read off
    the input. *)
Lemma build_graph_edge_attrs pairs g d :
  vg g = true -> vd d = true ->
  Nx.edge_attrs (GraphBuilder.build_graph pairs) g d
  = match Spec.evidence g d pairs with
    | [] => None
    | ev => Some {| Nx.pmids := Ner.pair_pmid <$> ev;
                    Nx.years := Ner.pair_year <$> ev |}
    end.
Proof.
  intros Hg Hd. pose proof (built_build_graph pairs) as HB.
  unfold Nx.edge_attrs.
  destruct (Nx.edge_ref (GraphBuilder.build_graph pairs) g d) as [r|] eqn:Hr.
  - destruct (Spec.built_evidence _ _ HB g d r Hg Hr) as [Hne Hl].
    cbn. unfold Nx.deref. rewrite Hl. cbn.
    now destruct (Spec.evidence g d pairs).
  - destruct (Spec.evidence g d pairs) eqn:E; [reflexivity|].
    destruct (Spec.built_complete _ _ HB g d Hg Hd) as [r Hr']; [now rewrite E|].
    congruence.
Qed.

End BuildFacts.

Section BuildClaims.
Context {rt : Runtime}.

Local Abbreviation vg := GraphBuilder.is_valid_gene_id.
Local Abbreviation vd := GraphBuilder.is_valid_disease_id.

(** C4: every edge of the graph the builder returns has one pmid and
    one year per supporting pair, both lists in the order in which
    the pairs of that gene and disease arrived, so the two lists have
    the same length; both directions of an edge read the same lists;
    the first valid pair of a gene and a disease gives the edge
    singleton lists and each later one appends one element to each
    list, leaving the other edges as they are. *)
Theorem edge_evidence_is_parallel pairs :
  let G := GraphBuilder.build_graph pairs in
  (forall u v attrs, (u, v, attrs) ∈ Nx.edges G ->
     length (Nx.pmids attrs) = length (Nx.years attrs)
     /\ exists g d,
         ((u, v) = (g, d) \/ (u, v) = (d, g))
         /\ GraphBuilder.is_valid_gene_id g = true
         /\ GraphBuilder.is_valid_disease_id d = true
         /\ Nx.pmids attrs = Ner.pair_pmid <$> Spec.evidence g d pairs
         /\ Nx.years attrs = Ner.pair_year <$> Spec.evidence g d pairs)
  /\ (forall u v, Nx.edge_attrs G u v = Nx.edge_attrs G v u)
  /\ (forall pm g d yr,
       GraphBuilder.is_valid_gene_id g = true ->
       GraphBuilder.is_valid_disease_id d = true ->
       let G' := GraphBuilder.build_graph (pairs ++ [(pm, g, d, yr)]) in
       Nx.edge_attrs G' g d
       = match Nx.edge_attrs G g d with
         | None => Some {| Nx.pmids := [pm]; Nx.years := [yr] |}
         | Some a => Some {| Nx.pmids := Nx.pmids a ++ [pm];
                             Nx.years := Nx.years a ++ [yr] |}
         end
       /\ forall g' d',
            GraphBuilder.is_valid_gene_id g' = true ->
            GraphBuilder.is_valid_disease_id d' = true ->
            ~ (g' = g /\ d' = d) ->
            Nx.edge_attrs G' g' d' = Nx.edge_attrs G g' d').
Proof.
  intros G. pose proof (built_build_graph pairs) as HB. fold G in HB.
  split_and!.
  - intros u v attrs Hin.
    apply elem_edges in Hin as (r & Hr & ->);
      [|apply (Spec.built_nodup _ _ HB)|apply (Spec.built_nbrs _ _ HB)].
    assert (Hgene : forall g d, vg g = true -> Nx.edge_ref G g d = Some r ->
              length (Nx.pmids (Nx.deref G r)) = length (Nx.years (Nx.deref G r))
              /\ vd d = true
              /\ Nx.pmids (Nx.deref G r) = Ner.pair_pmid <$> Spec.evidence g d pairs
              /\ Nx.years (Nx.deref G r) = Ner.pair_year <$> Spec.evidence g d pairs).
    { intros g d Hg Hgd.
      destruct (Spec.built_evidence _ _ HB g d r Hg Hgd) as [_ Hl].
      unfold Nx.deref. rewrite Hl. cbn. rewrite !length_fmap.
      split_and!; try reflexivity. now apply (built_gene_edge pairs G g d r). }
    destruct (Spec.built_ends _ _ HB u v r Hr) as [[Hu Hv]|[Hu Hv]].
    + destruct (Hgene u v Hu Hr) as (Hlen & _ & Hp & Hy).
      split; [exact Hlen|]. exists u, v. auto 10.
    + apply (Spec.built_sym _ _ HB) in Hr.
      destruct (Hgene v u Hv Hr) as (Hlen & _ & Hp & Hy).
      split; [exact Hlen|]. exists v, u. auto 10.
  - intros u v. unfold Nx.edge_attrs.
    destruct (Nx.edge_ref G u v) as [r|] eqn:Huv.
    + now rewrite (Spec.built_sym _ _ HB u v r Huv).
    + destruct (Nx.edge_ref G v u) as [r|] eqn:Hvu; [|reflexivity].
      apply (Spec.built_sym _ _ HB) in Hvu. congruence.
  - intros pm g d yr Hg Hd G'. subst G G'. split.
    + rewrite !build_graph_edge_attrs by assumption.
      rewrite evidence_snoc_same.
      destruct (Spec.evidence g d pairs) as [|q ev]; [reflexivity|].
      cbn. now rewrite !fmap_app.
    + intros g' d' Hg' Hd' Hne.
      rewrite !build_graph_edge_attrs by assumption.
      rewrite evidence_snoc_other; [reflexivity|].
      cbn. intros [<- <-]. auto.
Qed.

End BuildClaims.

(** ** Temporal analysis (temporal_analysis.py) *)

Section CounterFacts.

Local Abbreviation tally :=
  (fun (cnt : list (Z * Z)) (y : Z) =>
     Dict.set y (default 0 (Dict.get y cnt) + 1) cnt).

Lemma count_cons x y ys :
  Spec.count y (x :: ys) = (if decide (x = y) then 1 else 0) + Spec.count y ys.
Proof.
  unfold Spec.count. destruct (decide (x = y)) as [Hxy|Hxy].
  - rewrite filter_cons_True by assumption. cbn [length]. lia.
  - rewrite filter_cons_False by assumption. lia.
Qed.

Lemma count_nonneg y ys : 0 <= Spec.count y ys.
Proof. unfold Spec.count. lia. Qed.

Lemma count_pos y ys : y ∈ ys <-> 0 < Spec.count y ys.
Proof.
  induction ys as [|x ys IH].
  - rewrite elem_of_nil. unfold Spec.count. cbn. lia.
  - rewrite elem_of_cons, count_cons, IH.
    pose proof (count_nonneg y ys).
    destruct (decide (x = y)) as [->|Hne]; [intuition lia|].
    split; [intros [->|?]; [congruence|lia]|intros; right; lia].
Qed.

Lemma tally_get_fold ys acc y :
  default 0 (Dict.get y (fold_left tally ys acc))
  = default 0 (Dict.get y acc) + Spec.count y ys.
Proof.
  revert acc. induction ys as [|x ys IH]; intros acc; cbn [fold_left].
  - unfold Spec.count. cbn. lia.
  - rewrite IH, count_cons, get_set.
    destruct (decide (x = y)) as [->|Hne]; cbn; lia.
Qed.

Lemma tally_keys_fold ys acc :
  (fold_left tally ys acc).*1 = acc.*1 ++ Spec.first_seen acc.*1 ys.
Proof.
  revert acc. induction ys as [|x ys IH]; intros acc; cbn [fold_left Spec.first_seen].
  - now rewrite app_nil_r.
  - rewrite IH, keys_set. destruct (decide (x ∈ acc.*1)) as [Hin|Hin].
    + apply mem_true in Hin. now rewrite Hin.
    + apply mem_false in Hin. rewrite Hin. now rewrite <- app_assoc.
Qed.

Lemma tally_NoDup ys acc : NoDup acc.*1 -> NoDup (fold_left tally ys acc).*1.
Proof.
  revert acc. induction ys as [|x ys IH]; intros acc Hnd; cbn [fold_left].
  - assumption.
  - apply IH. now apply NoDup_keys_set.
Qed.

Lemma fold_add_shift xs a : fold_left Z.add xs a = a + fold_left Z.add xs 0.
Proof.
  revert a. induction xs as [|x xs IH]; intros a; cbn [fold_left]; [lia|].
  rewrite (IH (a + x)), (IH (0 + x)). lia.
Qed.

Lemma py_sum_cons x xs :
  TemporalAnalysis.py_sum (x :: xs) = x + TemporalAnalysis.py_sum xs.
Proof.
  unfold TemporalAnalysis.py_sum. cbn [fold_left].
  rewrite fold_add_shift. lia.
Qed.

Lemma py_sum_set k v (d : list (Z * Z)) :
  TemporalAnalysis.py_sum (Dict.set k v d).*2
  = TemporalAnalysis.py_sum d.*2 - default 0 (Dict.get k d) + v.
Proof.
  induction d as [|[k' v'] d IH].
  - unfold TemporalAnalysis.py_sum. cbn. lia.
  - cbn [Dict.set Dict.get].
    destruct (decide (k = k')) as [->|Hne];
      rewrite !fmap_cons, !py_sum_cons; cbn [snd default from_option id].
    + lia.
    + rewrite IH. lia.
Qed.

Lemma tally_sum_fold ys acc :
  TemporalAnalysis.py_sum (fold_left tally ys acc).*2
  = TemporalAnalysis.py_sum acc.*2 + Z.of_nat (length ys).
Proof.
  revert acc. induction ys as [|x ys IH]; intros acc; cbn [fold_left length].
  - lia.
  - rewrite IH, py_sum_set. lia.
Qed.

(** The counter of a list of years: its keys, its entries and the
    sum of its values. *)
Lemma counter_keys ys :
  Dict.keys (TemporalAnalysis.counter ys) = Spec.first_seen [] ys.
Proof. unfold TemporalAnalysis.counter, Dict.keys. now rewrite tally_keys_fold. Qed.

Lemma counter_NoDup ys : NoDup (TemporalAnalysis.counter ys).*1.
Proof. apply tally_NoDup. constructor. Qed.

Lemma counter_elem ys y c :
  (y, c) ∈ TemporalAnalysis.counter ys -> c = Spec.count y ys.
Proof.
  intros Hin. apply elem_get in Hin; [|apply counter_NoDup].
  pose proof (tally_get_fold ys [] y) as Hg.
  unfold TemporalAnalysis.counter in Hin. rewrite Hin in Hg. cbn in Hg. lia.
Qed.

Lemma counter_sum ys :
  TemporalAnalysis.py_sum (Dict.values (TemporalAnalysis.counter ys))
  = Z.of_nat (length ys).
Proof.
  unfold TemporalAnalysis.counter, Dict.values. rewrite tally_sum_fold.
  reflexivity.
Qed.

Lemma elem_first_seen seen ys y :
  y ∈ Spec.first_seen seen ys <-> y ∈ ys /\ y ∉ seen.
Proof.
  revert seen. induction ys as [|x ys IH]; intros seen; cbn.
  - rewrite elem_of_nil. tauto.
  - destruct (decide (x ∈ seen)) as [Hin|Hin].
    + rewrite IH, elem_of_cons. split; [tauto|].
      intros [[->|?] ?]; tauto.
    + rewrite !elem_of_cons, IH, elem_of_app, list_elem_of_singleton. split.
      * intros [->|[? ?]]; [tauto|]. split; [tauto|]. intros ?. tauto.
      * intros [[->|?] ?]; [tauto|].
        destruct (decide (y = x)); [tauto|]. right. split; [assumption|].
        intros [?|?]; tauto.
Qed.

Lemma counter_keys_elem ys y : y ∈ Dict.keys (TemporalAnalysis.counter ys) <-> y ∈ ys.
Proof.
  rewrite counter_keys, elem_first_seen. split; [tauto|].
  intros ?. split; [assumption|apply not_elem_of_nil].
Qed.

(** Where a year stands in the order of first occurrence, it stands
    in the list after the years that come before it there. *)
Lemma first_seen_split ys :
  forall seen kpre p kpost,
    Spec.first_seen seen ys = kpre ++ p :: kpost ->
    exists pre post,
      ys = pre ++ p :: post /\ (p ∉ pre) /\ (p ∉ seen)
      /\ forall z, z ∈ pre -> z ∈ seen \/ z ∈ kpre.
Proof.
  induction ys as [|y ys IH]; intros seen kpre p kpost Hfs; cbn in Hfs.
  - now destruct kpre.
  - destruct (decide (y ∈ seen)) as [Hin|Hin].
    + destruct (IH _ _ _ _ Hfs) as (pre & post & -> & Hp & Hs & Hz).
      exists (y :: pre), post. split_and!; [reflexivity| |assumption|].
      * apply not_elem_of_cons. split; [congruence|assumption].
      * intros z [->|Hz']%elem_of_cons; auto.
    + destruct kpre as [|k kpre]; cbn in Hfs.
      * injection Hfs as -> _. exists [], ys.
        split_and!; [reflexivity|apply not_elem_of_nil|assumption|].
        intros z Hz. now apply elem_of_nil in Hz.
      * injection Hfs as <- Hfs.
        destruct (IH _ _ _ _ Hfs) as (pre & post & -> & Hp & Hs & Hz).
        apply not_elem_of_app in Hs as [Hs Hpy].
        rewrite list_elem_of_singleton in Hpy.
        exists (y :: pre), post. split_and!; [reflexivity| |assumption|].
        -- apply not_elem_of_cons. split; assumption.
        -- intros z [->|Hz']%elem_of_cons; [right; apply list_elem_of_here|].
           destruct (Hz z Hz') as [[?| ->%list_elem_of_singleton]%elem_of_app|?].
           ++ now left.
           ++ right. apply list_elem_of_here.
           ++ right. now apply list_elem_of_further.
Qed.

End CounterFacts.

Section StatsFacts.
Context {rt : Runtime}.

Lemma min_fold xs x :
  let m := fold_left (fun m y => if y <? m then y else m) xs x in
  m ∈ x :: xs /\ forall y, y ∈ x :: xs -> m <= y.
Proof.
  revert x. induction xs as [|a xs IH]; intros x; cbn [fold_left].
  - split; [apply list_elem_of_here|].
    intros y ->%list_elem_of_singleton. lia.
  - destruct (IH (if a <? x then a else x)) as [Hin Hle]. split.
    + apply elem_of_cons in Hin as [->|Hin].
      * destruct (a <? x); [apply list_elem_of_further|]; apply list_elem_of_here.
      * now do 2 apply list_elem_of_further.
    + intros y Hy.
      assert (Hx : fold_left (fun m y => if y <? m then y else m) xs
                     (if a <? x then a else x) <= (if a <? x then a else x))
        by apply Hle, list_elem_of_here.
      apply elem_of_cons in Hy as [->|[->|Hy]%elem_of_cons].
      * destruct (Z.ltb_spec a x); lia.
      * destruct (Z.ltb_spec a x); lia.
      * now apply Hle, list_elem_of_further.
Qed.

Lemma py_min_spec xs :
  xs <> [] ->
  exists m, TemporalAnalysis.py_min xs = Ok m
            /\ m ∈ xs /\ forall y, y ∈ xs -> m <= y.
Proof.
  destruct xs as [|x xs]; [congruence|]. intros _.
  eexists. split; [reflexivity|]. apply min_fold.
Qed.

Lemma max_fold {A} (key : A -> Z) xs :
  forall pre m0 mid,
    (forall y, y ∈ pre -> key y < key m0) ->
    (forall y, y ∈ mid -> key y <= key m0) ->
    let m := fold_left (fun m y => if key m <? key y then y else m) xs m0 in
    exists pre' post',
      pre ++ m0 :: mid ++ xs = pre' ++ m :: post'
      /\ (forall y, y ∈ pre' -> key y < key m)
      /\ (forall y, y ∈ post' -> key y <= key m).
Proof.
  induction xs as [|x xs IH]; intros pre m0 mid Hpre Hmid; cbn [fold_left].
  - exists pre, mid. now rewrite app_nil_r.
  - destruct (Z.ltb_spec (key m0) (key x)) as [Hlt|Hge].
    + destruct (IH (pre ++ m0 :: mid) x []) as (pre' & post' & Heq & Hp & Hq).
      * intros y [Hy|[->|Hy]%elem_of_cons]%elem_of_app.
        -- specialize (Hpre y Hy). lia.
        -- assumption.
        -- specialize (Hmid y Hy). lia.
      * intros y Hy. now apply elem_of_nil in Hy.
      * exists pre', post'. split; [|auto].
        rewrite <- Heq. cbn. now rewrite <- app_assoc.
    + destruct (IH pre m0 (mid ++ [x])) as (pre' & post' & Heq & Hp & Hq).
      * assumption.
      * intros y [Hy| ->%list_elem_of_singleton]%elem_of_app; auto.
      * exists pre', post'. split; [|auto].
        rewrite <- Heq. now rewrite <- app_assoc.
Qed.

Lemma py_max_by_spec {A} (key : A -> Z) xs :
  xs <> [] ->
  exists m pre post,
    TemporalAnalysis.py_max_by key xs = Ok m
    /\ xs = pre ++ m :: post
    /\ (forall y, y ∈ pre -> key y < key m)
    /\ (forall y, y ∈ post -> key y <= key m).
Proof.
  destruct xs as [|x xs]; [congruence|]. intros _.
  destruct (max_fold key xs [] x []) as (pre & post & Heq & Hp & Hq).
  - intros y Hy. now apply elem_of_nil in Hy.
  - intros y Hy. now apply elem_of_nil in Hy.
  - eexists _, pre, post. split; [reflexivity|]. auto.
Qed.

Lemma counter_values ys :
  Dict.values (TemporalAnalysis.counter ys)
  = (fun y => Spec.count y ys) <$> Dict.keys (TemporalAnalysis.counter ys).
Proof.
  pose proof (counter_elem ys) as Hall. unfold Dict.values, Dict.keys.
  induction (TemporalAnalysis.counter ys) as [|[k c] cnt IH]; [reflexivity|].
  cbn. f_equal.
  - apply Hall, list_elem_of_here.
  - apply IH. intros y c' Hin. now apply Hall, list_elem_of_further.
Qed.

(** The statistics of an edge in terms of its list of years. *)
Lemma edge_stats_spec g d ys :
  ys <> [] ->
  exists row,
    TemporalAnalysis.edge_stats g d ys = Ok row
    /\ TemporalAnalysis.gene row = g
    /\ TemporalAnalysis.disease row = d
    /\ (TemporalAnalysis.first_mention row ∈ ys
       /\ forall y, y ∈ ys -> TemporalAnalysis.first_mention row <= y)
    /\ (TemporalAnalysis.peak_year row ∈ ys
       /\ TemporalAnalysis.peak_count row
          = Spec.count (TemporalAnalysis.peak_year row) ys
       /\ forall y, Spec.count y ys <= TemporalAnalysis.peak_count row)
    /\ (exists pre post,
          ys = pre ++ TemporalAnalysis.peak_year row :: post
          /\ (TemporalAnalysis.peak_year row ∉ pre)
          /\ forall y, y ∈ pre ->
               Spec.count y ys < TemporalAnalysis.peak_count row)
    /\ (TemporalAnalysis.total_mentions row = Z.of_nat (length ys)
       /\ TemporalAnalysis.total_mentions row
          = TemporalAnalysis.py_sum
              ((fun y => Spec.count y ys) <$> Spec.first_seen [] ys))
    /\ TemporalAnalysis.time_to_peak row
       = TemporalAnalysis.peak_year row - TemporalAnalysis.first_mention row
    /\ TemporalAnalysis.burstiness row
       = (inject_Z (TemporalAnalysis.peak_count row)
          / inject_Z (TemporalAnalysis.total_mentions row))%Q.
Proof.
  intros Hne. unfold TemporalAnalysis.edge_stats.
  set (cnt := TemporalAnalysis.counter ys).
  assert (Hkeys : forall y, y ∈ Dict.keys cnt <-> y ∈ ys) by apply counter_keys_elem.
  assert (Hknil : Dict.keys cnt <> []).
  { destruct ys as [|y ys]; [congruence|].
    intros E. pose proof (proj2 (Hkeys y) (list_elem_of_here _ _)) as Hy.
    rewrite E in Hy. now apply elem_of_nil in Hy. }
  assert (Hcnil : cnt <> []) by (intros E; now rewrite E in Hknil).
  destruct (py_min_spec (Dict.keys cnt) Hknil) as (first & -> & Hfin & Hfle).
  destruct (py_max_by_spec snd cnt Hcnil)
    as ([peak c] & ipre & ipost & -> & Hsplit & Hipre & Hipost).
  cbn [mbind result_bind].
  assert (Hpk : (peak, c) ∈ cnt).
  { rewrite Hsplit. apply elem_of_app. right. apply list_elem_of_here. }
  pose proof (counter_elem ys peak c Hpk) as Hc.
  assert (Hpin : peak ∈ ys).
  { apply Hkeys. apply list_elem_of_fmap. now exists (peak, c). }
  assert (Hentry : forall y, y ∈ ys -> (y, Spec.count y ys) ∈ cnt).
  { intros y Hy. apply Hkeys in Hy.
    apply list_elem_of_fmap in Hy as ([y' c'] & -> & Hin).
    cbn. now rewrite <- (counter_elem ys y' c' Hin). }
  assert (Htotal : TemporalAnalysis.py_sum (Dict.values cnt) = Z.of_nat (length ys))
    by apply counter_sum.
  assert (Hpos : (TemporalAnalysis.py_sum (Dict.values cnt) =? 0) = false).
  { apply Z.eqb_neq. rewrite Htotal. destruct ys; [congruence|]. cbn. lia. }
  eexists. split; [reflexivity|]. cbn. rewrite Hpos.
  split_and!; try reflexivity; try assumption.
  - now apply Hkeys.
  - intros y Hy. now apply Hfle, Hkeys.
  - intros y. destruct (decide (y ∈ ys)) as [Hy|Hy].
    + apply Hentry in Hy. rewrite Hsplit in Hy.
      apply elem_of_app in Hy as [Hy|[Hy|Hy]%elem_of_cons].
      * specialize (Hipre _ Hy). cbn in Hipre. lia.
      * injection Hy as _ ->. lia.
      * specialize (Hipost _ Hy). cbn in Hipost. lia.
    + assert (Hz : ~ 0 < Spec.count y ys)
        by (intros Hz; now apply count_pos in Hz).
      pose proof (proj1 (count_pos peak ys) Hpin). lia.
  - pose proof (counter_keys ys) as Hfs. fold cnt in Hfs.
    unfold Dict.keys in Hfs. rewrite Hsplit, fmap_app, fmap_cons in Hfs.
    symmetry in Hfs.
    destruct (first_seen_split ys [] _ _ _ Hfs) as (pre & post & Hys & Hnot & _ & Hz).
    exists pre, post. split_and!; [assumption..|].
    intros y Hy. destruct (Hz y Hy) as [Hn|Hk]; [now apply elem_of_nil in Hn|].
    apply list_elem_of_fmap in Hk as ([y' c'] & -> & Hin).
    specialize (Hipre _ Hin). cbn in Hipre. cbn.
    rewrite <- (counter_elem ys y' c'); [lia|].
    fold cnt. rewrite Hsplit. apply elem_of_app. now left.
  - rewrite Htotal. rewrite <- counter_keys. fold cnt.
    rewrite <- counter_values. fold cnt. now rewrite Htotal.
Qed.

End StatsFacts.

Section LoopFacts.
Context {rt : Runtime}.

(** The loop of the analyzer returns exactly when each edge can be
    handled, and then with the rows and the count of [rows_of]. *)
Lemma analyze_loop_rows G es :
  forall recs sk recs' sk',
    TemporalAnalysis.analyze_loop G (recs, sk) es = Ok (recs', sk') ->
    exists rows k,
      Spec.rows_of G es rows k /\ recs' = recs ++ rows /\ sk' = sk + k.
Proof.
  induction es as [|[[u v] attrs] es IH]; intros recs sk recs' sk' Hrun.
  - injection Hrun as <- <-. exists [], 0.
    split_and!; [constructor|now rewrite app_nil_r|lia].
  - cbn [TemporalAnalysis.analyze_loop TemporalAnalysis.analyze_step] in Hrun.
    destruct (TemporalAnalysis.orient G u v) as [[[g d]|]|e] eqn:Eo;
      cbn [mbind result_bind] in Hrun; [| |discriminate].
    + destruct (TemporalAnalysis.parse_years (Nx.years attrs)) as [ys|e] eqn:Ep;
        cbn [mbind result_bind] in Hrun; [|discriminate].
      destruct ys as [|y ys].
      * apply IH in Hrun as (rows & k & Hrows & -> & ->).
        exists rows, k. split_and!; [|reflexivity..].
        now apply (Spec.rows_no_year G u v attrs es rows k g d).
      * destruct (TemporalAnalysis.edge_stats g d (y :: ys)) as [row|e] eqn:Es;
          cbn [mbind result_bind] in Hrun; [|discriminate].
        apply IH in Hrun as (rows & k & Hrows & -> & ->).
        exists (row :: rows), k. split_and!; [|now rewrite <- app_assoc|reflexivity].
        now apply (Spec.rows_row G u v attrs es rows k g d (y :: ys) row).
    + apply IH in Hrun as (rows & k & Hrows & -> & ->).
      exists rows, (1 + k). split_and!; [|reflexivity|lia].
      now apply Spec.rows_bad_types.
Qed.

Lemma rows_of_analyze_loop G es rows k :
  Spec.rows_of G es rows k ->
  forall recs sk,
    TemporalAnalysis.analyze_loop G (recs, sk) es = Ok (recs ++ rows, sk + k).
Proof.
  induction 1 as [|u v attrs es rows k Ho _ IH
                  |u v attrs es rows k g d Ho Hp _ IH
                  |u v attrs es rows k g d ys row Ho Hp Hne Hs _ IH];
    intros recs sk;
    cbn [TemporalAnalysis.analyze_loop TemporalAnalysis.analyze_step].
  - now rewrite app_nil_r, Z.add_0_r.
  - rewrite Ho. cbn [mbind result_bind]. rewrite IH. do 2 f_equal. lia.
  - rewrite Ho. cbn [mbind result_bind]. rewrite Hp. cbn [mbind result_bind].
    apply IH.
  - rewrite Ho. cbn [mbind result_bind]. rewrite Hp. cbn [mbind result_bind].
    destruct ys as [|y ys]; [congruence|].
    rewrite Hs. cbn [mbind result_bind]. rewrite IH. now rewrite <- app_assoc.
Qed.

Lemma rows_of_functional G es rows k rows' k' :
  Spec.rows_of G es rows k -> Spec.rows_of G es rows' k' ->
  rows = rows' /\ k = k'.
Proof.
  intros H1 H2.
  pose proof (rows_of_analyze_loop G es rows k H1 [] 0) as E1.
  pose proof (rows_of_analyze_loop G es rows' k' H2 [] 0) as E2.
  rewrite E1 in E2. injection E2 as Er Ek. cbn [app] in Er. split; [assumption|lia].
Qed.

(** An edge with dated mentions has its row in the report. *)
Lemma rows_of_elem G es rows k u v attrs g d ys :
  Spec.rows_of G es rows k ->
  (u, v, attrs) ∈ es ->
  TemporalAnalysis.orient G u v = Ok (Some (g, d)) ->
  TemporalAnalysis.parse_years (Nx.years attrs) = Ok ys ->
  ys <> [] ->
  exists row, TemporalAnalysis.edge_stats g d ys = Ok row /\ row ∈ rows.
Proof.
  intros Hrows Hin Ho Hp Hne.
  induction Hrows as [|u' v' attrs' es rows k Ho' _ IH
                      |u' v' attrs' es rows k g' d' Ho' Hp' _ IH
                      |u' v' attrs' es rows k g' d' ys' row Ho' Hp' Hne' Hs _ IH].
  - now apply elem_of_nil in Hin.
  - apply elem_of_cons in Hin as [[= <- <- <-]|Hin]; [congruence|auto].
  - apply elem_of_cons in Hin as [[= <- <- <-]|Hin]; [congruence|auto].
  - apply elem_of_cons in Hin as [[= <- <- <-]|Hin].
    + rewrite Ho in Ho'. injection Ho' as <- <-.
      rewrite Hp in Hp'. injection Hp' as <-.
      exists row. split; [assumption|apply list_elem_of_here].
    + destruct (IH Hin) as (row' & Hs' & Hin'). exists row'.
      split; [assumption|now apply list_elem_of_further].
Qed.

(** Every row of the report is the row of an edge. *)
Lemma rows_of_origin G es rows k row :
  Spec.rows_of G es rows k -> row ∈ rows ->
  exists u v attrs g d ys,
    (u, v, attrs) ∈ es
    /\ TemporalAnalysis.orient G u v = Ok (Some (g, d))
    /\ TemporalAnalysis.parse_years (Nx.years attrs) = Ok ys
    /\ ys <> []
    /\ TemporalAnalysis.edge_stats g d ys = Ok row.
Proof.
  intros Hrows Hin.
  induction Hrows as [|u' v' attrs' es rows k Ho' _ IH
                      |u' v' attrs' es rows k g' d' Ho' Hp' _ IH
                      |u' v' attrs' es rows k g' d' ys' row' Ho' Hp' Hne' Hs _ IH].
  - now apply elem_of_nil in Hin.
  - destruct (IH Hin) as (u & v & a & g & d & ys & Hin' & ?).
    exists u, v, a, g, d, ys. split; [now apply list_elem_of_further|assumption].
  - destruct (IH Hin) as (u & v & a & g & d & ys & Hin' & ?).
    exists u, v, a, g, d, ys. split; [now apply list_elem_of_further|assumption].
  - apply elem_of_cons in Hin as [->|Hin].
    + exists u', v', attrs', g', d', ys'.
      split_and!; [apply list_elem_of_here|assumption..].
    + destruct (IH Hin) as (u & v & a & g & d & ys & Hin' & ?).
      exists u, v, a, g, d, ys. split; [now apply list_elem_of_further|assumption].
Qed.

Context {sv : TemporalAnalysis.SortValues}.

Lemma analyze_Ok G out :
  TemporalAnalysis.analyze_temporal_edges G = Ok out <->
  exists rows k,
    Spec.rows_of G (Nx.edges G) rows k /\ rows <> []
    /\ out = TemporalAnalysis.sort_values_desc rows.
Proof.
  unfold TemporalAnalysis.analyze_temporal_edges. split.
  - destruct (TemporalAnalysis.analyze_loop G ([], 0) (Nx.edges G))
      as [[recs sk]|e] eqn:E; cbn [mbind result_bind]; [|discriminate].
    apply analyze_loop_rows in E as (rows & k & Hrows & Er & Ek).
    cbn [app] in Er. subst recs. destruct rows as [|r rows]; [discriminate|].
    intros [= <-]. exists (r :: rows), k. auto.
  - intros (rows & k & Hrows & Hne & ->).
    rewrite (rows_of_analyze_loop G _ rows k Hrows). cbn [mbind result_bind app].
    now destruct rows.
Qed.

End LoopFacts.

Section IterationOrder.
Context {rt : Runtime}.

Lemma filter_unique {A} `{EqDecision A} (P : A -> Prop)
    `{forall x, Decision (P x)} (a : A) (l : list A) :
  NoDup l -> (forall x, x ∈ l -> P x -> x = a) ->
  filter P l = if decide (a ∈ l /\ P a) then [a] else [].
Proof.
  induction l as [|x l IH]; intros Hnd Hall.
  - rewrite decide_False; [reflexivity|].
    intros [Hin _]. now apply elem_of_nil in Hin.
  - apply NoDup_cons in Hnd as [Hx Hnd].
    destruct (decide (P x)) as [HP|HP].
    + rewrite filter_cons_True by assumption.
      pose proof (Hall x (list_elem_of_here _ _) HP) as ->.
      rewrite (filter_none P l).
      * rewrite decide_True; [reflexivity|]. split; [apply list_elem_of_here|assumption].
      * intros y Hy HPy.
        rewrite (Hall y (list_elem_of_further _ _ _ Hy) HPy) in Hy. contradiction.
    + rewrite filter_cons_False by assumption.
      rewrite IH by (try assumption; intros y Hy; apply Hall;
                     now apply list_elem_of_further).
      destruct (decide (a ∈ l /\ P a)) as [[Hin HPa]|Hn].
      * rewrite decide_True; [reflexivity|].
        split; [now apply list_elem_of_further|assumption].
      * rewrite decide_False; [reflexivity|].
        intros [[->|Hin]%elem_of_cons HPa]; tauto.
Qed.

(** The pairs of one document that mention a given gene with a given
    disease: one pair or none, whatever the order of the loops. *)
Lemma evidence_doc_pairs {si : SetIter} ym p t g d :
  Spec.evidence g d (Ner.doc_pairs ym p t)
  = if decide (g ∈ Ner.gene_set t /\ d ∈ Ner.disease_set t)
    then [(p, g, d, default (lit "") (Dict.get p ym))] else [].
Proof.
  unfold Spec.evidence.
  rewrite (filter_unique _ (p, g, d, default (lit "") (Dict.get p ym)));
    [|apply NoDup_doc_pairs|].
  - destruct (decide (g ∈ Ner.gene_set t /\ d ∈ Ner.disease_set t)) as [[Hg Hd]|Hn].
    + rewrite decide_True; [reflexivity|]. split; [|auto].
      apply elem_doc_pairs. eauto.
    + rewrite decide_False; [reflexivity|].
      intros [(g' & d' & [= <- <-] & Hg & Hd)%elem_doc_pairs _]. tauto.
  - intros q (g' & d' & -> & _)%elem_doc_pairs [Hg Hd].
    cbn in Hg, Hd. now subst.
Qed.

Lemma evidence_bind {A} g d (f : A -> list Ner.pair) (l : list A) :
  Spec.evidence g d (l ≫= f) = l ≫= (fun x => Spec.evidence g d (f x)).
Proof.
  induction l as [|x l IH]; [reflexivity|].
  cbn. unfold Spec.evidence at 1. rewrite filter_app.
  fold (Spec.evidence g d (f x)). fold (Spec.evidence g d (l ≫= f)).
  now rewrite IH.
Qed.

(** The pairs that support an edge, and so its lists of pmids and
    years, do not depend on the order in which the sets of a document
    are visited. *)
Lemma evidence_any_order (si1 si2 : SetIter) records ann g d :
  Spec.evidence g d (Ner.extract_gene_disease_pairs (si := si1) records ann)
  = Spec.evidence g d (Ner.extract_gene_disease_pairs (si := si2) records ann).
Proof.
  rewrite !extract_bind, !evidence_bind.
  induction ann as [|[p t] ann IH]; [reflexivity|].
  cbn. rewrite IH. f_equal.
  etransitivity; [apply (evidence_doc_pairs (si := si1))|].
  symmetry. apply (evidence_doc_pairs (si := si2)).
Qed.

End IterationOrder.

(** The analyzer on a graph without edges: no record, so the frame
    has no column to sort by. *)
Lemma analyze_empty_graph {rt : Runtime} {sv : TemporalAnalysis.SortValues} :
  TemporalAnalysis.analyze_temporal_edges Nx.empty = Raise KeyError.
Proof. reflexivity. Qed.

Section AnalysisClaims.
Context {rt : Runtime}.

Lemma sort_singleton {sv : TemporalAnalysis.SortValues} (r : TemporalAnalysis.Row) :
  TemporalAnalysis.sort_values_desc [r] = [r].
Proof. apply Permutation_singleton_r, TemporalAnalysis.sort_values_perm. Qed.

(** C2: for an edge whose list of numeric years is not empty the
    analyzer computes a row with first_mention the least year,
    peak_year a year of greatest count and peak_count that count,
    total_mentions the sum of the yearly counts (the number of
    numeric years), time_to_peak = peak_year - first_mention and
    burstiness = peak_count / total_mentions; when the analyzer
    returns, this row is in the report, and it returns whenever the
    loop over the edges yields a row; the edge with years 2000, 2000,
    2001 gives first_mention 2000, peak_year 2000, peak_count 2,
    total_mentions 3, time_to_peak 0 and burstiness 2/3. *)
Theorem temporal_statistics {sv : TemporalAnalysis.SortValues} :
  (forall g d ys, ys <> [] ->
     exists row,
       TemporalAnalysis.edge_stats g d ys = Ok row
       /\ TemporalAnalysis.gene row = g
       /\ TemporalAnalysis.disease row = d
       /\ (TemporalAnalysis.first_mention row ∈ ys
          /\ forall y, y ∈ ys -> TemporalAnalysis.first_mention row <= y)
       /\ (TemporalAnalysis.peak_year row ∈ ys
          /\ TemporalAnalysis.peak_count row
             = Spec.count (TemporalAnalysis.peak_year row) ys
          /\ forall y, Spec.count y ys <= TemporalAnalysis.peak_count row)
       /\ (TemporalAnalysis.total_mentions row = Z.of_nat (length ys)
          /\ TemporalAnalysis.total_mentions row
             = TemporalAnalysis.py_sum
                 ((fun y => Spec.count y ys) <$> Spec.first_seen [] ys))
       /\ TemporalAnalysis.time_to_peak row
          = TemporalAnalysis.peak_year row - TemporalAnalysis.first_mention row
       /\ TemporalAnalysis.burstiness row
          = (inject_Z (TemporalAnalysis.peak_count row)
             / inject_Z (TemporalAnalysis.total_mentions row))%Q)
  /\ (forall G out u v attrs g d ys,
       TemporalAnalysis.analyze_temporal_edges G = Ok out ->
       (u, v, attrs) ∈ Nx.edges G ->
       TemporalAnalysis.orient G u v = Ok (Some (g, d)) ->
       TemporalAnalysis.parse_years (Nx.years attrs) = Ok ys ->
       ys <> [] ->
       exists row, TemporalAnalysis.edge_stats g d ys = Ok row /\ row ∈ out)
  /\ (forall G rows k,
       Spec.rows_of G (Nx.edges G) rows k -> rows <> [] ->
       exists out, TemporalAnalysis.analyze_temporal_edges G = Ok out)
  /\ TemporalAnalysis.analyze_temporal_edges
       (GraphBuilder.build_graph Sample.three_pairs)
     = Ok [ {| TemporalAnalysis.gene := lit "1";
               TemporalAnalysis.disease := lit "D000001";
               TemporalAnalysis.first_mention := 2000;
               TemporalAnalysis.peak_year := 2000;
               TemporalAnalysis.time_to_peak := 0;
               TemporalAnalysis.total_mentions := 3;
               TemporalAnalysis.peak_count := 2;
               TemporalAnalysis.burstiness := 2 # 3;
               TemporalAnalysis.annual_counts := [(2000, 2); (2001, 1)] |} ].
Proof.
  split_and!.
  - intros g d ys Hne.
    destruct (edge_stats_spec g d ys Hne)
      as (row & Hs & Hg & Hd & Hfirst & Hpeak & _ & Htotal & Htime & Hburst).
    exists row. auto 10.
  - intros G out u v attrs g d ys Hout Hin Ho Hp Hne.
    apply analyze_Ok in Hout as (rows & k & Hrows & _ & ->).
    destruct (rows_of_elem G _ rows k u v attrs g d ys Hrows Hin Ho Hp Hne)
      as (row & Hs & Hrow).
    exists row. split; [assumption|].
    now rewrite (TemporalAnalysis.sort_values_perm rows).
  - intros G rows k Hrows Hne. eexists. apply analyze_Ok. eauto.
  - unfold TemporalAnalysis.analyze_temporal_edges.
    match goal with
    | |- context [TemporalAnalysis.analyze_loop ?G ?st ?es] =>
        let r := eval vm_compute in (TemporalAnalysis.analyze_loop G st es) in
        replace (TemporalAnalysis.analyze_loop G st es) with r
          by (vm_compute; reflexivity)
    end.
    cbn [mbind result_bind]. now rewrite sort_singleton.
Qed.

(** C8: the peak year of an edge is a function of its list of years
    alone; two runs of the analyzer on one graph, even with sorts
    that order ties differently, return the same rows up to their
    order; two builds from the same records and annotations, even
    with sets visited in different orders, give every edge the same
    lists; the peak is the year of greatest count that occurs first
    in the list, which for 2000, 2001 is 2000. *)
Theorem peak_year_is_deterministic :
  (forall g1 d1 g2 d2 ys r1 r2,
     TemporalAnalysis.edge_stats g1 d1 ys = Ok r1 ->
     TemporalAnalysis.edge_stats g2 d2 ys = Ok r2 ->
     TemporalAnalysis.peak_year r1 = TemporalAnalysis.peak_year r2)
  /\ (forall (sv1 sv2 : TemporalAnalysis.SortValues) G out1 out2,
       TemporalAnalysis.analyze_temporal_edges (sv := sv1) G = Ok out1 ->
       TemporalAnalysis.analyze_temporal_edges (sv := sv2) G = Ok out2 ->
       out1 ≡ₚ out2)
  /\ (forall (si1 si2 : SetIter) records ann g d,
       GraphBuilder.is_valid_gene_id g = true ->
       GraphBuilder.is_valid_disease_id d = true ->
       Nx.edge_attrs (GraphBuilder.build_temporal_graph (si := si1) records ann) g d
       = Nx.edge_attrs (GraphBuilder.build_temporal_graph (si := si2) records ann) g d)
  /\ (forall g d ys row,
       TemporalAnalysis.edge_stats g d ys = Ok row ->
       exists pre post,
         ys = pre ++ TemporalAnalysis.peak_year row :: post
         /\ (TemporalAnalysis.peak_year row ∉ pre)
         /\ (forall y, y ∈ pre ->
               Spec.count y ys < Spec.count (TemporalAnalysis.peak_year row) ys)
         /\ forall y, Spec.count y ys
                      <= Spec.count (TemporalAnalysis.peak_year row) ys)
  /\ (forall g d,
       TemporalAnalysis.parse_years [lit "2000"; lit "2001"] = Ok [2000; 2001]
       /\ exists row,
           TemporalAnalysis.edge_stats g d [2000; 2001] = Ok row
           /\ TemporalAnalysis.peak_year row = 2000).
Proof.
  split_and!.
  - intros g1 d1 g2 d2 ys r1 r2. unfold TemporalAnalysis.edge_stats.
    destruct (TemporalAnalysis.py_min _) as [first|e];
      cbn [mbind result_bind]; [|discriminate].
    destruct (TemporalAnalysis.py_max_by _ _) as [[peak c]|e];
      cbn [mbind result_bind]; [|discriminate].
    now intros [= <-] [= <-].
  - intros sv1 sv2 G out1 out2 H1 H2.
    apply (analyze_Ok (sv := sv1)) in H1 as (rows1 & k1 & Hr1 & _ & ->).
    apply (analyze_Ok (sv := sv2)) in H2 as (rows2 & k2 & Hr2 & _ & ->).
    destruct (rows_of_functional G _ rows1 k1 rows2 k2 Hr1 Hr2) as [-> _].
    now rewrite !TemporalAnalysis.sort_values_perm.
  - intros si1 si2 records ann g d Hg Hd.
    unfold GraphBuilder.build_temporal_graph.
    rewrite !build_graph_edge_attrs by assumption.
    now rewrite (evidence_any_order si1 si2).
  - intros g d ys row Hs.
    assert (Hne : ys <> []).
    { intros ->. discriminate Hs. }
    destruct (edge_stats_spec g d ys Hne)
      as (row' & Hs' & _ & _ & _ & (_ & Hc & Hmax)
          & (pre & post & Hys & Hnot & Hpre) & _).
    rewrite Hs in Hs'. injection Hs' as <-.
    exists pre, post. rewrite <- Hc. auto.
  - intros g d. split; [reflexivity|]. eexists. split; reflexivity.
Qed.

End AnalysisClaims.

Section TypeClaims.
Context {rt : Runtime}.

Local Abbreviation vg := GraphBuilder.is_valid_gene_id.
Local Abbreviation vd := GraphBuilder.is_valid_disease_id.

Lemma built_node_type pairs G u v r :
  Spec.built pairs G -> Nx.edge_ref G u v = Some r ->
  Nx.node_type G u
  = Ok (Some (if vg u then lit "gene" else lit "disease")).
Proof.
  intros HB Hr. unfold Nx.node_type.
  assert (Hk : u ∈ (Nx.node G).*1).
  { rewrite (Spec.built_keys _ _ HB). now apply aref_Some_key in Hr. }
  destruct (Dict.get u (Nx.node G)) as [ty|] eqn:E.
  - destruct (Spec.built_type _ _ HB u ty E) as [[-> Hu]|[-> Hu]].
    + now rewrite Hu.
    + destruct (vg u) eqn:Hg; [|reflexivity].
      apply valid_ids_disjoint in Hg. congruence.
  - apply get_None in E. contradiction.
Qed.

(** On a graph made by the builder every edge has one gene end and
    one disease end, and the analyzer finds them. *)
Lemma orient_built pairs G u v r :
  Spec.built pairs G -> Nx.edge_ref G u v = Some r ->
  exists g d,
    TemporalAnalysis.orient G u v = Ok (Some (g, d))
    /\ vg g = true /\ vd d = true.
Proof.
  intros HB Hr. unfold TemporalAnalysis.orient.
  rewrite (built_node_type pairs G u v r HB Hr).
  rewrite (built_node_type pairs G v u r HB (Spec.built_sym _ _ HB u v r Hr)).
  cbn [mbind result_bind].
  destruct (Spec.built_ends _ _ HB u v r Hr) as [[Hu Hv]|[Hu Hv]].
  - rewrite Hu.
    destruct (vg v) eqn:Hgv; [apply valid_ids_disjoint in Hgv; congruence|].
    exists u, v. split; [reflexivity|auto].
  - rewrite Hv.
    destruct (vg u) eqn:Hgu; [apply valid_ids_disjoint in Hgu; congruence|].
    exists v, u. split; [reflexivity|auto].
Qed.

Lemma rows_of_no_bad_types G es rows k :
  (forall u v attrs, (u, v, attrs) ∈ es -> TemporalAnalysis.orient G u v <> Ok None) ->
  Spec.rows_of G es rows k -> k = 0.
Proof.
  intros Hgood Hrows.
  induction Hrows as [|u v attrs es rows k Ho _ IH
                      |u v attrs es rows k g d Ho Hp _ IH
                      |u v attrs es rows k g d ys row Ho Hp Hne Hs _ IH].
  - reflexivity.
  - exfalso. apply (Hgood u v attrs); [apply list_elem_of_here|exact Ho].
  - apply IH. intros u' v' a' Hin. apply (Hgood u' v' a').
    now apply list_elem_of_further.
  - apply IH. intros u' v' a' Hin. apply (Hgood u' v' a').
    now apply list_elem_of_further.
Qed.

(** C10: no string is both a valid gene identifier and a valid
    disease identifier; in the graph built from any list of pairs a
    node has type gene exactly when its name is a valid gene
    identifier and type disease exactly when it is a valid disease
    identifier; every edge joins a gene node and a disease node, so
    the analyzer orients it and never takes the branch for bad
    endpoint types: its counter stays at 0. *)
Theorem node_types_are_determined pairs :
  let G := GraphBuilder.build_graph pairs in
  (forall s,
     ~ (GraphBuilder.is_valid_gene_id s = true
        /\ GraphBuilder.is_valid_disease_id s = true))
  /\ (forall n ty, Dict.get n (Nx.node G) = Some ty ->
       (ty = Some (lit "gene")
        /\ GraphBuilder.is_valid_gene_id n = true
        /\ GraphBuilder.is_valid_disease_id n = false)
       \/ (ty = Some (lit "disease")
           /\ GraphBuilder.is_valid_disease_id n = true
           /\ GraphBuilder.is_valid_gene_id n = false))
  /\ (forall u v attrs, (u, v, attrs) ∈ Nx.edges G ->
       exists g d,
         TemporalAnalysis.orient G u v = Ok (Some (g, d))
         /\ GraphBuilder.is_valid_gene_id g = true
         /\ GraphBuilder.is_valid_disease_id d = true)
  /\ (forall rows k, Spec.rows_of G (Nx.edges G) rows k -> k = 0)
  /\ (forall recs skipped,
       TemporalAnalysis.analyze_loop G ([], 0) (Nx.edges G) = Ok (recs, skipped) ->
       skipped = 0).
Proof.
  intros G. pose proof (built_build_graph pairs) as HB. fold G in HB.
  assert (Hedges : forall u v attrs, (u, v, attrs) ∈ Nx.edges G ->
            exists g d,
              TemporalAnalysis.orient G u v = Ok (Some (g, d))
              /\ vg g = true /\ vd d = true).
  { intros u v attrs Hin.
    apply elem_edges in Hin as (r & Hr & _);
      [|apply (Spec.built_nodup _ _ HB)|apply (Spec.built_nbrs _ _ HB)].
    now apply (orient_built pairs G u v r). }
  assert (Hzero : forall rows k, Spec.rows_of G (Nx.edges G) rows k -> k = 0).
  { intros rows k. apply rows_of_no_bad_types.
    intros u v attrs Hin. destruct (Hedges u v attrs Hin) as (g & d & -> & _).
    discriminate. }
  split_and!.
  - intros s [Hg Hd]. apply valid_ids_disjoint in Hg. congruence.
  - intros n ty Hn.
    destruct (Spec.built_type _ _ HB n ty Hn) as [[-> Hv]|[-> Hv]].
    + left. split_and!; [reflexivity|assumption|now apply valid_ids_disjoint].
    + right. split_and!; [reflexivity|assumption|].
      destruct (vg n) eqn:Hg; [|reflexivity].
      apply valid_ids_disjoint in Hg. congruence.
  - exact Hedges.
  - exact Hzero.
  - intros recs skipped (rows & k & Hrows & _ & ->)%analyze_loop_rows.
    now rewrite (Hzero rows k Hrows).
Qed.

End TypeClaims.

(** ** Retrieval and its cache (data_retrieval.py) *)

Section SearchFacts.
Import DataRetrieval.

Lemma elem_of_range a b x : x ∈ range a b <-> a <= x < b.
Proof.
  unfold range. rewrite list_elem_of_fmap. setoid_rewrite elem_of_seq. split.
  - intros (i & -> & Hi). lia.
  - intros Hx. exists (Z.to_nat (x - a)). lia.
Qed.

Lemma fmap_seq_shift (f g : nat -> Z) m :
  forall s t, (forall i, f (s + i)%nat = g (t + i)%nat) ->
              f <$> seq s m = g <$> seq t m.
Proof.
  induction m as [|m IH]; intros s t Hfg; [reflexivity|].
  cbn. f_equal.
  - specialize (Hfg 0%nat). now rewrite !Nat.add_0_r in Hfg.
  - apply IH. intros i. specialize (Hfg (S i)).
    now rewrite <- !Nat.add_succ_comm in Hfg.
Qed.

Lemma range_split a n b :
  a <= n < b -> range a b = range a n ++ n :: range (n + 1) b.
Proof.
  intros Hn. unfold range.
  replace (Z.to_nat (b - a))
    with (Z.to_nat (n - a) + S (Z.to_nat (b - (n + 1))))%nat by lia.
  rewrite seq_app, fmap_app. f_equal. cbn [seq fmap list_fmap]. f_equal; [lia|].
  apply fmap_seq_shift. intros i. lia.
Qed.

Lemma bind_outcome {A B} (m : Eff A) (k : A -> Eff B) :
  outcome (m ≫= k)
  = match outcome m with
    | Ok a => outcome (k a)
    | Raise e => Raise e
    end.
Proof. unfold mbind, eff_bind. now destruct (outcome m). Qed.

Variable get : Z -> result SearchResponse.
Variables year max_retries : Z.

(** One round of the retry loop on a rate-limited response. *)
Lemma search_attempts_429 a rest resp :
  get a = Ok resp -> status_code resp = 429 ->
  search_attempts get year max_retries (a :: rest)
  = MkEff ([Log WARNING (Search429 year a max_retries (2 ^ a));
            Sleep (inject_Z (2 ^ a))]
           ++ trace (search_attempts get year max_retries rest))
          (outcome (search_attempts get year max_retries rest)).
Proof.
  intros Hg Hs. cbn [search_attempts]. rewrite Hg.
  unfold mbind, eff_bind, lift, log, sleep, emit. cbn.
  rewrite Hs. cbn.
  now destruct (outcome (search_attempts get year max_retries rest)).
Qed.

Lemma search_attempts_exhausted l :
  (forall a, a ∈ l -> exists resp, get a = Ok resp /\ status_code resp = 429) ->
  outcome (search_attempts get year max_retries l) = Ok []
  /\ last (trace (search_attempts get year max_retries l))
     = Some (Log ERROR (SearchFailed year max_retries)).
Proof.
  induction l as [|a l IH]; intros Hall.
  - split; reflexivity.
  - destruct (Hall a) as (resp & Hg & Hs); [apply list_elem_of_here|].
    rewrite (search_attempts_429 a l resp Hg Hs). cbn [outcome trace].
    destruct IH as [IHo IHt].
    { intros a' Ha'. apply Hall. now apply list_elem_of_further. }
    split; [assumption|].
    rewrite last_app, IHt. reflexivity.
Qed.

Lemma search_attempts_http_error pre n post resp :
  (forall a, a ∈ pre -> exists r, get a = Ok r /\ status_code r = 429) ->
  get n = Ok resp ->
  status_code resp <> 429 ->
  is_http_error (status_code resp) = true ->
  outcome (search_attempts get year max_retries (pre ++ n :: post)) = Ok []
  /\ last (trace (search_attempts get year max_retries (pre ++ n :: post)))
     = Some (Log ERROR (SearchHttpError year (status_code resp))).
Proof.
  intros Hpre Hg Hs He. induction pre as [|a pre IH]; cbn [app].
  - cbn [search_attempts]. rewrite Hg.
    unfold mbind, eff_bind, lift, log, sleep, emit. cbn.
    apply Z.eqb_neq in Hs. rewrite Hs, He. split; reflexivity.
  - destruct (Hpre a) as (r & Hga & Hsa); [apply list_elem_of_here|].
    rewrite (search_attempts_429 a _ r Hga Hsa). cbn [outcome trace].
    destruct IH as [IHo IHt].
    { intros a' Ha'. apply Hpre. now apply list_elem_of_further. }
    split; [assumption|].
    rewrite last_app, IHt. reflexivity.
Qed.

(** The loop raises only what [requests.get] raised or what decoding
    the body of a successful response raised. *)
Lemma search_attempts_raise l e :
  outcome (search_attempts get year max_retries l) = Raise e ->
  exists n, n ∈ l
    /\ (get n = Raise e
        \/ exists resp, get n = Ok resp
             /\ status_code resp <> 429
             /\ is_http_error (status_code resp) = false
             /\ idlist resp = Raise e).
Proof.
  induction l as [|a l IH]; intros Hr.
  - discriminate.
  - cbn [search_attempts] in Hr. destruct (get a) as [resp|e'] eqn:Hg.
    + unfold mbind, eff_bind, lift, log, sleep, emit in Hr. cbn in Hr.
      destruct (Z.eqb_spec (status_code resp) 429) as [Hs|Hs].
      * cbn in Hr.
        destruct (outcome (search_attempts get year max_retries l)) eqn:Ho;
          cbn in Hr; [discriminate|].
        injection Hr as <-. destruct (IH eq_refl) as (n & Hn & Hcase).
        exists n. split; [now apply list_elem_of_further|assumption].
      * destruct (is_http_error (status_code resp)) eqn:He; cbn in Hr; [discriminate|].
        exists a. split; [apply list_elem_of_here|]. right. exists resp. auto.
    + unfold mbind, eff_bind, lift in Hr. cbn in Hr. injection Hr as <-.
      exists a. split; [apply list_elem_of_here|now left].
Qed.

End SearchFacts.

Section RetrievalFacts.
Import DataRetrieval.

Variable w : World.
Variable done : gset Z.

Lemma outcome_log_bind {A} l m (k : unit -> Eff A) :
  outcome (log l m ≫= k) = outcome (k ()).
Proof. reflexivity. Qed.

(** The outcome of one round, without its trace. *)
Lemma year_step_outcome data existing updated y :
  outcome (year_step w done (data, existing, updated) y)
  = let is_current := bool_decide (y = now_year w y) in
    if bool_decide (y ∈ done) && negb is_current
    then Ok (data, existing, updated)
    else
      match outcome (_search_year w y 3) with
      | Raise e => Raise e
      | Ok pmids =>
          match filter (fun p => p ∉ existing) pmids with
          | [] =>
              Ok (if is_current then (data, existing, updated)
                  else (mark_completed y data, existing, true))
          | new_pmids =>
              match outcome (_fetch_pmids w y new_pmids Config.BATCH_SIZE 3) with
              | Raise e => Raise e
              | Ok recs =>
                  Ok (if is_current then extend_records recs data
                      else mark_completed y (extend_records recs data),
                      existing ∪ list_to_set new_pmids, true)
              end
          end
      end.
Proof.
  unfold year_step. cbn zeta.
  destruct (bool_decide (y ∈ done) && negb (bool_decide (y = now_year w y)));
    [reflexivity|].
  rewrite outcome_log_bind, bind_outcome.
  destruct (outcome (_search_year w y 3)) as [[|p ids]|e]; [| |reflexivity].
  - rewrite outcome_log_bind. now destruct (bool_decide (y = now_year w y)).
  - destruct (filter (fun p0 => p0 ∉ existing) (p :: ids)) as [|q new].
    + rewrite outcome_log_bind. now destruct (bool_decide (y = now_year w y)).
    + rewrite outcome_log_bind, bind_outcome.
      destruct (outcome (_fetch_pmids _ _ _ _ _)); [|reflexivity].
      now destruct (bool_decide (y = now_year w y)).
Qed.

(** What one round does to the state, when it returns: it may add
    records, it marks the year unless it is skipped or current, and
    it sets [updated] whenever it marks. *)
Lemma year_step_Ok data existing updated y st' :
  outcome (year_step w done (data, existing, updated) y) = Ok st' ->
  exists recs existing' updated',
    st' = ({| completed_years :=
                completed_years data
                ++ (if decide ((y ∉ done) /\ y <> now_year w y) then [y] else []);
              records := records data ++ recs |}, existing', updated')
    /\ (updated = true -> updated' = true)
    /\ ((y ∉ done) /\ y <> now_year w y -> updated' = true).
Proof.
  assert (Hsame : data = {| completed_years := completed_years data ++ [];
                            records := records data ++ [] |})
    by (destruct data; cbn; now rewrite !app_nil_r).
  rewrite year_step_outcome. cbn zeta.
  destruct (decide (y = now_year w y)) as [Hc|Hc].
  - (* the current year: never marked *)
    rewrite (bool_decide_eq_true_2 _ Hc), andb_false_r.
    rewrite decide_False by tauto.
    destruct (outcome (_search_year w y 3)) as [ids|e]; [|discriminate].
    destruct (filter _ ids) as [|q new].
    + intros [= <-]. exists [], existing, updated. rewrite <- Hsame. tauto.
    + destruct (outcome (_fetch_pmids _ _ _ _ _)) as [recs|e]; [|discriminate].
      intros [= <-]. eexists recs, _, true. rewrite app_nil_r. tauto.
  - rewrite (bool_decide_eq_false_2 _ Hc). cbn [negb].
    destruct (decide (y ∈ done)) as [Hd|Hd].
    + (* a completed year: skipped *)
      rewrite (bool_decide_eq_true_2 _ Hd). cbn [andb].
      rewrite decide_False by tauto.
      intros [= <-]. exists [], existing, updated. rewrite <- Hsame. tauto.
    + (* a year to process: marked in every branch *)
      rewrite (bool_decide_eq_false_2 _ Hd). cbn [andb].
      rewrite decide_True by tauto.
      destruct (outcome (_search_year w y 3)) as [ids|e]; [|discriminate].
      destruct (filter _ ids) as [|q new].
      * intros [= <-]. exists [], existing, true.
        unfold mark_completed. rewrite app_nil_r. tauto.
      * destruct (outcome (_fetch_pmids _ _ _ _ _)) as [recs|e]; [|discriminate].
        intros [= <-]. eexists recs, _, true. tauto.
Qed.

Local Abbreviation marked years :=
  (filter (fun y => (y ∉ done) /\ y <> now_year w y) years).

Lemma year_loop_Ok years :
  forall data existing updated st',
    outcome (year_loop w done (data, existing, updated) years) = Ok st' ->
    exists recs existing' updated',
      st' = ({| completed_years := completed_years data ++ marked years;
                records := records data ++ recs |}, existing', updated')
      /\ (updated = true -> updated' = true)
      /\ (marked years <> [] -> updated' = true).
Proof.
  induction years as [|y years IH]; intros data existing updated st'.
  - cbn. intros [= <-]. exists [], existing, updated.
    rewrite !app_nil_r. destruct data. split_and!; [reflexivity|tauto|congruence].
  - cbn [year_loop]. rewrite bind_outcome.
    destruct (outcome (year_step w done (data, existing, updated) y))
      as [st1|e] eqn:E1; [|discriminate].
    apply year_step_Ok in E1 as (recs1 & ex1 & up1 & -> & Hup1 & Hmark1).
    intros (recs2 & ex2 & up2 & -> & Hup2 & Hmark2)%IH.
    exists (recs1 ++ recs2), ex2, up2. cbn [completed_years records].
    destruct (decide ((y ∉ done) /\ y <> now_year w y)) as [Hy|Hy].
    + rewrite filter_cons_True by assumption.
      rewrite <- !app_assoc. split_and!; [reflexivity|tauto|tauto].
    + rewrite filter_cons_False by assumption.
      rewrite app_nil_r, <- !app_assoc. split_and!; [reflexivity|tauto|tauto].
Qed.

(** A round that has nothing to do: the year is skipped, or it is the
    current year and the search brings no identifier that is not
    cached. *)
Lemma year_step_idle st y st' :
  (y <> now_year w y -> y ∈ done) ->
  (forall ids, outcome (_search_year w y 3) = Ok ids ->
               forall p, p ∈ ids -> p ∈ st.1.2) ->
  outcome (year_step w done st y) = Ok st' -> st' = st.
Proof.
  destruct st as [[data existing] updated]. cbn [fst snd].
  intros Hdone Hcached. rewrite year_step_outcome. cbn zeta.
  destruct (decide (y = now_year w y)) as [Hc|Hc].
  - rewrite (bool_decide_eq_true_2 _ Hc), andb_false_r.
    destruct (outcome (_search_year w y 3)) as [ids|e] eqn:Es; [|discriminate].
    rewrite (filter_none (fun p => p ∉ existing) ids)
      by (intros p Hp Hn; apply Hn, (Hcached ids eq_refl p Hp)).
    now intros [= <-].
  - rewrite (bool_decide_eq_true_2 _ (Hdone Hc)), (bool_decide_eq_false_2 _ Hc).
    now intros [= <-].
Qed.

Lemma year_loop_idle years :
  forall st st',
    (forall y, y ∈ years -> y <> now_year w y -> y ∈ done) ->
    (forall y ids, y ∈ years -> outcome (_search_year w y 3) = Ok ids ->
                   forall p, p ∈ ids -> p ∈ st.1.2) ->
    outcome (year_loop w done st years) = Ok st' -> st' = st.
Proof.
  induction years as [|y years IH]; intros st st' Hdone Hcached.
  - cbn. now intros [= <-].
  - cbn [year_loop]. rewrite bind_outcome.
    destruct (outcome (year_step w done st y)) as [st1|e] eqn:E1; [|discriminate].
    apply year_step_idle in E1 as ->.
    + apply IH.
      * intros y' Hy'. apply Hdone. now apply list_elem_of_further.
      * intros y' ids Hy'. apply Hcached. now apply list_elem_of_further.
    + apply Hdone, list_elem_of_here.
    + intros ids. apply Hcached, list_elem_of_here.
Qed.

(** A round whose search brings no identifier that the loop does not
    hold already adds no record and no identifier. *)
Lemma year_step_no_new st y st' :
  (forall ids, outcome (_search_year w y 3) = Ok ids ->
               forall p, p ∈ ids -> p ∈ st.1.2) ->
  outcome (year_step w done st y) = Ok st' ->
  records st'.1.1 = records st.1.1 /\ st'.1.2 = st.1.2.
Proof.
  destruct st as [[data existing] updated]. cbn [fst snd].
  intros Hcached. rewrite year_step_outcome. cbn zeta.
  destruct (bool_decide (y ∈ done) && negb (bool_decide (y = now_year w y))).
  { now intros [= <-]. }
  destruct (outcome (_search_year w y 3)) as [ids|e] eqn:Es; [|discriminate].
  rewrite (filter_none (fun p => p ∉ existing) ids)
    by (intros p Hp Hn; apply Hn, (Hcached ids eq_refl p Hp)).
  destruct (bool_decide (y = now_year w y)); now intros [= <-].
Qed.

Lemma year_loop_no_new years :
  forall st st',
    (forall y ids, y ∈ years -> outcome (_search_year w y 3) = Ok ids ->
                   forall p, p ∈ ids -> p ∈ st.1.2) ->
    outcome (year_loop w done st years) = Ok st' ->
    records st'.1.1 = records st.1.1 /\ st'.1.2 = st.1.2.
Proof.
  induction years as [|y years IH]; intros st st' Hcached.
  - cbn. now intros [= <-].
  - cbn [year_loop]. rewrite bind_outcome.
    destruct (outcome (year_step w done st y)) as [st1|e] eqn:E1; [|discriminate].
    apply year_step_no_new in E1 as [Hr1 He1];
      [|intros ids; apply Hcached, list_elem_of_here].
    intros [Hr2 He2]%IH.
    + split; congruence.
    + intros y' ids Hy'. rewrite He1. apply Hcached. now apply list_elem_of_further.
Qed.

End RetrievalFacts.

Section RetrievalClaims.
Import DataRetrieval.

Lemma retrieve_outcome w file start_year end_year :
  let data := _load_data file in
  outcome (retrieve_full_data w file start_year end_year)
  = match outcome (year_loop w (list_to_set (completed_years data))
                     (data, list_to_set (pmid <$> records data), false)
                     (range start_year (effective_end_year w end_year + 1))) with
    | Ok (data', _, updated) =>
        Ok (if (updated : bool) then _save_data data' else file, records data')
    | Raise e => Raise e
    end.
Proof.
  intros data. unfold retrieve_full_data. fold data. rewrite bind_outcome.
  destruct (outcome (year_loop _ _ _ _)) as [[[data' ex] [|]]|e]; reflexivity.
Qed.

(** C9: the year search returns the empty list, with an error
    logged as its last act, when every attempt up to the retry cap is
    answered with status 429 and when the first answer that is not a
    429 carries an HTTP error status; the only exceptions it lets
    through are those raised by the request itself or by decoding the
    body of a successful response. *)
Theorem search_year_absorbs_http_failures w year max_retries :
  ((forall attempt, 1 <= attempt <= max_retries ->
      exists resp, esearch w year attempt = Ok resp /\ status_code resp = 429) ->
   outcome (_search_year w year max_retries) = Ok []
   /\ last (trace (_search_year w year max_retries))
      = Some (Log ERROR (SearchFailed year max_retries)))
  /\ (forall n resp,
       1 <= n <= max_retries ->
       (forall attempt, 1 <= attempt < n ->
          exists r, esearch w year attempt = Ok r /\ status_code r = 429) ->
       esearch w year n = Ok resp ->
       status_code resp <> 429 ->
       is_http_error (status_code resp) = true ->
       outcome (_search_year w year max_retries) = Ok []
       /\ last (trace (_search_year w year max_retries))
          = Some (Log ERROR (SearchHttpError year (status_code resp))))
  /\ (forall e,
       outcome (_search_year w year max_retries) = Raise e ->
       exists n, 1 <= n <= max_retries
         /\ (esearch w year n = Raise e
             \/ exists resp, esearch w year n = Ok resp
                  /\ status_code resp <> 429
                  /\ is_http_error (status_code resp) = false
                  /\ idlist resp = Raise e)).
Proof.
  unfold _search_year. split_and!.
  - intros Hall. apply search_attempts_exhausted.
    intros a Ha%elem_of_range. apply Hall. lia.
  - intros n resp Hn Hpre Hg Hs He.
    rewrite (range_split 1 n (max_retries + 1)) by lia.
    apply search_attempts_http_error; try assumption.
    intros a Ha%elem_of_range. now apply Hpre.
  - intros e (n & Hn%elem_of_range & Hcase)%search_attempts_raise.
    exists n. split; [lia|assumption].
Qed.

(** After a run that returns, every year of the range other than the
    current one is marked in the cache file. *)
Lemma run_completes_range w file start_year end_year r :
  outcome (retrieve_full_data w file start_year end_year) = Ok r ->
  forall y,
    y ∈ range start_year (effective_end_year w end_year + 1) ->
    y <> now_year w y ->
    y ∈ completed_years
          (_load_data (persisted file (retrieve_full_data w file start_year end_year))).
Proof.
  intros Hr y Hy Hc. unfold persisted.
  pose proof (retrieve_outcome w file start_year end_year) as Ho.
  cbn zeta in Ho. rewrite Ho. rewrite Ho in Hr. clear Ho.
  destruct (outcome (year_loop _ _ _ _)) as [[[data' ex] upd]|e] eqn:El;
    [|discriminate].
  apply year_loop_Ok in El as (recs & ex' & upd' & [= -> _ ->] & _ & Hmark).
  assert (Hin : y ∈ completed_years (_load_data file)
                ++ filter (fun y => (y ∉ (list_to_set (completed_years (_load_data file)) : gset Z))
                                    /\ y <> now_year w y)
                     (range start_year (effective_end_year w end_year + 1))).
  { destruct (decide (y ∈ completed_years (_load_data file))) as [Hd|Hd].
    - apply elem_of_app. now left.
    - apply elem_of_app. right. apply list_elem_of_filter.
      rewrite elem_of_list_to_set. auto. }
  destruct upd'; cbn [_save_data _load_data completed_years]; [exact Hin|].
  destruct (filter _ _) as [|z l] eqn:Ef.
  - now rewrite app_nil_r in Hin.
  - discriminate Hmark. discriminate.
Qed.

(** C6, as the code has it: when the searches of a second run bring
    only identifiers of cached records, the second run adds no record
    to the cache file and returns the cached records, so pmids that
    were unique in the cache stay unique.  When moreover the first
    run has returned and both runs fall in the same calendar year,
    the second run leaves the whole cache file as it is. *)
Theorem second_run_changes_nothing w1 w2 file0 start_year end_year :
  let run1 := retrieve_full_data w1 file0 start_year end_year in
  let file1 := persisted file0 run1 in
  let run2 := retrieve_full_data w2 file1 start_year end_year in
  (forall y ids,
     y ∈ range start_year (effective_end_year w2 end_year + 1) ->
     outcome (_search_year w2 y 3) = Ok ids ->
     forall p, p ∈ ids -> p ∈ pmid <$> records (_load_data file1)) ->
  records (_load_data (persisted file1 run2)) = records (_load_data file1)
  /\ (forall r2, outcome run2 = Ok r2 -> r2.2 = records (_load_data file1))
  /\ (NoDup (pmid <$> records (_load_data file1)) ->
      NoDup (pmid <$> records (_load_data (persisted file1 run2))))
  /\ (forall c r1,
        now_year_default w1 = c -> (forall y, now_year w1 y = c) ->
        now_year_default w2 = c -> (forall y, now_year w2 y = c) ->
        outcome run1 = Ok r1 ->
        persisted file1 run2 = file1
        /\ forall r2, outcome run2 = Ok r2 ->
             r2 = (file1, records (_load_data file1))).
Proof.
  intros run1 file1 run2 Hcached.
  pose proof (retrieve_outcome w2 file1 start_year end_year) as Ho.
  cbn zeta in Ho. fold run2 in Ho.
  assert (Hkeep : forall st',
             outcome (year_loop w2 (list_to_set (completed_years (_load_data file1)))
                        (_load_data file1,
                         list_to_set (pmid <$> records (_load_data file1)), false)
                        (range start_year (effective_end_year w2 end_year + 1)))
             = Ok st' ->
             records st'.1.1 = records (_load_data file1)).
  { intros st' Hst. apply year_loop_no_new in Hst as [Hr _]; [exact Hr|].
    intros y ids Hy Hs p Hp. cbn [fst snd].
    rewrite elem_of_list_to_set. now apply (Hcached y ids). }
  assert (Hrec : records (_load_data (persisted file1 run2))
                 = records (_load_data file1)).
  { unfold persisted. rewrite Ho.
    destruct (outcome (year_loop _ _ _ _)) as [[[data' ex] upd]|e]; [|reflexivity].
    destruct upd; [|reflexivity]. exact (Hkeep _ eq_refl). }
  split_and!.
  - exact Hrec.
  - intros r2. rewrite Ho.
    destruct (outcome (year_loop _ _ _ _)) as [[[data' ex] upd]|e]; [|discriminate].
    intros [= <-]. exact (Hkeep _ eq_refl).
  - now rewrite Hrec.
  - intros c r1 Hd1 Hn1 Hd2 Hn2 Hr1.
    assert (Hend : effective_end_year w2 end_year = effective_end_year w1 end_year).
    { unfold effective_end_year. now rewrite Hd1, Hd2. }
    assert (Hidle : forall st',
               outcome (year_loop w2 (list_to_set (completed_years (_load_data file1)))
                          (_load_data file1,
                           list_to_set (pmid <$> records (_load_data file1)), false)
                          (range start_year (effective_end_year w2 end_year + 1)))
               = Ok st' ->
               st' = (_load_data file1,
                      list_to_set (pmid <$> records (_load_data file1)), false)).
    { intros st'. apply year_loop_idle.
      - intros y Hy Hc. rewrite elem_of_list_to_set.
        apply (run_completes_range w1 file0 start_year end_year r1 Hr1).
        + now rewrite <- Hend.
        + now rewrite Hn1, <- (Hn2 y).
      - intros y ids Hy Hs p Hp. cbn [fst snd].
        rewrite elem_of_list_to_set. now apply (Hcached y ids). }
    split.
    + unfold persisted. rewrite Ho.
      destruct (outcome (year_loop _ _ _ _)) as [st'|e]; [|reflexivity].
      now rewrite (Hidle st' eq_refl).
    + intros r2. rewrite Ho.
      destruct (outcome (year_loop _ _ _ _)) as [st'|e]; [|discriminate].
      rewrite (Hidle st' eq_refl). now intros [= <-].
Qed.

End RetrievalClaims.

(** Two runs in the world [steady_world]: a first one over 2023-2024
    on an absent cache file, then a second one. *)
Lemma second_run_changes_nothing_witness :
  let w := Sample.steady_world in
  let run1 := DataRetrieval.retrieve_full_data w None 2023 None in
  let file1 := DataRetrieval.persisted None run1 in
  let run2 := DataRetrieval.retrieve_full_data w file1 2023 None in
  file1 = Some {| DataRetrieval.completed_years := [2023];
                  DataRetrieval.records := [Sample.record_of "31" "2023"] |}
  /\ DataRetrieval.persisted file1 run2 = file1.
Proof.
  intros w run1 file1 run2. split; [vm_compute; reflexivity|].
  assert (Hcached : forall y ids,
             y ∈ range 2023 (DataRetrieval.effective_end_year w None + 1) ->
             DataRetrieval.outcome (DataRetrieval._search_year w y 3) = Ok ids ->
             forall p, p ∈ ids ->
               p ∈ pmid <$> DataRetrieval.records (DataRetrieval._load_data file1)).
  { intros y ids Hy Hs p Hp.
    apply elem_of_range in Hy.
    assert (Hne : (y =? Sample.throttled_year) = false)
      by (apply Z.eqb_neq; unfold Sample.throttled_year; cbn in Hy; lia).
    unfold DataRetrieval._search_year in Hs. cbn in Hs. rewrite Hne in Hs.
    cbn in Hs. injection Hs as <-.
    apply list_elem_of_singleton in Hp as ->.
    vm_compute. apply list_elem_of_here. }
  refine (proj1 (proj2 (proj2 (proj2 (second_run_changes_nothing
                   w w None 2023 None Hcached)))
                   2024 (file1, [Sample.record_of "31" "2023"])
                   eq_refl (fun _ => eq_refl) eq_refl (fun _ => eq_refl) _)).
  vm_compute. reflexivity.
Defined.

(** Two pairs of runs on which C6 as stated fails.  A first run in 2024 over
    the year 2024 leaves it unmarked, being the current year; a second
    run in 2025, whose search finds only the cached identifier, marks
    it and rewrites the file.  And after a first run that raised in
    the search of 2023, having written nothing, a second run whose
    searches find nothing creates the file. *)
Lemma second_run_changes_the_cache :
  (let run1 := DataRetrieval.retrieve_full_data
                 Sample.steady_world None 2024 (Some 2024) in
   let file1 := DataRetrieval.persisted None run1 in
   let run2 := DataRetrieval.retrieve_full_data
                 Sample.later_world file1 2024 (Some 2024) in
   file1 = Some {| DataRetrieval.completed_years := [];
                   DataRetrieval.records := [Sample.record_of "31" "2023"] |}
   /\ DataRetrieval.outcome (DataRetrieval._search_year Sample.later_world 2024 3)
      = Ok [lit "31"]
   /\ DataRetrieval.persisted file1 run2
      = Some {| DataRetrieval.completed_years := [2024];
                DataRetrieval.records := [Sample.record_of "31" "2023"] |}
   /\ DataRetrieval.persisted file1 run2 <> file1)
  /\ (let run1 := DataRetrieval.retrieve_full_data
                    Sample.interrupted_world None 2022 (Some 2023) in
      let file1 := DataRetrieval.persisted None run1 in
      let run2 := DataRetrieval.retrieve_full_data
                    Sample.empty_world file1 2022 (Some 2023) in
      DataRetrieval.outcome run1 = Raise ConnectionError
      /\ file1 = None
      /\ (forall y,
            DataRetrieval.outcome (DataRetrieval._search_year Sample.empty_world y 3)
            = Ok [])
      /\ DataRetrieval.persisted file1 run2
         = Some {| DataRetrieval.completed_years := [2022; 2023];
                   DataRetrieval.records := [] |}
      /\ DataRetrieval.persisted file1 run2 <> file1).
Proof.
  split; cbn zeta.
  - split_and!; [vm_compute; reflexivity..|].
    intros H. vm_compute in H. discriminate H.
  - split_and!; [vm_compute; reflexivity..| |].
    + vm_compute. reflexivity.
    + intros H. vm_compute in H. discriminate H.
Qed.

(** The search of the year that [steady_world] answers with 429 on
    every attempt. *)
Lemma search_year_absorbs_http_failures_witness :
  DataRetrieval.outcome
    (DataRetrieval._search_year Sample.steady_world Sample.throttled_year 3)
  = Ok [].
Proof.
  refine (proj1 (proj1 (search_year_absorbs_http_failures
                          Sample.steady_world Sample.throttled_year 3) _)).
  intros attempt _. eexists. split; reflexivity.
Defined.

(** * Further properties *)

(** ** Chunking and fetching (data_retrieval.py) *)

Section ChunkFacts.
Import DataRetrieval.
Context {A : Type}.

Lemma chunks_of_nil fuel size : chunks_of fuel size (@nil A) = [].
Proof. now destruct fuel. Qed.

Lemma chunks_of_spec (size : nat) :
  (0 < size)%nat ->
  forall fuel (l : list A),
    (length l <= fuel)%nat ->
    concat (chunks_of fuel size l) = l
    /\ Forall (fun c => (0 < length c <= size)%nat) (chunks_of fuel size l)
    /\ (forall i c,
          chunks_of fuel size l !! i = Some c ->
          (S i < length (chunks_of fuel size l))%nat ->
          length c = size).
Proof.
  intros Hsize. induction fuel as [|fuel IH]; intros l Hl.
  - destruct l; [|cbn in Hl; lia]. cbn. split_and!; [reflexivity|constructor|].
    intros i c Hi. now rewrite lookup_nil in Hi.
  - destruct l as [|x l]; [rewrite chunks_of_nil; split_and!;
      [reflexivity|constructor|intros i c Hi; now rewrite lookup_nil in Hi]|].
    cbn [chunks_of].
    destruct (IH (drop size (x :: l))) as (Hcat & Hall & Hfull).
    { rewrite length_drop. cbn in *. lia. }
    split_and!.
    + cbn [concat]. rewrite Hcat. apply take_drop.
    + constructor; [|exact Hall].
      rewrite length_take. cbn [length] in *. lia.
    + intros [|i] c Hi Hlen.
      * injection Hi as <-. cbn [length] in Hlen.
        destruct (drop size (x :: l)) as [|y rest] eqn:Ed.
        { rewrite chunks_of_nil in Hlen. cbn in Hlen. lia. }
        assert (Hlt : (size < length (x :: l))%nat).
        { destruct (decide (size < length (x :: l))%nat) as [?|Hge]; [assumption|].
          rewrite drop_ge in Ed by lia. discriminate. }
        rewrite length_take. lia.
      * cbn in Hi. cbn [length] in Hlen. apply (Hfull i c Hi). lia.
Qed.

End ChunkFacts.

Section ChunkClaims.
Import DataRetrieval.

(** X1: for a positive size, [_chunked] cuts the list into
    consecutive pieces: their concatenation is the list, none of them
    is empty or longer than the size, and all but the last have
    exactly the size. *)
Theorem chunked_partitions {A} (l : list A) (size : Z) :
  0 < size ->
  exists chunks,
    _chunked l size = Ok chunks
    /\ concat chunks = l
    /\ Forall (fun c => 0 < Z.of_nat (length c) <= size) chunks
    /\ (forall i c, chunks !! i = Some c -> (S i < length chunks)%nat ->
                    Z.of_nat (length c) = size).
Proof.
  intros Hsize. unfold _chunked.
  destruct (Z.eqb_spec size 0) as [?|_]; [lia|].
  destruct (Z.ltb_spec size 0) as [?|_]; [lia|].
  destruct (chunks_of_spec (Z.to_nat size) ltac:(lia) (length l) l (le_n _))
    as (Hcat & Hall & Hfull).
  eexists. split_and!; [reflexivity|exact Hcat| |].
  - eapply Forall_impl; [exact Hall|]. cbn. intros c Hc. lia.
  - intros i c Hi Hlen. rewrite (Hfull i c Hi Hlen). lia.
Qed.

End ChunkClaims.

(** Five identifiers in chunks of two. *)
Lemma chunked_partitions_witness :
  exists chunks,
    DataRetrieval._chunked [1; 2; 3; 4; 5] 2 = Ok chunks
    /\ concat chunks = [1; 2; 3; 4; 5]
    /\ Forall (fun c => 0 < Z.of_nat (length c) <= 2) chunks
    /\ (forall i c, chunks !! i = Some c -> (S i < length chunks)%nat ->
                    Z.of_nat (length c) = 2).
Proof. apply (chunked_partitions [1; 2; 3; 4; 5] 2). lia. Defined.

Section FetchFacts.
Import DataRetrieval.

Lemma range_nil a b : b <= a -> range a b = [].
Proof. intros Hab. unfold range. now replace (Z.to_nat (b - a)) with 0%nat by lia. Qed.

Lemma range_cons a b : a < b -> range a b = a :: range (a + 1) b.
Proof.
  intros Hab. rewrite (range_split a a b) by lia.
  now rewrite (range_nil a a) by lia.
Qed.

Lemma chunked_positive {A} (l : list A) size :
  0 < size -> _chunked l size = Ok (chunks_of (length l) (Z.to_nat size) l).
Proof.
  intros Hsize. unfold _chunked.
  destruct (Z.eqb_spec size 0) as [?|_]; [lia|].
  destruct (Z.ltb_spec size 0) as [?|_]; [lia|reflexivity].
Qed.

Variable get : Z -> result FetchResponse.
Variable max_retries : Z.

(** The outcome of the retry loop of one chunk, without its trace. *)
Lemma fetch_attempts_outcome a rest :
  outcome (fetch_attempts get max_retries (a :: rest))
  = match get a with
    | Raise e => Raise e
    | Ok resp =>
        if fetch_status_code resp =? 429
        then outcome (fetch_attempts get max_retries rest)
        else if is_http_error (fetch_status_code resp) then Ok []
        else articles resp
    end.
Proof.
  cbn [fetch_attempts]. rewrite bind_outcome. unfold lift. cbn [outcome].
  destruct (get a) as [resp|e]; [|reflexivity].
  destruct (fetch_status_code resp =? 429).
  - now rewrite !outcome_log_bind.
  - destruct (is_http_error (fetch_status_code resp)); [reflexivity|].
    rewrite bind_outcome. cbn [outcome]. now destruct (articles resp).
Qed.

Local Abbreviation throttled n :=
  (exists r, get n = Ok r /\ fetch_status_code r = 429).

(** The chunk's yield when the attempts [a], [a + 1], ... are left. *)
Lemma fetch_attempts_from k :
  forall a recs,
    max_retries + 1 - a <= Z.of_nat k ->
    outcome (fetch_attempts get max_retries (range a (max_retries + 1))) = Ok recs
    <-> (recs = [] /\ forall n, a <= n <= max_retries -> throttled n)
        \/ exists n resp,
             a <= n <= max_retries
             /\ (forall m, a <= m < n -> throttled m)
             /\ get n = Ok resp
             /\ fetch_status_code resp <> 429
             /\ (if is_http_error (fetch_status_code resp)
                 then recs = [] else articles resp = Ok recs).
Proof.
  induction k as [|k IH]; intros a recs Hk.
  - rewrite range_nil by lia. cbn. split.
    + intros [= <-]. left. split; [reflexivity|]. intros n Hn. lia.
    + intros [[-> _]|(n & resp & Hn & _)]; [reflexivity|lia].
  - destruct (decide (max_retries + 1 <= a)) as [Hend|Hmore].
    { rewrite range_nil by lia. cbn. split.
      - intros [= <-]. left. split; [reflexivity|]. intros n Hn. lia.
      - intros [[-> _]|(n & resp & Hn & _)]; [reflexivity|lia]. }
    rewrite range_cons by lia. rewrite fetch_attempts_outcome.
    destruct (get a) as [resp|e] eqn:Hg.
    + destruct (Z.eqb_spec (fetch_status_code resp) 429) as [Hs|Hs].
      * rewrite (IH (a + 1) recs) by lia. split.
        -- intros [[-> Hall]|(n & r & Hn & Hpre & Hrest)].
           ++ left. split; [reflexivity|]. intros n Hn.
              destruct (decide (n = a)) as [->|?]; [eauto|apply Hall; lia].
           ++ right. exists n, r. split; [lia|]. split; [|exact Hrest].
              intros m Hm.
              destruct (decide (m = a)) as [->|?]; [eauto|apply Hpre; lia].
        -- intros [[-> Hall]|(n & r & Hn & Hpre & Hgn & Hsn & Hrest)].
           ++ left. split; [reflexivity|]. intros n Hn. apply Hall. lia.
           ++ right. exists n, r.
              assert (n <> a) by (intros ->; congruence).
              split; [lia|]. split; [|auto].
              intros m Hm. apply Hpre. lia.
      * split.
        -- intros Ho. right. exists a, resp.
           split; [lia|]. split; [intros m Hm; lia|].
           split; [exact Hg|]. split; [assumption|].
           destruct (is_http_error (fetch_status_code resp)); congruence.
        -- intros [[-> Hall]|(n & r & Hn & Hpre & Hgn & Hsn & Hrest)].
           ++ destruct (Hall a) as (r & Hr & Hsr); [lia|]. congruence.
           ++ destruct (decide (n = a)) as [->|Hne].
              ** assert (r = resp) as -> by congruence.
                 destruct (is_http_error (fetch_status_code resp)); congruence.
              ** destruct (Hpre a) as (r' & Hr' & Hsr'); [lia|]. congruence.
    + split; [discriminate|].
      intros [[-> Hall]|(n & r & Hn & Hpre & Hgn & Hsn & Hrest)].
      * destruct (Hall a) as (r & Hr & _); [lia|]. congruence.
      * destruct (decide (n = a)) as [->|Hne]; [congruence|].
        destruct (Hpre a) as (r' & Hr' & _); [lia|]. congruence.
Qed.

Lemma fetch_attempts_yield recs :
  outcome (fetch_attempts get max_retries (range 1 (max_retries + 1))) = Ok recs
  <-> Spec.chunk_yield get max_retries recs.
Proof.
  rewrite (fetch_attempts_from (Z.to_nat max_retries) 1 recs) by lia. split.
  - intros [[-> Hall]|(n & resp & Hn & Hpre & Hg & Hs & Hrest)].
    + now apply Spec.yield_exhausted.
    + destruct (is_http_error (fetch_status_code resp)) eqn:He.
      * subst recs. now apply (Spec.yield_http_error _ _ n resp).
      * now apply (Spec.yield_articles _ _ n resp).
  - intros [Hall|n resp Hn Hpre Hg Hs He|n resp recs' Hn Hpre Hg Hs He Ha].
    + left. auto.
    + right. exists n, resp. rewrite He. auto.
    + right. exists n, resp. rewrite He. auto.
Qed.

(** The loop of one chunk raises only what [requests.get] raised or
    what parsing the body of a successful response raised. *)
Lemma fetch_attempts_raise l e :
  outcome (fetch_attempts get max_retries l) = Raise e ->
  exists n, n ∈ l
    /\ (get n = Raise e
        \/ exists resp, get n = Ok resp
             /\ fetch_status_code resp <> 429
             /\ is_http_error (fetch_status_code resp) = false
             /\ articles resp = Raise e).
Proof.
  induction l as [|a l IH]; [discriminate|].
  rewrite fetch_attempts_outcome.
  destruct (get a) as [resp|e'] eqn:Hg.
  - destruct (Z.eqb_spec (fetch_status_code resp) 429) as [Hs|Hs].
    + intros (n & Hn & Hcase)%IH. exists n.
      split; [now apply list_elem_of_further|assumption].
    + destruct (is_http_error (fetch_status_code resp)) eqn:He; [discriminate|].
      intros Ha. exists a. split; [apply list_elem_of_here|].
      right. exists resp. auto.
  - intros [= <-]. exists a. split; [apply list_elem_of_here|now left].
Qed.

End FetchFacts.

Section FetchChunks.
Import DataRetrieval.

Variable get : nat -> Z -> result FetchResponse.
Variable max_retries : Z.

Lemma fetch_chunks_outcome i c chunks acc :
  outcome (fetch_chunks get max_retries i (c :: chunks) acc)
  = match outcome (fetch_attempts (get i) max_retries
                     (range 1 (max_retries + 1))) with
    | Ok recs => outcome (fetch_chunks get max_retries (S i) chunks (acc ++ recs))
    | Raise e => Raise e
    end.
Proof. cbn [fetch_chunks]. now rewrite bind_outcome. Qed.

Lemma fetch_chunks_Ok (chunks : list (list str)) :
  forall i acc recs,
    outcome (fetch_chunks get max_retries i chunks acc) = Ok recs
    <-> exists yields,
          Forall2 (fun j ys => Spec.chunk_yield (get j) max_retries ys)
            (seq i (length chunks)) yields
          /\ recs = acc ++ concat yields.
Proof.
  induction chunks as [|c chunks IH]; intros i acc recs.
  - cbn. split.
    + intros [= <-]. exists []. split; [constructor|now rewrite app_nil_r].
    + intros (yields & Hy & ->). apply Forall2_nil_inv_l in Hy as ->.
      cbn. now rewrite app_nil_r.
  - rewrite fetch_chunks_outcome. cbn [length seq]. split.
    + destruct (outcome (fetch_attempts _ _ _)) as [ys|e] eqn:Ey; [|discriminate].
      intros (yields & Hy & ->)%IH. exists (ys :: yields). split.
      * constructor; [now apply fetch_attempts_yield|exact Hy].
      * cbn [concat]. now rewrite app_assoc.
    + intros (yields & Hy & ->).
      apply Forall2_cons_inv_l in Hy as (ys & yields' & Hys & Hy & ->).
      apply fetch_attempts_yield in Hys. rewrite Hys.
      apply IH. exists yields'. split; [exact Hy|].
      cbn [concat]. now rewrite app_assoc.
Qed.

Lemma fetch_chunks_raise (chunks : list (list str)) e :
  forall i acc,
    outcome (fetch_chunks get max_retries i chunks acc) = Raise e ->
    exists j n,
      (i <= j < i + length chunks)%nat /\ 1 <= n <= max_retries
      /\ (get j n = Raise e
          \/ exists resp, get j n = Ok resp
               /\ fetch_status_code resp <> 429
               /\ is_http_error (fetch_status_code resp) = false
               /\ articles resp = Raise e).
Proof.
  induction chunks as [|c chunks IH]; intros i acc; [discriminate|].
  rewrite fetch_chunks_outcome.
  destruct (outcome (fetch_attempts _ _ _)) as [ys|e'] eqn:Ey.
  - intros (j & n & Hj & Hrest)%IH. exists j, n.
    split; [cbn [length]; lia|exact Hrest].
  - intros [= <-].
    apply fetch_attempts_raise in Ey as (n & Hn%elem_of_range & Hcase).
    exists i, n. split; [cbn [length]; lia|]. split; [lia|exact Hcase].
Qed.

End FetchChunks.

Section FetchClaims.
Import DataRetrieval.

Lemma fetch_pmids_outcome w year pmids batch_size max_retries :
  outcome (_fetch_pmids w year pmids batch_size max_retries)
  = match _chunked pmids batch_size with
    | Ok chunks =>
        outcome (fetch_chunks (efetch w year) max_retries 0 chunks [])
    | Raise e => Raise e
    end.
Proof.
  unfold _fetch_pmids. rewrite bind_outcome. unfold lift. cbn [outcome].
  reflexivity.
Qed.

(** X2: the batch size of [_fetch_pmids] at and below zero: a
    size of zero raises [ValueError] and a negative size returns no
    record, in both cases before any request, log line or pause. *)
Theorem fetch_pmids_degenerate_batch w year pmids max_retries :
  _fetch_pmids w year pmids 0 max_retries = MkEff [] (Raise ValueError)
  /\ forall batch_size, batch_size < 0 ->
       _fetch_pmids w year pmids batch_size max_retries = MkEff [] (Ok []).
Proof.
  split; [reflexivity|]. intros b Hb. unfold _fetch_pmids, _chunked.
  destruct (Z.eqb_spec b 0) as [?|_]; [lia|].
  destruct (Z.ltb_spec b 0) as [_|?]; [reflexivity|lia].
Qed.

(** X3: [_fetch_pmids] raises only the [ValueError] of a zero batch
    size, what [requests.get] raised for one of the attempts of a
    chunk, or what parsing the body of a successful response raised;
    a status of 429 or an HTTP error status never raises. *)
Theorem fetch_pmids_raises_only w year pmids batch_size max_retries e :
  outcome (_fetch_pmids w year pmids batch_size max_retries) = Raise e ->
  (batch_size = 0 /\ e = ValueError)
  \/ exists chunks i n,
       _chunked pmids batch_size = Ok chunks
       /\ (i < length chunks)%nat /\ 1 <= n <= max_retries
       /\ (efetch w year i n = Raise e
           \/ exists resp, efetch w year i n = Ok resp
                /\ fetch_status_code resp <> 429
                /\ is_http_error (fetch_status_code resp) = false
                /\ articles resp = Raise e).
Proof.
  rewrite fetch_pmids_outcome.
  destruct (_chunked pmids batch_size) as [chunks|e'] eqn:Ec.
  - intros (j & n & Hj & Hn & Hcase)%fetch_chunks_raise. right.
    exists chunks, j, n. split; [reflexivity|]. split; [lia|]. split; [lia|exact Hcase].
  - intros [= <-]. left. unfold _chunked in Ec.
    destruct (Z.eqb_spec batch_size 0) as [->|_].
    + now injection Ec as <-.
    + now destruct (batch_size <? 0).
Qed.

(** X4: for a positive batch size, [_fetch_pmids] returns exactly
    the concatenation, in the order of the chunks, of what each chunk
    yields: the articles of the first answer that is not a 429, and
    nothing for a chunk that is answered with 429 on every attempt or
    with an HTTP error status; such a chunk does not stop the
    chunks after it. *)
Theorem fetch_pmids_by_chunk w year pmids batch_size max_retries recs :
  0 < batch_size ->
  outcome (_fetch_pmids w year pmids batch_size max_retries) = Ok recs
  <-> exists chunks yields,
        _chunked pmids batch_size = Ok chunks
        /\ Forall2 (fun i ys => Spec.chunk_yield (efetch w year i) max_retries ys)
             (seq 0 (length chunks)) yields
        /\ recs = concat yields.
Proof.
  intros Hb. rewrite fetch_pmids_outcome, (chunked_positive pmids batch_size Hb).
  rewrite fetch_chunks_Ok. split.
  - intros (yields & Hy & ->). eexists _, yields. auto.
  - intros (chunks' & yields & [= <-] & Hy & ->). exists yields. auto.
Qed.

End FetchClaims.

(** A fetch that cannot reach the service. *)
Lemma fetch_pmids_raises_only_witness :
  (100 = 0 /\ ConnectionError = ValueError)
  \/ exists chunks i n,
       DataRetrieval._chunked [lit "31"] 100 = Ok chunks
       /\ (i < length chunks)%nat /\ 1 <= n <= 3
       /\ (DataRetrieval.efetch Sample.offline_world 2023 i n = Raise ConnectionError
           \/ exists resp,
                DataRetrieval.efetch Sample.offline_world 2023 i n = Ok resp
                /\ DataRetrieval.fetch_status_code resp <> 429
                /\ DataRetrieval.is_http_error
                     (DataRetrieval.fetch_status_code resp) = false
                /\ DataRetrieval.articles resp = Raise ConnectionError).
Proof.
  apply (fetch_pmids_raises_only Sample.offline_world 2023 [lit "31"] 100 3).
  vm_compute. reflexivity.
Defined.

(** One chunk, answered at the first attempt. *)
Lemma fetch_pmids_by_chunk_witness :
  exists chunks yields,
    DataRetrieval._chunked [lit "31"] 100 = Ok chunks
    /\ Forall2 (fun i ys =>
                  Spec.chunk_yield
                    (DataRetrieval.efetch Sample.steady_world 2023 i) 3 ys)
         (seq 0 (length chunks)) yields
    /\ [Sample.record_of "31" "2023"] = concat yields.
Proof.
  apply (proj1 (fetch_pmids_by_chunk Sample.steady_world 2023 [lit "31"] 100 3
                  [Sample.record_of "31" "2023"] ltac:(lia))).
  vm_compute. reflexivity.
Defined.

(** ** The years a run marks as completed (data_retrieval.py) *)

Section RunOutcome.
Import DataRetrieval.

Variable w : World.
Variable done : gset Z.



End RunOutcome.

Section RunOutcomeClaims.
Import DataRetrieval.


End RunOutcomeClaims.


(** ** What a run returns and keeps (data_retrieval.py) *)

Section RunFacts.
Import DataRetrieval.

Variable w : World.
Variable done : gset Z.

(** A round that leaves [updated] unset has changed nothing. *)
Lemma year_step_quiet data existing updated y data' existing' :
  outcome (year_step w done (data, existing, updated) y)
  = Ok (data', existing', false) ->
  data' = data /\ existing' = existing /\ updated = false.
Proof.
  rewrite year_step_outcome. cbn zeta.
  destruct (bool_decide (y ∈ done) && negb (bool_decide (y = now_year w y))).
  { intros [= <- <- <-]. auto. }
  destruct (outcome (_search_year w y 3)) as [ids|e]; [|discriminate].
  destruct (filter _ ids) as [|q new].
  - destruct (bool_decide (y = now_year w y)); [|discriminate].
    intros [= <- <- <-]. auto.
  - destruct (outcome (_fetch_pmids _ _ _ _ _)); discriminate.
Qed.

Lemma year_loop_quiet years :
  forall data existing updated data' existing',
    outcome (year_loop w done (data, existing, updated) years)
    = Ok (data', existing', false) ->
    data' = data /\ existing' = existing /\ updated = false.
Proof.
  induction years as [|y years IH]; intros data existing updated data' existing'.
  - cbn. intros [= <- <- <-]. auto.
  - cbn [year_loop]. rewrite bind_outcome.
    destruct (outcome (year_step w done (data, existing, updated) y))
      as [[[d1 e1] u1]|e] eqn:E1; [|discriminate].
    intros (-> & -> & ->)%IH. now apply year_step_quiet in E1.
Qed.

(** A year that is marked and is not the current one is passed over
    with one log line. *)
Lemma year_loop_skip years :
  forall st,
    (forall y, y ∈ years -> y ∈ done /\ y <> now_year w y) ->
    year_loop w done st years
    = MkEff ((fun y => Log INFO (SkippingYear y)) <$> years) (Ok st).
Proof.
  induction years as [|y years IH]; intros st Hall; [reflexivity|].
  destruct (Hall y) as [Hd Hc]; [apply list_elem_of_here|].
  assert (Hstep : year_step w done st y
                  = MkEff [Log INFO (SkippingYear y)] (Ok st)).
  { unfold year_step. destruct st as [[data existing] updated].
    now rewrite (bool_decide_eq_true_2 _ Hd), (bool_decide_eq_false_2 _ Hc). }
  cbn [year_loop]. rewrite Hstep. unfold mbind, eff_bind. cbn [outcome trace].
  rewrite IH by (intros y' Hy'; apply Hall; now apply list_elem_of_further).
  reflexivity.
Qed.

(** Uniqueness of the cached pmids is kept by a loop whose fetches
    return what they were asked for. *)
Lemma year_loop_unique years :
  forall data existing updated st',
    Spec.fetches_as_asked w done existing years ->
    NoDup (pmid <$> records data) ->
    (forall p, p ∈ pmid <$> records data -> p ∈ existing) ->
    outcome (year_loop w done (data, existing, updated) years) = Ok st' ->
    NoDup (pmid <$> records st'.1.1).
Proof.
  induction years as [|y years IH]; intros data existing updated st' Hask Hnd Hsub.
  - cbn. now intros [= <-].
  - cbn [year_loop Spec.fetches_as_asked] in *.
    rewrite bind_outcome, year_step_outcome. cbn zeta.
    destruct (bool_decide (y ∈ done) && negb (bool_decide (y = now_year w y))).
    { now apply IH. }
    destruct (outcome (_search_year w y 3)) as [ids|e] eqn:Es; [|discriminate].
    destruct (filter (fun p => p ∉ existing) ids) as [|q new] eqn:Ef.
    + destruct (bool_decide (y = now_year w y)); now apply IH.
    + destruct Hask as [Hfetch Hask].
      destruct (outcome (_fetch_pmids _ _ _ _ _)) as [got|e] eqn:Eg; [|discriminate].
      destruct (Hfetch got eq_refl) as [Hgot Hin].
      assert (Hnew : forall p, p ∈ pmid <$> got -> p ∈ q :: new).
      { intros p (r & -> & Hr)%list_elem_of_fmap. now apply Hin. }
      assert (Hfresh : forall p, p ∈ q :: new -> p ∉ existing).
      { intros p Hp. rewrite <- Ef in Hp.
        now apply list_elem_of_filter in Hp as [? _]. }
      assert (Hrec : NoDup (pmid <$> (records data ++ got))
                     /\ forall p, p ∈ pmid <$> (records data ++ got) ->
                                  p ∈ existing ∪ list_to_set (q :: new)).
      { rewrite fmap_app. split.
        - apply NoDup_app. split_and!; [assumption| |assumption].
          intros p Hp Hp'. apply (Hfresh p); auto.
        - intros p [Hp|Hp]%elem_of_app.
          + apply elem_of_union. left. auto.
          + apply elem_of_union. right. apply elem_of_list_to_set. auto. }
      destruct Hrec as [Hnd1 Hsub1].
      destruct (bool_decide (y = now_year w y));
        apply IH; assumption.
Qed.

End RunFacts.

Section RunClaims.
Import DataRetrieval.

(** X5: when a run returns, the records it returns are those of
    the cache file after the run, and they begin with the records the
    file held before the run: a run only appends records. *)
Theorem run_returns_the_cache w file start_year end_year file' recs :
  outcome (retrieve_full_data w file start_year end_year) = Ok (file', recs) ->
  recs = records (_load_data file')
  /\ exists new, recs = records (_load_data file) ++ new.
Proof.
  pose proof (retrieve_outcome w file start_year end_year) as Ho.
  cbn zeta in Ho. rewrite Ho. clear Ho.
  destruct (outcome (year_loop _ _ _ _)) as [[[data' ex] upd]|e] eqn:El;
    [|discriminate].
  intros [= <- <-]. split.
  - destruct upd; [reflexivity|].
    now apply year_loop_quiet in El as (-> & _ & _).
  - apply year_loop_Ok in El as (new & ex' & upd' & [= -> _ _] & _).
    now exists new.
Qed.

(** X6: if every fetch that the run sends is answered with records
    of pmids it asked for, each at most once, then pmids that are
    unique in the cache file before the run are unique in the records
    the run returns. *)
Theorem run_keeps_pmids_unique w file start_year end_year r :
  Spec.fetches_as_asked w
    (list_to_set (completed_years (_load_data file)))
    (list_to_set (pmid <$> records (_load_data file)))
    (range start_year (effective_end_year w end_year + 1)) ->
  NoDup (pmid <$> records (_load_data file)) ->
  outcome (retrieve_full_data w file start_year end_year) = Ok r ->
  NoDup (pmid <$> r.2).
Proof.
  intros Hfetch Hnd.
  pose proof (retrieve_outcome w file start_year end_year) as Ho.
  cbn zeta in Ho. rewrite Ho. clear Ho.
  destruct (outcome (year_loop _ _ _ _)) as [[[data' ex] upd]|e] eqn:El;
    [|discriminate].
  intros [= <-]. cbn [snd].
  apply year_loop_unique in El; [exact El|exact Hfetch|exact Hnd|].
  intros p Hp. now apply elem_of_list_to_set.
Qed.

(** X7: when every year of the range is marked as completed in the
    cache file and none is the current year, the run consists of one
    log line per year and the closing line: it sends no request,
    leaves the file as it is and returns the cached records. *)
Theorem completed_range_is_skipped w file start_year end_year :
  let years := range start_year (effective_end_year w end_year + 1) in
  (forall y, y ∈ years ->
     y ∈ completed_years (_load_data file) /\ y <> now_year w y) ->
  retrieve_full_data w file start_year end_year
  = MkEff (((fun y => Log INFO (SkippingYear y)) <$> years)
           ++ [Log INFO FileUpToDate])
          (Ok (file, records (_load_data file))).
Proof.
  intros years Hall. unfold retrieve_full_data. fold years.
  rewrite year_loop_skip; [reflexivity|].
  intros y Hy. rewrite elem_of_list_to_set. auto.
Qed.

End RunClaims.

(** The first run of [steady_world] over 2023-2024. *)
Lemma run_returns_the_cache_witness :
  [Sample.record_of "31" "2023"]
  = DataRetrieval.records
      (DataRetrieval._load_data
         (Some {| DataRetrieval.completed_years := [2023];
                  DataRetrieval.records := [Sample.record_of "31" "2023"] |}))
  /\ exists new,
       [Sample.record_of "31" "2023"]
       = DataRetrieval.records (DataRetrieval._load_data None) ++ new.
Proof.
  apply (run_returns_the_cache Sample.steady_world None 2023 None).
  vm_compute. reflexivity.
Defined.

(** The years 2021 and 2022, both marked, in the year 2024. *)
Lemma completed_range_is_skipped_witness :
  let file := Some {| DataRetrieval.completed_years := [2021; 2022];
                      DataRetrieval.records := [Sample.record_of "31" "2021"] |} in
  DataRetrieval.retrieve_full_data Sample.steady_world file 2021 (Some 2022)
  = DataRetrieval.MkEff
      [DataRetrieval.Log DataRetrieval.INFO (DataRetrieval.SkippingYear 2021);
       DataRetrieval.Log DataRetrieval.INFO (DataRetrieval.SkippingYear 2022);
       DataRetrieval.Log DataRetrieval.INFO DataRetrieval.FileUpToDate]
      (Ok (file, [Sample.record_of "31" "2021"])).
Proof.
  intros file.
  apply (completed_range_is_skipped Sample.steady_world file 2021 (Some 2022)).
  intros y Hy. apply elem_of_range in Hy. cbn in Hy.
  assert (y = 2021 \/ y = 2022) as [-> | ->] by lia;
    (split; [|cbn; lia]); cbn; repeat constructor.
Defined.

(** A run of [two_id_world] over 2023 on a cache file that holds one
    of the two identifiers the search finds: the other one is asked
    for and its record is returned. *)
Lemma run_keeps_pmids_unique_witness :
  NoDup (pmid <$> [Sample.record_of "31" "2023"; Sample.record_of "32" "2023"]).
Proof.
  pose (file := Some {| DataRetrieval.completed_years := [];
                        DataRetrieval.records := [Sample.record_of "31" "2023"] |}).
  refine (run_keeps_pmids_unique Sample.two_id_world file 2023 (Some 2023)
            (_, [Sample.record_of "31" "2023"; Sample.record_of "32" "2023"])
            _ _ _).
  - assert (Hnew : filter (fun p => p ∉ (list_to_set [lit "31"] : gset str))
                     [lit "31"; lit "32"] = [lit "32"]).
    { rewrite filter_cons_False
        by (intros Hn; apply Hn, elem_of_list_to_set, list_elem_of_here).
      rewrite filter_cons_True; [reflexivity|].
      rewrite elem_of_list_to_set. intros Hin.
      apply list_elem_of_singleton in Hin. discriminate Hin. }
    unfold Spec.fetches_as_asked.
    replace (range 2023
               (DataRetrieval.effective_end_year Sample.two_id_world (Some 2023) + 1))
      with [2023] by reflexivity.
    assert (Hdone : 2023 ∉ (list_to_set
                              (DataRetrieval.completed_years
                                 (DataRetrieval._load_data file)) : gset Z))
      by (rewrite elem_of_list_to_set; apply not_elem_of_nil).
    rewrite (bool_decide_eq_false_2 _ Hdone). cbn [andb].
    replace (DataRetrieval.outcome
               (DataRetrieval._search_year Sample.two_id_world 2023 3))
      with (Ok [lit "31"; lit "32"] : result (list str)) by reflexivity.
    cbn [file DataRetrieval._load_data DataRetrieval.records fmap list_fmap pmid
         Sample.record_of].
    rewrite Hnew. split; [|exact I].
    intros got Hgot. vm_compute in Hgot. injection Hgot as <-. split.
    + apply NoDup_singleton.
    + intros rec ->%list_elem_of_singleton. apply list_elem_of_here.
  - apply NoDup_singleton.
  - vm_compute. reflexivity.
Defined.

(** ** The name of the cache file (data_retrieval.py) *)

Section TermFile.
Import DataRetrieval.

Lemma replace_char_eq a b s1 :
  forall s2,
    replace_char a b s1 = replace_char a b s2
    <-> Forall2 (fun x y => x = y \/ ((x = a \/ x = b) /\ (y = a \/ y = b))) s1 s2.
Proof.
  unfold replace_char.
  induction s1 as [|x s1 IH]; intros [|y s2]; cbn.
  - split; [constructor|reflexivity].
  - split; [discriminate|]. intros H. inversion H.
  - split; [discriminate|]. intros H. inversion H.
  - split.
    + intros [= Hxy Hrest]. constructor; [|now apply IH].
      destruct (N.eqb_spec x a), (N.eqb_spec y a); subst; auto.
    + intros H. inversion H as [|? ? ? ? Hxy Hrest]; subst.
      f_equal; [|now apply IH].
      destruct (N.eqb_spec x a), (N.eqb_spec y a); subst;
        try reflexivity; destruct Hxy as [?|[[?|?] [?|?]]]; congruence.
Qed.

Lemma replace_char_absent a b s : a <> b -> a ∉ replace_char a b s.
Proof.
  intros Hab (x & Hx & _)%list_elem_of_fmap.
  destruct (N.eqb_spec x a); congruence.
Qed.

Lemma elem_replace_char a b s c : c ∈ replace_char a b s -> c = b \/ c ∈ s.
Proof.
  intros (x & -> & Hx)%list_elem_of_fmap. destruct (N.eqb_spec x a); auto.
Qed.

Lemma elem_lstrip_char c s x : x ∈ lstrip_char c s -> x ∈ s.
Proof.
  induction s as [|y s IH]; cbn; [auto|].
  destruct (y =? c)%N; [|auto]. intros H. now apply list_elem_of_further, IH.
Qed.

Lemma lstrip_char_length c s : (length (lstrip_char c s) <= length s)%nat.
Proof.
  induction s as [|y s IH]; cbn; [lia|]. destruct (y =? c)%N; cbn; lia.
Qed.

Lemma lstrip_char_id c s : head s <> Some c -> lstrip_char c s = s.
Proof.
  destruct s as [|y s]; [reflexivity|]. cbn. intros Hh.
  destruct (N.eqb_spec y c) as [->|_]; [now destruct Hh|reflexivity].
Qed.

Lemma elem_split_parts sep s x :
  (x ∈ (split_parts sep s).1 -> x ∈ s)
  /\ forall p, p ∈ (split_parts sep s).2 -> x ∈ p -> x ∈ s.
Proof.
  induction s as [|c s [IH1 IH2]]; cbn.
  - split; [auto|]. intros p Hp. now apply elem_of_nil in Hp.
  - destruct (split_parts sep s) as [q qs]. cbn [fst snd] in *.
    destruct (c =? sep)%N; cbn [fst snd].
    + split; [intros H; now apply elem_of_nil in H|].
      intros p [->|Hp]%elem_of_cons Hx; apply list_elem_of_further; eauto.
    + split.
      * intros [->|Hx]%elem_of_cons;
          [apply list_elem_of_here|apply list_elem_of_further; auto].
      * intros p Hp Hx. apply list_elem_of_further. eauto.
Qed.

Lemma elem_components rel p x : p ∈ components rel -> x ∈ p -> x ∈ rel.
Proof.
  unfold components, split. intros [_ Hp]%list_elem_of_filter.
  pose proof (elem_split_parts slash rel x) as [H1 H2].
  destruct (split_parts slash rel) as [q qs]. cbn [fst snd] in *.
  apply elem_of_cons in Hp as [->|Hp]; eauto.
Qed.

Lemma split_absent sep s : sep ∉ s -> split sep s = [s].
Proof.
  unfold split. induction s as [|c s IH]; cbn; [reflexivity|]. intros Hs.
  assert (Hrest : sep ∉ s) by (intros H; apply Hs; now apply list_elem_of_further).
  specialize (IH Hrest). destruct (split_parts sep s) as [q qs].
  injection IH as -> ->.
  destruct (N.eqb_spec c sep) as [->|_]; [|reflexivity].
  destruct Hs. apply list_elem_of_here.
Qed.

(** The root that [splitroot] gives is empty, one slash or two. *)
Lemma splitroot_cases part :
  exists root,
    splitroot part = (root, lstrip_char slash part)
    /\ (root = [] \/ root = [slash] \/ root = [slash; slash]).
Proof.
  unfold splitroot.
  destruct (length part - length (lstrip_char slash part))%nat as [|[|[|k]]];
    eexists; split; try reflexivity; auto.
Qed.

Lemma splitroot_rooted s :
  exists root,
    splitroot (slash :: s) = (root, lstrip_char slash s)
    /\ (root = [slash] \/ root = [slash; slash]).
Proof.
  unfold splitroot. cbn [lstrip_char]. rewrite N.eqb_refl. cbn [length].
  pose proof (lstrip_char_length slash s) as Hlen.
  destruct (S (length s) - length (lstrip_char slash s))%nat
    as [|[|[|k]]] eqn:Ek; [lia|eauto..].
Qed.

(** Joining a key that is one plain component. *)
Lemma truediv_plain base key :
  slash ∉ key -> key <> [] -> key <> [dot] -> truediv base key = base ++ [key].
Proof.
  intros Hs Hne Hdot. unfold truediv, splitroot.
  rewrite lstrip_char_id.
  - rewrite Nat.sub_diag. unfold components. rewrite (split_absent _ _ Hs).
    now rewrite filter_cons_True, filter_nil by auto.
  - destruct key as [|c key]; [discriminate|]. cbn. intros [= ->].
    apply Hs, list_elem_of_here.
Qed.

(** The string that [_term_file] joins to [DATA_DIR]. *)
Lemma term_key_facts t :
  let key := replace_char space underscore t ++ lit ".json" in
  (space ∉ key) /\ (slash ∉ t -> slash ∉ key) /\ key <> [] /\ key <> [dot].
Proof.
  cbn zeta. split_and!.
  - intros [H|H]%elem_of_app.
    + now apply replace_char_absent in H.
    + vm_compute in H. repeat (apply elem_of_cons in H as [H|H]; [discriminate|]).
      now apply elem_of_nil in H.
  - intros Ht [H|H]%elem_of_app.
    + apply elem_replace_char in H as [H|H]; [discriminate|auto].
    + vm_compute in H. repeat (apply elem_of_cons in H as [H|H]; [discriminate|]).
      now apply elem_of_nil in H.
  - intros H. apply (f_equal length) in H. rewrite length_app in H.
    cbn in H. lia.
  - intros H. apply (f_equal length) in H. rewrite length_app in H.
    cbn in H. lia.
Qed.

(** X8: no component of the path of a term's cache file contains a
    space, and terms that differ only at positions where each of them
    has a space or an underscore have the same path.  For terms
    without a slash the path is the one file of that name inside
    DATA_DIR, and two such terms have the same path only if they
    differ in that way.  A term that begins with a slash has an
    absolute path: DATA_DIR is dropped. *)
Theorem term_file_collisions t1 t2 :
  let alike := Forall2 (fun x y =>
                          x = y
                          \/ ((x = space \/ x = underscore)
                              /\ (y = space \/ y = underscore))) in
  (forall part, part ∈ _term_file t1 -> space ∉ part)
  /\ (alike t1 t2 -> _term_file t1 = _term_file t2)
  /\ ((slash ∉ t1) ->
      _term_file t1
      = Config.DATA_DIR ++ [replace_char space underscore t1 ++ lit ".json"])
  /\ ((slash ∉ t1) -> (slash ∉ t2) ->
      _term_file t1 = _term_file t2 -> alike t1 t2)
  /\ (head t1 = Some slash ->
      exists root rest,
        _term_file t1 = root :: rest /\ (root = [slash] \/ root = [slash; slash])).
Proof.
  assert (Hplain : forall t, slash ∉ t ->
            _term_file t
            = Config.DATA_DIR ++ [replace_char space underscore t ++ lit ".json"]).
  { intros t Ht. unfold _term_file. cbn zeta.
    destruct (term_key_facts t) as (_ & Hs & Hne & Hdot).
    now apply truediv_plain; auto. }
  cbn zeta. split_and!.
  - intros part. unfold _term_file, truediv. cbn zeta.
    destruct (term_key_facts t1) as (Hsp & _).
    destruct (splitroot_cases (replace_char space underscore t1 ++ lit ".json"))
      as (root & -> & Hroot).
    assert (Hcomp : forall q, q ∈ components
              (lstrip_char slash (replace_char space underscore t1 ++ lit ".json")) ->
              space ∉ q).
    { intros q Hq Hx. apply Hsp.
      eapply elem_lstrip_char, elem_components; eassumption. }
    destruct Hroot as [-> | [-> | ->]].
    + intros [Hd|Hq]%elem_of_app; [|now apply Hcomp].
      vm_compute in Hd. apply list_elem_of_singleton in Hd as ->.
      intros H. repeat (apply elem_of_cons in H as [H|H]; [discriminate|]).
      now apply elem_of_nil in H.
    + intros [->|Hq]%elem_of_cons; [|now apply Hcomp].
      intros H. apply list_elem_of_singleton in H. discriminate H.
    + intros [->|Hq]%elem_of_cons; [|now apply Hcomp].
      intros H. repeat (apply elem_of_cons in H as [H|H]; [discriminate|]).
      now apply elem_of_nil in H.
  - intros Ha%replace_char_eq. unfold _term_file. cbn zeta. now rewrite Ha.
  - apply Hplain.
  - intros H1 H2. rewrite (Hplain t1 H1), (Hplain t2 H2).
    intros Heq%app_inv_head. injection Heq as Heq.
    apply app_inv_tail in Heq. now apply replace_char_eq.
  - intros Hh. destruct t1 as [|c t1]; [discriminate|]. injection Hh as ->.
    unfold _term_file, truediv. cbn zeta.
    change (replace_char space underscore (slash :: t1) ++ lit ".json")
      with (slash :: (replace_char space underscore t1 ++ lit ".json")).
    destruct (splitroot_rooted (replace_char space underscore t1 ++ lit ".json"))
      as (root & -> & Hroot).
    destruct Hroot as [-> | ->]; eauto.
Qed.

(** The terms "breast cancer" and "breast_cancer": one file. *)
Lemma term_file_collisions_witness :
  _term_file (lit "breast cancer") = _term_file (lit "breast_cancer")
  /\ _term_file (lit "breast cancer") = [lit "data"; lit "breast_cancer.json"].
Proof.
  destruct (term_file_collisions (lit "breast cancer") (lit "breast_cancer"))
    as (_ & Hsame & Hplain & _).
  split.
  - apply Hsame. vm_compute.
    repeat (constructor;
            [first [left; reflexivity
                   |right; split; [left|right]; reflexivity]|]).
    constructor.
  - apply Hplain. vm_compute.
    intros H. repeat (apply elem_of_cons in H as [H|H]; [discriminate|]).
    now apply elem_of_nil in H.
Defined.

(** Two terms with slashes that are one file: the path has neither
    the empty component nor the ".". *)
Lemma term_file_slashes :
  _term_file (lit "a//b") = _term_file (lit "a/./b")
  /\ _term_file (lit "a//b") = [lit "data"; lit "a"; lit "b.json"].
Proof. split; vm_compute; reflexivity. Qed.

End TermFile.

(** ** Splitting identifiers (ner.py) *)

Section SplitFacts.
Context {ws : Whitespace}.

Lemma lstrip_suffix s : exists pre, s = pre ++ lstrip s.
Proof.
  induction s as [|c s [pre IH]]; [now exists []|].
  cbn. destruct (char_isspace c).
  - exists (c :: pre). cbn. now f_equal.
  - now exists [].
Qed.

Lemma lstrip_head s c : head (lstrip s) = Some c -> char_isspace c = false.
Proof.
  induction s as [|x s IH]; [discriminate|].
  cbn. destruct (char_isspace x) eqn:Ex; [assumption|].
  cbn. now intros [= <-].
Qed.

Lemma lstrip_last s c : last (lstrip s) = Some c -> last s = Some c.
Proof.
  destruct (lstrip_suffix s) as [pre Hs]. intros Hl.
  rewrite Hs, last_app, Hl. reflexivity.
Qed.

Lemma elem_lstrip s c : c ∈ lstrip s -> c ∈ s.
Proof.
  destruct (lstrip_suffix s) as [pre Hs]. intros Hc.
  rewrite Hs. apply elem_of_app. now right.
Qed.

Lemma strip_head s c : head (strip s) = Some c -> char_isspace c = false.
Proof.
  unfold strip. rewrite head_reverse.
  intros Hl%lstrip_last. rewrite last_reverse in Hl.
  now apply lstrip_head in Hl.
Qed.

Lemma strip_last s c : last (strip s) = Some c -> char_isspace c = false.
Proof. unfold strip. rewrite last_reverse. apply lstrip_head. Qed.

Lemma elem_strip s c : c ∈ strip s -> c ∈ s.
Proof.
  unfold strip. rewrite elem_of_reverse.
  intros Hc%elem_lstrip. rewrite elem_of_reverse in Hc.
  now apply elem_lstrip.
Qed.

Lemma split_parts_spec sep s :
  (sep ∉ (split_parts sep s).1)
  /\ forall p, p ∈ (split_parts sep s).2 -> sep ∉ p.
Proof.
  induction s as [|c s [IH1 IH2]]; cbn.
  - split; [apply not_elem_of_nil|]. intros p Hp. now apply elem_of_nil in Hp.
  - destruct (split_parts sep s) as [p ps]. cbn [fst snd] in *.
    destruct (N.eqb_spec c sep) as [->|Hne]; cbn [fst snd].
    + split; [apply not_elem_of_nil|].
      intros q [->|Hq]%elem_of_cons; auto.
    + split; [|assumption].
      intros [?|?]%elem_of_cons; [congruence|auto].
Qed.

Lemma elem_split sep s p : p ∈ split sep s -> sep ∉ p.
Proof.
  unfold split. pose proof (split_parts_spec sep s) as [H1 H2].
  destruct (split_parts sep s) as [q qs]. cbn [fst snd] in *.
  intros [->|Hp]%elem_of_cons; auto.
Qed.

Lemma elem_split_on sep identifier p :
  p ∈ Ner.split_on sep identifier ->
  p <> [] /\ (sep ∉ p)
  /\ (forall c, head p = Some c -> char_isspace c = false)
  /\ (forall c, last p = Some c -> char_isspace c = false).
Proof.
  unfold Ner.split_on.
  intros (q & -> & [Hne Hq]%list_elem_of_filter)%list_elem_of_fmap.
  split_and!; [assumption| |apply strip_head|apply strip_last].
  intros Hsep%elem_strip. now apply elem_split in Hq.
Qed.

End SplitFacts.

Section SplitClaims.
Context {ws : Whitespace}.

(** X9: every part [_split_ids] returns has no whitespace at its
    start or end.  When the identifier contains a semicolon, the
    parts are not empty and contain no semicolon (commas are left
    inside them); when it contains a comma and no semicolon, the
    parts are not empty and contain no comma; when it contains
    neither, the only part is the stripped identifier, which can be
    empty. *)
Theorem split_ids_parts identifier p :
  p ∈ Ner._split_ids identifier ->
  (forall c, head p = Some c -> char_isspace c = false)
  /\ (forall c, last p = Some c -> char_isspace c = false)
  /\ (semicolon ∈ identifier -> p <> [] /\ (semicolon ∉ p))
  /\ ((semicolon ∉ identifier) -> comma ∈ identifier ->
      p <> [] /\ (comma ∉ p))
  /\ ((semicolon ∉ identifier) -> (comma ∉ identifier) ->
      Ner._split_ids identifier = [strip identifier]).
Proof.
  unfold Ner._split_ids.
  destruct (contains_char semicolon identifier) eqn:Es.
  - apply contains_char_true in Es.
    intros (Hne & Hsep & Hh & Hl)%elem_split_on.
    split_and!; [exact Hh|exact Hl|auto|tauto|tauto].
  - apply contains_char_false in Es.
    destruct (contains_char comma identifier) eqn:Ec.
    + apply contains_char_true in Ec.
      intros (Hne & Hsep & Hh & Hl)%elem_split_on.
      split_and!; [exact Hh|exact Hl|tauto|auto|tauto].
    + apply contains_char_false in Ec.
      intros ->%list_elem_of_singleton.
      split_and!; [apply strip_head|apply strip_last|tauto|tauto|reflexivity].
Qed.

End SplitClaims.

(** The identifier "1; 2,3": split at the semicolon only. *)
Lemma split_ids_parts_witness :
  Ner._split_ids (ws := Sample.ascii_whitespace) (lit "1; 2,3")
  = [lit "1"; lit "2,3"]
  /\ lit "2,3" <> [] /\ (semicolon ∉ lit "2,3").
Proof.
  split; [vm_compute; reflexivity|].
  refine (proj1 (proj2 (proj2
            (split_ids_parts (ws := Sample.ascii_whitespace)
               (lit "1; 2,3") (lit "2,3") _))) _).
  - vm_compute. apply list_elem_of_further, list_elem_of_here.
  - vm_compute. apply list_elem_of_further, list_elem_of_here.
Defined.

(** ** Skipped pairs (graph_builder.py) *)

Section SkipFacts.
Context {rt : Runtime}.

Local Abbreviation vg := GraphBuilder.is_valid_gene_id.
Local Abbreviation vd := GraphBuilder.is_valid_disease_id.
Local Abbreviation valid q :=
  (vg (Ner.pair_gene q) = true /\ vd (Ner.pair_disease q) = true).

(** The graph of a round does not depend on the counter, and the
    counter moves by one on an invalid pair only. *)
Lemma build_step_valid G sk q :
  valid q ->
  GraphBuilder.build_step (G, sk) q
  = ((GraphBuilder.build_step (G, 0) q).1, sk).
Proof.
  destruct q as [[[pm g] d] yr]. cbn [Ner.pair_gene Ner.pair_disease fst snd].
  intros [Hg Hd]. cbn [GraphBuilder.build_step]. rewrite Hg, Hd. cbn [negb orb].
  now destruct (Nx.edge_ref _ g d).
Qed.

Lemma build_fold_split pairs :
  forall G sk,
    fold_left GraphBuilder.build_step pairs (G, sk)
    = ((fold_left GraphBuilder.build_step (filter (fun q => valid q) pairs) (G, 0)).1,
       sk + Z.of_nat (length (filter (fun q => ~ valid q) pairs))).
Proof.
  induction pairs as [|q pairs IH]; intros G sk.
  - cbn. f_equal. lia.
  - cbn [fold_left]. destruct (decide (valid q)) as [Hq|Hq].
    + rewrite (filter_cons_True (fun q => valid q)) by exact Hq.
      rewrite (filter_cons_False (fun q => ~ valid q)) by tauto.
      cbn [fold_left].
      rewrite (build_step_valid G sk q Hq), (build_step_valid G 0 q Hq).
      cbn [fst]. rewrite IH. reflexivity.
    + rewrite (filter_cons_False (fun q => valid q)) by exact Hq.
      rewrite (filter_cons_True (fun q => ~ valid q)) by exact Hq.
      rewrite build_step_invalid, IH.
      * cbn [length]. f_equal. lia.
      * destruct (vg (Ner.pair_gene q)), (vd (Ner.pair_disease q)); tauto.
Qed.

Lemma colon_not_in_digits s : colon ∈ s -> isdigit s = false.
Proof.
  intros Hc. destruct (isdigit s) eqn:E; [|reflexivity].
  apply isdigit_forall in E. rewrite List.Forall_forall in E.
  apply list_elem_of_In in Hc. apply E in Hc.
  rewrite colon_not_digit in Hc. discriminate.
Qed.

End SkipFacts.

Section SkipClaims.
Context {rt : Runtime}.

(** X10: the counter [skipped] of the builder ends at the number of
    pairs whose gene or disease identifier fails validation, and the
    graph is the one built from the valid pairs alone: an invalid
    pair leaves no trace in the graph. *)
Theorem skipped_counts_invalid_pairs pairs :
  (GraphBuilder.build_from_pairs pairs).2
  = Z.of_nat (length (filter
      (fun q => ~ (GraphBuilder.is_valid_gene_id (Ner.pair_gene q) = true
                   /\ GraphBuilder.is_valid_disease_id (Ner.pair_disease q) = true))
      pairs))
  /\ GraphBuilder.build_graph pairs
     = GraphBuilder.build_graph (filter
         (fun q => GraphBuilder.is_valid_gene_id (Ner.pair_gene q) = true
                   /\ GraphBuilder.is_valid_disease_id (Ner.pair_disease q) = true)
         pairs).
Proof.
  unfold GraphBuilder.build_graph, GraphBuilder.build_from_pairs.
  rewrite (build_fold_split pairs). cbn [fst snd]. split; [lia|].
  rewrite (build_fold_split (filter _ pairs)). cbn [fst].
  now rewrite list_filter_filter_l by tauto.
Qed.

(** X11: a pair that the extraction of ner.py returns always has a
    gene identifier the builder accepts, and the builder skips it
    exactly when its disease identifier contains a colon and starts
    with neither "MESH:" nor "OMIM:": the filter of ner.py accepts
    any prefix before the colon, the builder only these two. *)
Theorem extracted_pair_skipped_iff {si : SetIter} records ann q :
  q ∈ Ner.extract_gene_disease_pairs records ann ->
  GraphBuilder.is_valid_gene_id (Ner.pair_gene q) = true
  /\ (GraphBuilder.is_valid_disease_id (Ner.pair_disease q) = false
      <-> colon ∈ Ner.pair_disease q
          /\ startswith (lit "MESH:") (Ner.pair_disease q) = false
          /\ startswith (lit "OMIM:") (Ner.pair_disease q) = false).
Proof.
  intros (p & t & _ & (g & d & -> & Hg & Hd)%elem_doc_pairs)%elem_extract.
  apply elem_gene_set in Hg as [Hg _]. apply elem_disease_set in Hd as [Hd _].
  cbn [Ner.pair_gene Ner.pair_disease fst snd]. split; [exact Hg|].
  unfold GraphBuilder.is_valid_disease_id.
  unfold Ner.keep_disease in Hd.
  destruct (contains_char colon d) eqn:Ec.
  - apply contains_char_true in Ec.
    assert (Hno : startswith (lit "D") d && isdigit (slice_from_1 d) = false).
    { destruct d as [|c rest]; [reflexivity|].
      cbn [slice_from_1 tail].
      apply elem_of_cons in Ec as [<-|Ec]; [reflexivity|].
      rewrite (colon_not_in_digits rest Ec). apply andb_false_r. }
    rewrite Hno, orb_false_r, orb_false_iff. tauto.
  - rewrite Hd, orb_true_r. apply contains_char_false in Ec.
    split; [discriminate|tauto].
Qed.

End SkipClaims.

(** A document tagged with the gene "1" and the disease
    "DOID:14330". *)
Lemma extracted_pair_skipped_iff_witness :
  let rt := Sample.ascii_runtime in
  GraphBuilder.is_valid_gene_id (lit "1") = true
  /\ GraphBuilder.is_valid_disease_id (lit "DOID:14330") = false.
Proof.
  intros rt.
  pose proof (extracted_pair_skipped_iff (rt := rt) (si := Sample.elements_iter)
                [] [(lit "77", {| Ner.genes := [Sample.span "1"];
                                  Ner.diseases := [Sample.span "DOID:14330"] |})]
                (lit "77", lit "1", lit "DOID:14330", lit "")) as H.
  destruct H as [Hg Hd].
  - vm_compute. apply list_elem_of_here.
  - split; [exact Hg|]. apply Hd. split_and!.
    + vm_compute. do 4 apply list_elem_of_further. apply list_elem_of_here.
    + reflexivity.
    + reflexivity.
Defined.

(** ** Nodes and edges of the built graph (graph_builder.py) *)

Section EdgeListFacts.

Lemma get_Some_elem {K V} `{EqDecision K} (k : K) (v : V) d :
  Dict.get k d = Some v -> (k, v) ∈ d.
Proof.
  induction d as [|[k' v'] d IH]; [discriminate|]. cbn.
  destruct (decide (k = k')) as [->|Hne].
  - intros [= ->]. apply list_elem_of_here.
  - intros Hg. apply list_elem_of_further. auto.
Qed.

Variable G : Nx.Graph.

(** A triple listed from the adjacency entries [a] starts at a key of
    [a] and ends outside [seen]. *)
Lemma edges_from_ends seen a u v attrs :
  (u, v, attrs) ∈ Nx.edges_from G seen a -> u ∈ a.*1 /\ (v ∉ seen).
Proof.
  revert seen. induction a as [|[n ns] a IH]; intros seen Hin; cbn in Hin.
  - now apply elem_of_nil in Hin.
  - apply elem_of_app in Hin as [Hin|Hin].
    + apply list_elem_of_fmap in Hin as ([nbr r] & [= -> -> ->] & Hin).
      apply list_elem_of_filter in Hin as [Hseen _].
      split; [apply list_elem_of_here|exact Hseen].
    + apply IH in Hin as [Hu Hv]. split.
      * now apply list_elem_of_further.
      * intros Hs. apply Hv. now apply list_elem_of_further.
Qed.

(** No edge is listed in both directions. *)
Lemma edges_from_one_way seen a u v attrs attrs' :
  (u, v, attrs) ∈ Nx.edges_from G seen a ->
  (v, u, attrs') ∈ Nx.edges_from G seen a ->
  u = v.
Proof.
  revert seen. induction a as [|[n ns] a IH]; intros seen H1 H2; cbn in H1, H2.
  - now apply elem_of_nil in H1.
  - apply elem_of_app in H1 as [H1|H1]; apply elem_of_app in H2 as [H2|H2].
    + apply list_elem_of_fmap in H1 as ([? ?] & [= -> -> ->] & _).
      apply list_elem_of_fmap in H2 as ([? ?] & [= -> _ _] & _). reflexivity.
    + apply list_elem_of_fmap in H1 as ([? ?] & [= -> -> ->] & _).
      apply edges_from_ends in H2 as [_ Hn]. exfalso. apply Hn, list_elem_of_here.
    + apply list_elem_of_fmap in H2 as ([? ?] & [= -> -> ->] & _).
      apply edges_from_ends in H1 as [_ Hn]. exfalso. apply Hn, list_elem_of_here.
    + exact (IH _ H1 H2).
Qed.

(** No ordered pair of endpoints is listed twice. *)
Lemma edges_from_NoDup seen a :
  NoDup a.*1 ->
  (forall n ns, (n, ns) ∈ a -> NoDup ns.*1) ->
  NoDup ((fun e : str * str * Nx.EdgeAttrs => e.1) <$> Nx.edges_from G seen a).
Proof.
  revert seen. induction a as [|[n ns] a IH]; intros seen Hnd Hnbrs; cbn.
  - constructor.
  - cbn in Hnd. apply NoDup_cons in Hnd as [Hn Hnd].
    rewrite fmap_app. apply NoDup_app. split_and!.
    + rewrite <- list_fmap_compose.
      rewrite (list_fmap_ext _ (pair n ∘ fst) (filter (fun e => e.1 ∉ seen) ns))
        by (intros i [nbr r] _; reflexivity).
      rewrite list_fmap_compose. apply (NoDup_fmap_2 (pair n)).
      apply (sublist_NoDup _ ns.*1).
      * apply (Hnbrs n), list_elem_of_here.
      * apply fmap_sublist, sublist_filter.
    + intros [x y] Hin Hin'.
      apply list_elem_of_fmap in Hin as ([[? ?] ?] & [= -> ->] & Hin).
      apply list_elem_of_fmap in Hin as ([? ?] & [= -> -> ->] & _).
      apply list_elem_of_fmap in Hin' as ([[? ?] ?] & [= <- <-] & Hin').
      apply edges_from_ends in Hin' as [Hk _]. contradiction.
    + apply IH; [exact Hnd|].
      intros n' ns' Hin. apply (Hnbrs n'). now apply list_elem_of_further.
Qed.

(** An edge whose two endpoints are still to come is listed, from
    the endpoint that comes first. *)
Lemma edges_from_complete seen a u v r :
  (forall n ns, (n, ns) ∈ a -> Dict.get n (Nx.adj G) = Some ns) ->
  u ∈ a.*1 -> v ∈ a.*1 -> (u ∉ seen) -> (v ∉ seen) ->
  Nx.edge_ref G u v = Some r -> Nx.edge_ref G v u = Some r ->
  (u, v, Nx.deref G r) ∈ Nx.edges_from G seen a
  \/ (v, u, Nx.deref G r) ∈ Nx.edges_from G seen a.
Proof.
  revert seen. induction a as [|[n ns] a IH];
    intros seen Hsub Hu Hv Hus Hvs Huv Hvu.
  - now apply elem_of_nil in Hu.
  - assert (Hhere : forall x y, n = x -> (y ∉ seen) -> Nx.edge_ref G x y = Some r ->
              (x, y, Nx.deref G r) ∈ Nx.edges_from G seen ((n, ns) :: a)).
    { intros x y <- Hy Hr. cbn. apply elem_of_app. left.
      apply list_elem_of_fmap. exists (y, r). split; [reflexivity|].
      apply list_elem_of_filter. split; [exact Hy|].
      unfold Nx.edge_ref, Nx.ref_in in Hr.
      rewrite (Hsub n ns) in Hr by apply list_elem_of_here. cbn in Hr.
      now apply get_Some_elem. }
    destruct (decide (n = u)) as [Hnu|Hnu]; [left; now apply Hhere|].
    destruct (decide (n = v)) as [Hnv|Hnv]; [right; now apply Hhere|].
    cbn in Hu, Hv.
    apply elem_of_cons in Hu as [Hu|Hu]; [congruence|].
    apply elem_of_cons in Hv as [Hv|Hv]; [congruence|].
    destruct (IH (n :: seen)) as [Hin|Hin]; try assumption.
    + intros n' ns' Hin. apply Hsub. now apply list_elem_of_further.
    + intros [?|?]%elem_of_cons; [congruence|auto].
    + intros [?|?]%elem_of_cons; [congruence|auto].
    + left. cbn. apply elem_of_app. now right.
    + right. cbn. apply elem_of_app. now right.
Qed.

End EdgeListFacts.

Section GraphShape.
Context {rt : Runtime}.

Local Abbreviation vg := GraphBuilder.is_valid_gene_id.
Local Abbreviation vd := GraphBuilder.is_valid_disease_id.
Local Abbreviation valid q :=
  (vg (Ner.pair_gene q) = true /\ vd (Ner.pair_disease q) = true).

Lemma has_node_touch n G x :
  Nx.has_node (Nx.touch_node n G) x = true <-> x = n \/ Nx.has_node G x = true.
Proof.
  unfold Nx.has_node, Nx.touch_node.
  destruct (Dict.mem n (Nx.node G)) eqn:E; cbn [Nx.node].
  - rewrite !mem_true. apply mem_true in E. split; [tauto|].
    intros [->|?]; assumption.
  - now rewrite !mem_true, elem_of_keys_set.
Qed.

Lemma node_add_edge u v ps ys G :
  Nx.node (Nx.add_edge u v ps ys G)
  = Nx.node (Nx.touch_node v (Nx.touch_node u G)).
Proof. unfold Nx.add_edge. now destruct (Nx.edge_ref _ u v). Qed.

(** The nodes after one round of the builder. *)
Lemma has_node_step G sk q x :
  Nx.has_node (GraphBuilder.build_step (G, sk) q).1 x = true
  <-> Nx.has_node G x = true
      \/ (valid q /\ (x = Ner.pair_gene q \/ x = Ner.pair_disease q)).
Proof.
  destruct (decide (valid q)) as [Hq|Hq]; cycle 1.
  { rewrite build_step_invalid; [cbn [fst]; tauto|].
    destruct (vg (Ner.pair_gene q)), (vd (Ner.pair_disease q)); tauto. }
  destruct q as [[[pm g] d] yr]. cbn [Ner.pair_gene Ner.pair_disease fst snd] in *.
  destruct Hq as [Hg Hd].
  cbn [GraphBuilder.build_step]. rewrite Hg, Hd. cbn [negb orb].
  set (G1 := if negb (Nx.has_node G g) then Nx.add_node g (lit "gene") G else G).
  assert (H1 : forall y, Nx.has_node G1 y = true <-> y = g \/ Nx.has_node G y = true).
  { intros y. unfold G1. destruct (Nx.has_node G g) eqn:E; cbn [negb].
    - split; [tauto|]. intros [->|?]; assumption.
    - apply has_node_add_node. }
  set (G2 := if negb (Nx.has_node G1 d) then Nx.add_node d (lit "disease") G1 else G1).
  assert (H2 : forall y, Nx.has_node G2 y = true <-> y = d \/ Nx.has_node G1 y = true).
  { intros y. unfold G2. destruct (Nx.has_node G1 d) eqn:E; cbn [negb].
    - split; [tauto|]. intros [->|?]; assumption.
    - apply has_node_add_node. }
  assert (Hx : Nx.has_node G2 x = true
               <-> Nx.has_node G x = true
                   \/ ((true = true /\ true = true) /\ (x = g \/ x = d))).
  { rewrite H2, H1. tauto. }
  destruct (Nx.edge_ref G2 g d) as [r|]; cbn [fst]; [exact Hx|].
  unfold Nx.has_node. rewrite node_add_edge. fold (Nx.has_node
    (Nx.touch_node d (Nx.touch_node g G2)) x).
  rewrite !has_node_touch, Hx. tauto.
Qed.

Lemma has_node_fold pairs :
  forall G sk x,
    Nx.has_node (fold_left GraphBuilder.build_step pairs (G, sk)).1 x = true
    <-> Nx.has_node G x = true
        \/ exists q, q ∈ pairs /\ valid q
             /\ (x = Ner.pair_gene q \/ x = Ner.pair_disease q).
Proof.
  induction pairs as [|q pairs IH]; intros G sk x; cbn [fold_left fst].
  - split; [tauto|]. intros [?|(q & Hq%elem_of_nil & _)]; tauto.
  - destruct (GraphBuilder.build_step (G, sk) q) as [G' sk'] eqn:E.
    rewrite IH. pose proof (has_node_step G sk q x) as Hs.
    rewrite E in Hs. cbn [fst] in Hs. rewrite Hs. split.
    + intros [[?|[? ?]]|(q' & ? & ? & ?)]; [tauto| |].
      * right. exists q. split; [apply list_elem_of_here|tauto].
      * right. exists q'. split; [now apply list_elem_of_further|tauto].
    + intros [?|(q' & [->|?]%elem_of_cons & ? & ?)]; [tauto|tauto|].
      right. exists q'. tauto.
Qed.

Lemma evidence_in q pairs :
  q ∈ pairs ->
  Spec.evidence (Ner.pair_gene q) (Ner.pair_disease q) pairs <> [].
Proof.
  intros Hq He.
  assert (Hin : q ∈ Spec.evidence (Ner.pair_gene q) (Ner.pair_disease q) pairs)
    by (apply list_elem_of_filter; auto).
  rewrite He in Hin. now apply elem_of_nil in Hin.
Qed.

Lemma evidence_elem g d pairs :
  Spec.evidence g d pairs <> [] ->
  exists q, q ∈ pairs /\ Ner.pair_gene q = g /\ Ner.pair_disease q = d.
Proof.
  destruct (Spec.evidence g d pairs) as [|q ev] eqn:E; [congruence|]. intros _.
  assert (Hin : q ∈ Spec.evidence g d pairs) by (rewrite E; apply list_elem_of_here).
  apply list_elem_of_filter in Hin as [[? ?] ?]. eauto.
Qed.

(** X12: the nodes of the built graph are exactly the gene and
    disease identifiers of the valid pairs, and none of them is
    isolated: every node has an edge. *)
Theorem graph_nodes_are_pair_ends pairs :
  let G := GraphBuilder.build_graph pairs in
  (forall n, Nx.has_node G n = true <->
     exists q, q ∈ pairs
       /\ GraphBuilder.is_valid_gene_id (Ner.pair_gene q) = true
       /\ GraphBuilder.is_valid_disease_id (Ner.pair_disease q) = true
       /\ (n = Ner.pair_gene q \/ n = Ner.pair_disease q))
  /\ (forall n, Nx.has_node G n = true -> exists v, Nx.has_edge G n v = true).
Proof.
  intros G.
  assert (Hnodes : forall n, Nx.has_node G n = true <->
            exists q, q ∈ pairs /\ valid q
              /\ (n = Ner.pair_gene q \/ n = Ner.pair_disease q)).
  { intros n. unfold G, GraphBuilder.build_graph, GraphBuilder.build_from_pairs.
    rewrite has_node_fold. split; [|auto]. intros [Hn|?]; [|assumption].
    discriminate Hn. }
  split.
  - intros n. rewrite Hnodes. split.
    + intros (q & ? & [? ?] & ?). exists q. auto.
    + intros (q & ? & ? & ? & ?). exists q. auto.
  - intros n (q & Hq & [Hg Hd] & Hn)%Hnodes.
    pose proof (built_build_graph pairs) as HB. fold G in HB.
    destruct (Spec.built_complete _ _ HB _ _ Hg Hd (evidence_in q pairs Hq))
      as [r Hr].
    destruct Hn as [-> | ->].
    + exists (Ner.pair_disease q). unfold Nx.has_edge.
      apply bool_decide_eq_true. now exists r.
    + exists (Ner.pair_gene q). unfold Nx.has_edge.
      apply bool_decide_eq_true. exists r. now apply (Spec.built_sym _ _ HB).
Qed.

Section BuiltEdges.
Variable pairs : list Ner.pair.
Variable G : Nx.Graph.
Hypothesis HB : Spec.built pairs G.

Lemma built_edges_NoDup :
  NoDup ((fun e : str * str * Nx.EdgeAttrs => e.1) <$> Nx.edges G).
Proof.
  apply edges_from_NoDup; [apply (Spec.built_nodup _ _ HB)|].
  intros n ns Hin. apply (Spec.built_nbrs _ _ HB n).
  apply elem_get; [apply (Spec.built_nodup _ _ HB)|exact Hin].
Qed.

Lemma built_edges_ref u v a :
  (u, v, a) ∈ Nx.edges G ->
  exists r, Nx.edge_ref G u v = Some r /\ a = Nx.deref G r.
Proof.
  apply elem_edges;
    [apply (Spec.built_nodup _ _ HB)|apply (Spec.built_nbrs _ _ HB)].
Qed.

Lemma built_edges_one_way u v a a' :
  (u, v, a) ∈ Nx.edges G -> (v, u, a') ∉ Nx.edges G.
Proof.
  intros H1 H2.
  pose proof (edges_from_one_way G [] (Nx.adj G) u v a a' H1 H2) as ->.
  destruct (built_edges_ref v v a H1) as (r & Hr & _).
  destruct (Spec.built_ends _ _ HB v v r Hr) as [[Hg Hd]|[Hd Hg]];
    now apply (valid_ids_differ v v Hg Hd).
Qed.

Lemma built_edges_all g d :
  vg g = true -> vd d = true -> Spec.evidence g d pairs <> [] ->
  exists a, (g, d, a) ∈ Nx.edges G \/ (d, g, a) ∈ Nx.edges G.
Proof.
  intros Hg Hd Hev.
  destruct (Spec.built_complete _ _ HB g d Hg Hd Hev) as [r Hr].
  pose proof (Spec.built_sym _ _ HB g d r Hr) as Hr'.
  exists (Nx.deref G r).
  apply (edges_from_complete G [] (Nx.adj G) g d r); try assumption.
  - intros n ns Hin. apply elem_get; [apply (Spec.built_nodup _ _ HB)|exact Hin].
  - apply (aref_Some_key _ g d r Hr).
  - apply (aref_Some_key _ d g r Hr').
  - apply not_elem_of_nil.
  - apply not_elem_of_nil.
Qed.

(** A listed edge, gene first: its endpoints are valid and its
    attributes are those of the pairs of this gene and disease. *)
Lemma built_edges_kind e :
  e ∈ Nx.edges G ->
  let '(g, d) := Spec.gene_first e in
  vg g = true /\ vd d = true
  /\ Spec.evidence g d pairs <> []
  /\ e.2 = {| Nx.pmids := Ner.pair_pmid <$> Spec.evidence g d pairs;
              Nx.years := Ner.pair_year <$> Spec.evidence g d pairs |}
  /\ TemporalAnalysis.orient G e.1.1 e.1.2 = Ok (Some (g, d)).
Proof.
  destruct e as [[u v] a]. intros (r & Hr & ->)%built_edges_ref.
  unfold Spec.gene_first. cbn [fst snd].
  assert (Hgene : forall x y, vg x = true -> vd y = true ->
            Nx.edge_ref G x y = Some r ->
            Spec.evidence x y pairs <> []
            /\ Nx.deref G r
               = {| Nx.pmids := Ner.pair_pmid <$> Spec.evidence x y pairs;
                    Nx.years := Ner.pair_year <$> Spec.evidence x y pairs |}).
  { intros x y Hx Hy Hxy.
    destruct (Spec.built_evidence _ _ HB x y r Hx Hxy) as [Hne Hl].
    split; [exact Hne|]. unfold Nx.deref. now rewrite Hl. }
  unfold TemporalAnalysis.orient.
  rewrite (built_node_type pairs G u v r HB Hr).
  rewrite (built_node_type pairs G v u r HB (Spec.built_sym _ _ HB u v r Hr)).
  cbn [mbind result_bind].
  destruct (Spec.built_ends _ _ HB u v r Hr) as [[Hg Hd]|[Hd Hg]].
  - rewrite Hg. destruct (Hgene u v Hg Hd Hr) as [Hne Ha].
    destruct (vg v) eqn:Hgv; [apply valid_ids_disjoint in Hgv; congruence|].
    split_and!; try assumption; reflexivity.
  - destruct (vg u) eqn:Hgu; [apply valid_ids_disjoint in Hgu; congruence|].
    rewrite Hg.
    destruct (Hgene v u Hg Hd (Spec.built_sym _ _ HB u v r Hr)) as [Hne Ha].
    split_and!; try assumption; reflexivity.
Qed.

Lemma built_ends_NoDup : NoDup (Spec.gene_first <$> Nx.edges G).
Proof.
  apply NoDup_fmap_2_strong; [|apply (NoDup_fmap_1 _ _ built_edges_NoDup)].
  intros [[u1 v1] a1] [[u2 v2] a2] H1 H2 Heq.
  pose proof (built_edges_kind _ H1) as K1.
  pose proof (built_edges_kind _ H2) as K2.
  rewrite <- Heq in K2. unfold Spec.gene_first in Heq. cbn [fst snd] in Heq.
  destruct (Spec.gene_first (u1, v1, a1)) as [g d].
  cbn [fst snd] in K1, K2.
  destruct K1 as (_ & _ & _ & -> & _), K2 as (_ & _ & _ & -> & _).
  destruct (vg u1), (vg u2); injection Heq as <- <-; try reflexivity.
  - exfalso. eapply built_edges_one_way; eassumption.
  - exfalso. eapply built_edges_one_way; eassumption.
Qed.

Lemma elem_built_ends g d :
  (g, d) ∈ Spec.gene_first <$> Nx.edges G
  <-> vg g = true /\ vd d = true /\ Spec.evidence g d pairs <> [].
Proof.
  rewrite list_elem_of_fmap. split.
  - intros (e & Heq & Hin). pose proof (built_edges_kind e Hin) as K.
    rewrite <- Heq in K. tauto.
  - intros (Hg & Hd & Hev).
    destruct (built_edges_all g d Hg Hd Hev) as (a & [Hin|Hin]).
    + eexists. split; [|exact Hin]. unfold Spec.gene_first. cbn [fst snd].
      now rewrite Hg.
    + eexists. split; [|exact Hin]. unfold Spec.gene_first. cbn [fst snd].
      destruct (vg d) eqn:E; [|reflexivity].
      apply valid_ids_disjoint in E. congruence.
Qed.

End BuiltEdges.

(** X13: [G.edges] of the built graph lists every gene-disease
    pair that has a valid input pair exactly once: no ordered pair of
    endpoints occurs twice, no edge occurs in both directions, every
    gene and disease with a valid pair are joined, and so the number
    of edges is the number of distinct (gene, disease) combinations
    among the valid pairs. *)
Theorem graph_edges_listed_once pairs :
  let G := GraphBuilder.build_graph pairs in
  NoDup ((fun e : str * str * Nx.EdgeAttrs => e.1) <$> Nx.edges G)
  /\ (forall u v a a', (u, v, a) ∈ Nx.edges G -> (v, u, a') ∉ Nx.edges G)
  /\ (forall g d,
        GraphBuilder.is_valid_gene_id g = true ->
        GraphBuilder.is_valid_disease_id d = true ->
        Spec.evidence g d pairs <> [] ->
        exists a, (g, d, a) ∈ Nx.edges G \/ (d, g, a) ∈ Nx.edges G)
  /\ length (Nx.edges G)
     = size (list_to_set
               ((fun q => (Ner.pair_gene q, Ner.pair_disease q)) <$>
                  filter (fun q =>
                            GraphBuilder.is_valid_gene_id (Ner.pair_gene q) = true
                            /\ GraphBuilder.is_valid_disease_id (Ner.pair_disease q) = true)
                         pairs) : gset (str * str)).
Proof.
  intros G. pose proof (built_build_graph pairs) as HB. fold G in HB.
  split_and!.
  - exact (built_edges_NoDup pairs G HB).
  - exact (built_edges_one_way pairs G HB).
  - exact (built_edges_all pairs G HB).
  - rewrite <- (length_fmap Spec.gene_first).
    rewrite <- (size_list_to_set (C := gset (str * str)) _
                  (built_ends_NoDup pairs G HB)).
    f_equal. apply set_eq. intros [g d].
    rewrite !elem_of_list_to_set, (elem_built_ends pairs G HB).
    rewrite list_elem_of_fmap. split.
    + intros (Hg & Hd & (q & Hq & <- & <-)%evidence_elem).
      exists q. split; [reflexivity|]. apply list_elem_of_filter. auto.
    + intros (q & [= -> ->] & [[Hg Hd] Hq]%list_elem_of_filter).
      split_and!; [assumption..|]. now apply evidence_in.
Qed.

End GraphShape.

(** ** The yearly counts and the bounds of a row (temporal_analysis.py) *)

Section RowFacts.

#[local] Instance item_le_total : Total TemporalAnalysis.item_le.
Proof. intros [a1 a2] [b1 b2]. unfold TemporalAnalysis.item_le. cbn. lia. Qed.

#[local] Instance item_le_trans : Transitive TemporalAnalysis.item_le.
Proof.
  intros [a1 a2] [b1 b2] [c1 c2]. unfold TemporalAnalysis.item_le. cbn. lia.
Qed.

Lemma set_fresh {K V} `{EqDecision K} (k : K) (v : V) d :
  k ∉ d.*1 -> Dict.set k v d = d ++ [(k, v)].
Proof.
  induction d as [|[k' v'] d IH]; [reflexivity|]. cbn.
  intros Hk. apply not_elem_of_cons in Hk as [Hne Hk].
  rewrite decide_False by assumption. now rewrite IH.
Qed.

(** Building a dictionary from items of distinct keys keeps their
    order. *)
Lemma set_fold_fresh {K V} `{EqDecision K} (l : list (K * V)) :
  forall acc,
    NoDup (acc ++ l).*1 ->
    fold_left (fun d kv => Dict.set kv.1 kv.2 d) l acc = acc ++ l.
Proof.
  induction l as [|[k v] l IH]; intros acc Hnd; cbn [fold_left fst snd].
  - now rewrite app_nil_r.
  - assert (Hk : k ∉ acc.*1).
    { rewrite fmap_app in Hnd. apply NoDup_app in Hnd as (_ & Hdis & _).
      intros Hin. apply (Hdis k Hin). cbn. apply list_elem_of_here. }
    rewrite (set_fresh k v acc Hk), IH.
    + now rewrite <- app_assoc.
    + now rewrite <- app_assoc.
Qed.

Lemma sorted_items_sort cnt :
  NoDup cnt.*1 ->
  TemporalAnalysis.sorted_items cnt = merge_sort TemporalAnalysis.item_le cnt.
Proof.
  intros Hnd. unfold TemporalAnalysis.sorted_items.
  apply (set_fold_fresh _ []). cbn [app].
  now rewrite (merge_sort_Permutation TemporalAnalysis.item_le cnt).
Qed.

Lemma strictly_sorted (l : list (Z * Z)) :
  NoDup l.*1 -> StronglySorted TemporalAnalysis.item_le l ->
  StronglySorted (fun a b => a.1 < b.1) l.
Proof.
  induction l as [|a l IH]; intros Hnd Hs; [constructor|].
  cbn in Hnd. apply NoDup_cons in Hnd as [Ha Hnd].
  apply StronglySorted_inv in Hs as [Hs Hall].
  constructor; [auto|].
  rewrite List.Forall_forall in *. intros b Hb.
  destruct (Hall b Hb) as [?|[Heq _]]; [assumption|].
  exfalso. apply Ha. rewrite Heq. apply list_elem_of_fmap.
  exists b. split; [reflexivity|now apply list_elem_of_In].
Qed.

Lemma merge_sort_items_strict cnt :
  NoDup cnt.*1 ->
  StronglySorted (fun a b => a.1 < b.1) (merge_sort TemporalAnalysis.item_le cnt).
Proof.
  intros Hnd. apply strictly_sorted.
  - now rewrite (merge_sort_Permutation TemporalAnalysis.item_le cnt).
  - apply StronglySorted_merge_sort; apply _.
Qed.

Context {rt : Runtime}.

Lemma edge_stats_inv g d ys row :
  TemporalAnalysis.edge_stats g d ys = Ok row ->
  ys <> []
  /\ TemporalAnalysis.annual_counts row
     = TemporalAnalysis.sorted_items (TemporalAnalysis.counter ys).
Proof.
  unfold TemporalAnalysis.edge_stats. intros Hrow. split.
  - intros ->. discriminate Hrow.
  - destruct (TemporalAnalysis.py_min _) as [first|e];
      cbn [mbind result_bind] in Hrow; [|discriminate].
    destruct (TemporalAnalysis.py_max_by _ _) as [[peak pc]|e];
      cbn [mbind result_bind] in Hrow; [|discriminate].
    now injection Hrow as <-.
Qed.

Lemma count_le_length y ys : Spec.count y ys <= Z.of_nat (length ys).
Proof. unfold Spec.count. pose proof (length_filter (fun x => x = y) ys). lia. Qed.

Lemma count_all y ys :
  Spec.count y ys = Z.of_nat (length ys) <-> forall x, x ∈ ys -> x = y.
Proof.
  induction ys as [|x ys IH].
  - split; [|reflexivity]. intros _ x Hx. now apply elem_of_nil in Hx.
  - rewrite count_cons. pose proof (count_le_length y ys) as Hle.
    cbn [length]. destruct (decide (x = y)) as [->|Hne].
    + split.
      * intros Hc x [->|Hx]%elem_of_cons; [reflexivity|].
        apply IH; [lia|assumption].
      * intros Hall. assert (Spec.count y ys = Z.of_nat (length ys)).
        { apply IH. intros x Hx. apply Hall. now apply list_elem_of_further. }
        lia.
    + split; [lia|]. intros Hall. exfalso. apply Hne, Hall, list_elem_of_here.
Qed.

End RowFacts.

Section RowClaims.

Lemma py_sum_perm l l' : l ≡ₚ l' -> TemporalAnalysis.py_sum l = TemporalAnalysis.py_sum l'.
Proof.
  induction 1 as [|x l l' _ IH|x y l|l l' l'' _ IH1 _ IH2].
  - reflexivity.
  - rewrite !py_sum_cons. lia.
  - rewrite !py_sum_cons. lia.
  - congruence.
Qed.

(** X14: the yearly counts of a row are in strictly ascending
    order of the year, hold exactly one entry per year of the edge
    with the number of its occurrences, and add up to
    total_mentions. *)
Theorem annual_counts_are_sorted g d ys row :
  TemporalAnalysis.edge_stats g d ys = Ok row ->
  StronglySorted (fun a b => a.1 < b.1) (TemporalAnalysis.annual_counts row)
  /\ (forall y c, (y, c) ∈ TemporalAnalysis.annual_counts row
                  <-> y ∈ ys /\ c = Spec.count y ys)
  /\ TemporalAnalysis.py_sum (TemporalAnalysis.annual_counts row).*2
     = TemporalAnalysis.total_mentions row.
Proof.
  intros Hrow. destruct (edge_stats_inv g d ys row Hrow) as [Hne ->].
  pose proof (counter_NoDup ys) as Hnd.
  rewrite (sorted_items_sort _ Hnd).
  pose proof (merge_sort_Permutation TemporalAnalysis.item_le
                (TemporalAnalysis.counter ys)) as Hperm.
  split_and!.
  - now apply merge_sort_items_strict.
  - intros y c. rewrite Hperm. split.
    + intros Hin. split; [|now apply counter_elem].
      apply counter_keys_elem. apply list_elem_of_fmap. now exists (y, c).
    + intros [Hy ->]. apply counter_keys_elem in Hy.
      apply list_elem_of_fmap in Hy as ([y' c] & Heq & Hin).
      cbn in Heq. subst y. now rewrite <- (counter_elem ys y' c Hin).
  - rewrite (py_sum_perm _ _ (fmap_Permutation snd _ _ Hperm)).
    unfold TemporalAnalysis.edge_stats in Hrow.
    destruct (TemporalAnalysis.py_min _) as [first|e];
      cbn [mbind result_bind] in Hrow; [|discriminate].
    destruct (TemporalAnalysis.py_max_by _ _) as [[peak pc]|e];
      cbn [mbind result_bind] in Hrow; [|discriminate].
    now injection Hrow as <-.
Qed.

(** X15: in every row the first mention is not after the peak
    year, time_to_peak is not negative, peak_count lies between 1
    and total_mentions, and burstiness lies in (0, 1]; it is 1
    exactly when all dated mentions of the edge fall in one year. *)
Theorem row_bounds g d ys row :
  TemporalAnalysis.edge_stats g d ys = Ok row ->
  TemporalAnalysis.first_mention row <= TemporalAnalysis.peak_year row
  /\ 0 <= TemporalAnalysis.time_to_peak row
  /\ 1 <= TemporalAnalysis.peak_count row <= TemporalAnalysis.total_mentions row
  /\ (0 < TemporalAnalysis.burstiness row
      /\ TemporalAnalysis.burstiness row <= 1)%Q
  /\ ((TemporalAnalysis.burstiness row == 1)%Q
      <-> forall y, y ∈ ys -> y = TemporalAnalysis.peak_year row).
Proof.
  intros Hrow. destruct (edge_stats_inv g d ys row Hrow) as [Hne _].
  destruct (edge_stats_spec g d ys Hne)
    as (row' & Hrow' & _ & _ & [_ Hfirst] & (Hpeak & Hpc & _) & _
        & [Htotal _] & Htime & Hburst).
  rewrite Hrow in Hrow'. injection Hrow' as <-.
  assert (H1 : 1 <= TemporalAnalysis.peak_count row).
  { rewrite Hpc. apply count_pos in Hpeak. lia. }
  assert (H2 : TemporalAnalysis.peak_count row <= TemporalAnalysis.total_mentions row).
  { rewrite Hpc, Htotal. apply count_le_length. }
  assert (Hall : TemporalAnalysis.peak_count row = TemporalAnalysis.total_mentions row
                 <-> forall y, y ∈ ys -> y = TemporalAnalysis.peak_year row).
  { rewrite Hpc, Htotal. apply count_all. }
  specialize (Hfirst _ Hpeak).
  rewrite Hburst. clear Hburst Hpc Htotal Hrow.
  destruct (TemporalAnalysis.total_mentions row) as [|t|t] eqn:Et; [lia| |lia].
  split_and!; [assumption|lia|assumption|assumption|..].
  - unfold Qlt, Qdiv, Qmult, Qinv, inject_Z. cbn. lia.
  - unfold Qle, Qdiv, Qmult, Qinv, inject_Z. cbn. lia.
  - rewrite <- Hall. unfold Qeq, Qdiv, Qmult, Qinv, inject_Z. cbn. lia.
Qed.

End RowClaims.

(** The years 2001, 2000 and 2000 of one edge. *)
Lemma annual_counts_are_sorted_witness :
  StronglySorted (fun a b : Z * Z => a.1 < b.1) [(2000, 2); (2001, 1)].
Proof.
  exact (proj1 (annual_counts_are_sorted
                  (lit "1") (lit "D000001") [2001; 2000; 2000] _ eq_refl)).
Defined.

Lemma row_bounds_witness : (0 < 2 # 3 /\ 2 # 3 <= 1)%Q.
Proof.
  exact (proj1 (proj2 (proj2 (proj2
           (row_bounds (lit "1") (lit "D000001") [2001; 2000; 2000] _ eq_refl))))).
Defined.

(** ** Parsing the years (temporal_analysis.py) *)

Section ParseFacts.
Context {rt : Runtime}.

Lemma int_of_digits_raise s e : int_of_digits s = Raise e -> e = ValueError.
Proof.
  unfold int_of_digits. destruct (_ && _); [now intros [= <-]|].
  destruct s; [now intros [= <-]|].
  destruct (decimal_value 0 _); [discriminate|now intros [= <-]].
Qed.

Lemma parse_years_cons y ys :
  TemporalAnalysis.parse_years (y :: ys)
  = if isdigit y then
      match int_of_digits y, TemporalAnalysis.parse_years ys with
      | Ok z, Ok zs => Ok (z :: zs)
      | Ok _, Raise e => Raise e
      | Raise e, _ => Raise e
      end
    else TemporalAnalysis.parse_years ys.
Proof.
  cbn [TemporalAnalysis.parse_years]. destruct (isdigit y); [|reflexivity].
  destruct (int_of_digits y); cbn [mbind result_bind]; [|reflexivity].
  now destruct (TemporalAnalysis.parse_years ys).
Qed.

Lemma parse_years_raise ys e :
  TemporalAnalysis.parse_years ys = Raise e -> e = ValueError.
Proof.
  induction ys as [|y ys IH]; [discriminate|]. rewrite parse_years_cons.
  destruct (isdigit y); [|exact IH].
  destruct (int_of_digits y) as [z|e'] eqn:E.
  - destruct (TemporalAnalysis.parse_years ys); [discriminate|].
    intros [= <-]. now apply IH.
  - intros [= <-]. now apply int_of_digits_raise in E.
Qed.

Lemma parse_years_length ys zs :
  TemporalAnalysis.parse_years ys = Ok zs ->
  length zs = length (filter (fun y => isdigit y = true) ys).
Proof.
  revert zs. induction ys as [|y ys IH]; intros zs.
  - now intros [= <-].
  - rewrite parse_years_cons. destruct (isdigit y) eqn:Ed.
    + rewrite filter_cons_True by exact Ed.
      destruct (int_of_digits y); [|discriminate].
      destruct (TemporalAnalysis.parse_years ys); [|discriminate].
      intros [= <-]. cbn [length]. f_equal. now apply IH.
    + rewrite filter_cons_False by congruence. apply IH.
Qed.

Lemma parse_years_undated ys :
  (forall y, y ∈ ys -> isdigit y = false) ->
  TemporalAnalysis.parse_years ys = Ok [].
Proof.
  induction ys as [|y ys IH]; intros Hall; [reflexivity|].
  rewrite parse_years_cons, (Hall y) by apply list_elem_of_here.
  apply IH. intros y' Hy'. now apply Hall, list_elem_of_further.
Qed.

Lemma parse_years_bad ys y :
  y ∈ ys -> isdigit y = true -> int_of_digits y = Raise ValueError ->
  TemporalAnalysis.parse_years ys = Raise ValueError.
Proof.
  intros Hin Hd Hbad. induction ys as [|x ys IH].
  - now apply elem_of_nil in Hin.
  - rewrite parse_years_cons.
    apply elem_of_cons in Hin as [<-|Hin].
    + now rewrite Hd, Hbad.
    + rewrite (IH Hin). destruct (isdigit x); [|reflexivity].
      destruct (int_of_digits x) as [z|e] eqn:E; [reflexivity|].
      now apply int_of_digits_raise in E as ->.
Qed.

Lemma decimal_value_ascii s :
  forall acc,
    Forall (fun c => is_ascii c = true) s ->
    forallb char_isdigit s = true ->
    decimal_value acc s
    = Some (fold_left (fun a c => 10 * a + (Z.of_N c - 48)) s acc).
Proof.
  induction s as [|c s IH]; intros acc Ha Hd; [reflexivity|].
  apply Forall_cons in Ha as [Hc Ha].
  cbn [forallb] in Hd. apply andb_true_iff in Hd as [Hdc Hd].
  cbn [decimal_value fold_left]. unfold char_decimal, char_isdigit in *.
  rewrite Hc in *. rewrite Hdc. now apply IH.
Qed.

Lemma int_of_digits_ascii s :
  Forall (fun c => is_ascii c = true) s ->
  Z.of_nat (length s) <= 640 ->
  isdigit s = true ->
  int_of_digits s = Ok (Spec.digits_value s).
Proof.
  intros Ha Hlen Hd. unfold int_of_digits.
  destruct (Z.ltb_spec 640 (Z.of_nat (length s))) as [?|_]; [lia|].
  cbn [andb]. destruct s as [|c s]; [discriminate|].
  unfold isdigit in Hd. now rewrite (decimal_value_ascii _ 0 Ha Hd).
Qed.

(** X16: on year strings made of ASCII characters and no longer
    than 640 characters the parse of the years never raises: it
    returns the decimal values of the strings that are made of digits
    only, in their order, and drops the others. *)
Theorem ascii_years_parse ys :
  Forall (fun y => Forall (fun c => is_ascii c = true) y
                   /\ Z.of_nat (length y) <= 640) ys ->
  TemporalAnalysis.parse_years ys
  = Ok (Spec.digits_value <$> filter (fun y => isdigit y = true) ys).
Proof.
  induction ys as [|y ys IH]; intros Hall; [reflexivity|].
  apply Forall_cons in Hall as [[Ha Hlen] Hall].
  rewrite parse_years_cons, (IH Hall). destruct (isdigit y) eqn:Ed.
  - rewrite filter_cons_True by exact Ed.
    now rewrite (int_of_digits_ascii y Ha Hlen Ed).
  - now rewrite filter_cons_False by congruence.
Qed.

End ParseFacts.

(** The year strings "2001", "1999-2000", "" and "1998". *)
Lemma ascii_years_parse_witness :
  TemporalAnalysis.parse_years (rt := Sample.ascii_runtime)
    [lit "2001"; lit "1999-2000"; lit ""; lit "1998"]
  = Ok [2001; 1998].
Proof.
  apply (ascii_years_parse (rt := Sample.ascii_runtime)
           [lit "2001"; lit "1999-2000"; lit ""; lit "1998"]).
  repeat constructor; vm_compute; congruence.
Defined.

(** ** The report of a built graph (graph_builder.py, temporal_analysis.py) *)

Section ReportFacts.
Context {rt : Runtime}.

Local Abbreviation vg := GraphBuilder.is_valid_gene_id.
Local Abbreviation vd := GraphBuilder.is_valid_disease_id.

Variable G : Nx.Graph.

(** Edges without a numeric year leave the state of the loop as it
    is. *)
Lemma analyze_loop_undated es :
  (forall e, e ∈ es ->
     exists g d, TemporalAnalysis.orient G e.1.1 e.1.2 = Ok (Some (g, d))
                 /\ TemporalAnalysis.parse_years (Nx.years e.2) = Ok []) ->
  forall st, TemporalAnalysis.analyze_loop G st es = Ok st.
Proof.
  induction es as [|[[u v] a] es IH]; intros Hall st; [reflexivity|].
  destruct (Hall (u, v, a)) as (g & d & Ho & Hp); [apply list_elem_of_here|].
  cbn [fst snd] in Ho, Hp. destruct st as [recs sk].
  cbn [TemporalAnalysis.analyze_loop TemporalAnalysis.analyze_step].
  rewrite Ho. cbn [mbind result_bind]. rewrite Hp. cbn [mbind result_bind].
  apply IH. intros e He. now apply Hall, list_elem_of_further.
Qed.

(** One year that [int] refuses makes the loop raise. *)
Lemma analyze_loop_bad es :
  (forall e, e ∈ es ->
     exists g d, TemporalAnalysis.orient G e.1.1 e.1.2 = Ok (Some (g, d))) ->
  (exists e, e ∈ es
     /\ TemporalAnalysis.parse_years (Nx.years e.2) = Raise ValueError) ->
  forall st, TemporalAnalysis.analyze_loop G st es = Raise ValueError.
Proof.
  induction es as [|[[u v] a] es IH]; intros Hall (e & Hin & Hbad) st.
  - now apply elem_of_nil in Hin.
  - destruct (Hall (u, v, a)) as (g & d & Ho); [apply list_elem_of_here|].
    cbn [fst snd] in Ho. destruct st as [recs sk].
    cbn [TemporalAnalysis.analyze_loop TemporalAnalysis.analyze_step].
    rewrite Ho. cbn [mbind result_bind].
    assert (Hrest : TemporalAnalysis.parse_years (Nx.years a) <> Raise ValueError ->
              forall st', TemporalAnalysis.analyze_loop G st' es = Raise ValueError).
    { intros Hok. apply IH.
      - intros e' He'. now apply Hall, list_elem_of_further.
      - apply elem_of_cons in Hin as [->|Hin]; [contradiction|eauto]. }
    destruct (TemporalAnalysis.parse_years (Nx.years a)) as [[|z zs]|e'] eqn:Ep;
      cbn [mbind result_bind].
    + now apply Hrest.
    + destruct (edge_stats_spec g d (z :: zs)) as (row & -> & _); [discriminate|].
      cbn [mbind result_bind]. now apply Hrest.
    + now apply parse_years_raise in Ep as ->.
Qed.

Lemma rows_of_parsed es rows k u v a g d :
  Spec.rows_of G es rows k ->
  (u, v, a) ∈ es ->
  TemporalAnalysis.orient G u v = Ok (Some (g, d)) ->
  exists ys, TemporalAnalysis.parse_years (Nx.years a) = Ok ys.
Proof.
  intros Hrows Hin Ho.
  induction Hrows as [|u' v' a' es rows k Ho' _ IH
                      |u' v' a' es rows k g' d' Ho' Hp' _ IH
                      |u' v' a' es rows k g' d' ys' row Ho' Hp' Hne' Hs _ IH].
  - now apply elem_of_nil in Hin.
  - apply elem_of_cons in Hin as [[= -> -> ->]|Hin]; [congruence|auto].
  - apply elem_of_cons in Hin as [[= -> -> ->]|Hin]; [eauto|auto].
  - apply elem_of_cons in Hin as [[= -> -> ->]|Hin]; [eauto|auto].
Qed.

(** The rows follow the edges: their (gene, disease) columns are,
    in order, endpoints of listed edges. *)
Lemma rows_of_keys es rows k :
  (forall e g d, e ∈ es ->
     TemporalAnalysis.orient G e.1.1 e.1.2 = Ok (Some (g, d)) ->
     (g, d) = Spec.gene_first e) ->
  Spec.rows_of G es rows k ->
  ((fun r => (TemporalAnalysis.gene r, TemporalAnalysis.disease r)) <$> rows)
    `sublist_of` (Spec.gene_first <$> es).
Proof.
  intros Hkey Hrows.
  induction Hrows as [|u v a es rows k Ho _ IH
                      |u v a es rows k g d Ho Hp _ IH
                      |u v a es rows k g d ys row Ho Hp Hne Hs _ IH].
  - constructor.
  - cbn. apply sublist_cons, IH.
    intros e g d He. apply Hkey. now apply list_elem_of_further.
  - cbn. apply sublist_cons, IH.
    intros e g' d' He. apply Hkey. now apply list_elem_of_further.
  - cbn. rewrite <- (Hkey (u, v, a) g d (list_elem_of_here _ _) Ho).
    destruct (edge_stats_spec g d ys Hne) as (row' & Hs' & <- & <- & _).
    rewrite Hs in Hs'. injection Hs' as <-.
    apply sublist_skip, IH.
    intros e g' d' He. apply Hkey. now apply list_elem_of_further.
Qed.

Lemma length_filter_fmap {A B} (f : A -> B) (P : B -> Prop)
    `{forall x, Decision (P x)} (l : list A) :
  length (filter P (f <$> l)) = length (filter (fun x => P (f x)) l).
Proof.
  induction l as [|x l IH]; [reflexivity|]. cbn [fmap list_fmap].
  destruct (decide (P (f x))) as [Hx|Hx].
  - rewrite !filter_cons_True by assumption. cbn [length]. now rewrite IH.
  - now rewrite !filter_cons_False by assumption.
Qed.

End ReportFacts.

Section ReportOfPairs.
Context {rt : Runtime} {sv : TemporalAnalysis.SortValues}.

Local Abbreviation vg := GraphBuilder.is_valid_gene_id.
Local Abbreviation vd := GraphBuilder.is_valid_disease_id.

Lemma built_edge_oriented pairs G e :
  Spec.built pairs G -> e ∈ Nx.edges G ->
  exists g d, TemporalAnalysis.orient G e.1.1 e.1.2 = Ok (Some (g, d)).
Proof.
  intros HB Hin. pose proof (built_edges_kind pairs G HB e Hin) as K.
  destruct (Spec.gene_first e) as [g d]. exists g, d. tauto.
Qed.

(** X17: when no valid pair has a year made of digits (and so
    also when there is no valid pair at all), the analysis of the
    built graph raises [KeyError]: no row is made, and the empty
    frame has no column to sort by. *)
Theorem undated_pairs_raise_KeyError pairs :
  (forall q, q ∈ pairs ->
     GraphBuilder.is_valid_gene_id (Ner.pair_gene q) = true ->
     GraphBuilder.is_valid_disease_id (Ner.pair_disease q) = true ->
     isdigit (Ner.pair_year q) = false) ->
  TemporalAnalysis.analyze_temporal_edges (GraphBuilder.build_graph pairs)
  = Raise KeyError.
Proof.
  intros Hund. pose proof (built_build_graph pairs) as HB.
  unfold TemporalAnalysis.analyze_temporal_edges.
  rewrite analyze_loop_undated; [reflexivity|].
  intros e Hin. pose proof (built_edges_kind pairs _ HB e Hin) as K.
  destruct (Spec.gene_first e) as [g d].
  destruct K as (Hg & Hd & _ & Ha & Ho). exists g, d. split; [exact Ho|].
  rewrite Ha. cbn [Nx.years]. apply parse_years_undated.
  intros y (q & -> & [[<- <-] Hq]%list_elem_of_filter)%list_elem_of_fmap.
  now apply Hund.
Qed.

(** X18: when a valid pair has a year that [str.isdigit] accepts
    and [int] refuses, the analysis of the built graph raises
    [ValueError], whatever the other pairs are. *)
Theorem nondecimal_year_raises_ValueError pairs q :
  q ∈ pairs ->
  GraphBuilder.is_valid_gene_id (Ner.pair_gene q) = true ->
  GraphBuilder.is_valid_disease_id (Ner.pair_disease q) = true ->
  isdigit (Ner.pair_year q) = true ->
  int_of_digits (Ner.pair_year q) = Raise ValueError ->
  TemporalAnalysis.analyze_temporal_edges (GraphBuilder.build_graph pairs)
  = Raise ValueError.
Proof.
  intros Hq Hg Hd Hdig Hbad. pose proof (built_build_graph pairs) as HB.
  unfold TemporalAnalysis.analyze_temporal_edges.
  rewrite analyze_loop_bad; [reflexivity| |].
  - intros e. apply (built_edge_oriented pairs _ e HB).
  - assert (Hends : (Ner.pair_gene q, Ner.pair_disease q)
                    ∈ Spec.gene_first <$> Nx.edges (GraphBuilder.build_graph pairs)).
    { apply (elem_built_ends pairs _ HB). split_and!; [assumption..|].
      now apply evidence_in. }
    apply list_elem_of_fmap in Hends as (e & Heq & Hin).
    exists e. split; [exact Hin|].
    pose proof (built_edges_kind pairs _ HB e Hin) as K. rewrite <- Heq in K.
    destruct K as (_ & _ & _ & -> & _). cbn [Nx.years].
    apply (parse_years_bad _ (Ner.pair_year q)); [|assumption..].
    apply list_elem_of_fmap. exists q. split; [reflexivity|].
    apply list_elem_of_filter. auto.
Qed.

(** X19: when the analysis of the built graph returns, the report
    has at most one row per gene and disease; every row belongs to a
    valid gene and a valid disease, and its total_mentions is the
    number of input pairs of this gene and disease whose year is made
    of digits, which is at least 1; and every valid gene and disease
    with such a pair have their row. *)
Theorem report_counts_dated_pairs pairs out :
  TemporalAnalysis.analyze_temporal_edges (GraphBuilder.build_graph pairs)
  = Ok out ->
  NoDup ((fun r => (TemporalAnalysis.gene r, TemporalAnalysis.disease r)) <$> out)
  /\ (forall row, row ∈ out ->
        GraphBuilder.is_valid_gene_id (TemporalAnalysis.gene row) = true
        /\ GraphBuilder.is_valid_disease_id (TemporalAnalysis.disease row) = true
        /\ 0 < TemporalAnalysis.total_mentions row
        /\ TemporalAnalysis.total_mentions row
           = Z.of_nat (length (filter
               (fun q => isdigit (Ner.pair_year q) = true)
               (Spec.evidence (TemporalAnalysis.gene row)
                              (TemporalAnalysis.disease row) pairs))))
  /\ (forall g d q,
        GraphBuilder.is_valid_gene_id g = true ->
        GraphBuilder.is_valid_disease_id d = true ->
        q ∈ Spec.evidence g d pairs ->
        isdigit (Ner.pair_year q) = true ->
        exists row, row ∈ out
          /\ TemporalAnalysis.gene row = g /\ TemporalAnalysis.disease row = d).
Proof.
  set (G := GraphBuilder.build_graph pairs).
  pose proof (built_build_graph pairs) as HB. fold G in HB.
  intros (rows & k & Hrows & _ & ->)%analyze_Ok.
  pose proof (TemporalAnalysis.sort_values_perm rows) as Hperm.
  assert (Hkey : forall e g d, e ∈ Nx.edges G ->
            TemporalAnalysis.orient G e.1.1 e.1.2 = Ok (Some (g, d)) ->
            (g, d) = Spec.gene_first e).
  { intros e g d Hin Ho. pose proof (built_edges_kind pairs G HB e Hin) as K.
    destruct (Spec.gene_first e) as [g' d'].
    destruct K as (_ & _ & _ & _ & Ho'). congruence. }
  assert (Hyears : forall e g d ys, e ∈ Nx.edges G ->
            TemporalAnalysis.orient G e.1.1 e.1.2 = Ok (Some (g, d)) ->
            TemporalAnalysis.parse_years (Nx.years e.2) = Ok ys ->
            vg g = true /\ vd d = true
            /\ length ys
               = length (filter (fun q => isdigit (Ner.pair_year q) = true)
                           (Spec.evidence g d pairs))).
  { intros e g d ys Hin Ho Hp.
    pose proof (built_edges_kind pairs G HB e Hin) as K.
    rewrite <- (Hkey e g d Hin Ho) in K.
    destruct K as (Hg & Hd & _ & Ha & _). split_and!; [assumption..|].
    rewrite Ha in Hp. cbn [Nx.years] in Hp.
    rewrite (parse_years_length _ _ Hp). apply length_filter_fmap. }
  split_and!.
  - rewrite Hperm. apply (sublist_NoDup _ (Spec.gene_first <$> Nx.edges G)).
    + apply (built_ends_NoDup pairs G HB).
    + now apply (rows_of_keys G _ rows k).
  - intros row Hrow. rewrite Hperm in Hrow.
    destruct (rows_of_origin G _ rows k row Hrows Hrow)
      as (u & v & a & g & d & ys & Hin & Ho & Hp & Hne & Hs).
    destruct (edge_stats_spec g d ys Hne)
      as (row' & Hs' & Hgr & Hdr & _ & _ & _ & [Htot _] & _).
    rewrite Hs in Hs'. injection Hs' as <-. rewrite Hgr, Hdr, Htot.
    destruct (Hyears (u, v, a) g d ys Hin Ho Hp) as (Hg & Hd & Hlen).
    split_and!; [assumption..| |now rewrite Hlen].
    destruct ys; [congruence|cbn [length]; lia].
  - intros g d q Hg Hd Hq Hdig.
    assert (Hev : Spec.evidence g d pairs <> [])
      by (intros E; rewrite E in Hq; now apply elem_of_nil in Hq).
    assert (Hends : (g, d) ∈ Spec.gene_first <$> Nx.edges G)
      by (apply (elem_built_ends pairs G HB); auto).
    apply list_elem_of_fmap in Hends as ([[u v] a] & Heq & Hin).
    pose proof (built_edges_kind pairs G HB _ Hin) as K. rewrite <- Heq in K.
    destruct K as (_ & _ & _ & _ & Ho). cbn [fst snd] in Ho.
    destruct (rows_of_parsed G _ rows k u v a g d Hrows Hin Ho) as [ys Hp].
    destruct (Hyears (u, v, a) g d ys Hin Ho Hp) as (_ & _ & Hlen).
    assert (Hne : ys <> []).
    { intros ->. cbn [length] in Hlen.
      assert (Hin' : q ∈ filter (fun q => isdigit (Ner.pair_year q) = true)
                         (Spec.evidence g d pairs))
        by (apply list_elem_of_filter; auto).
      destruct (filter _ (Spec.evidence g d pairs)); [|discriminate].
      now apply elem_of_nil in Hin'. }
    destruct (rows_of_elem G _ rows k u v a g d ys Hrows Hin Ho Hp Hne)
      as (row & Hs & Hrow).
    exists row. rewrite Hperm.
    destruct (edge_stats_spec g d ys Hne) as (row' & Hs' & Hgr & Hdr & _).
    rewrite Hs in Hs'. injection Hs' as <-. auto.
Qed.

End ReportOfPairs.

(** One valid pair whose record carries no year. *)
Lemma undated_pairs_raise_KeyError_witness :
  TemporalAnalysis.analyze_temporal_edges
    (rt := Sample.ascii_runtime) (sv := Sample.merge_sort_values)
    (GraphBuilder.build_graph (rt := Sample.ascii_runtime)
       [(lit "101", lit "1", lit "D000001", lit "")])
  = Raise KeyError.
Proof.
  apply (undated_pairs_raise_KeyError (rt := Sample.ascii_runtime)).
  intros q ->%list_elem_of_singleton _ _. reflexivity.
Defined.

(** One valid pair whose year is a superscript two. *)
Lemma nondecimal_year_raises_ValueError_witness :
  TemporalAnalysis.analyze_temporal_edges
    (rt := Sample.superscript_runtime) (sv := Sample.merge_sort_values)
    (GraphBuilder.build_graph (rt := Sample.superscript_runtime)
       [(lit "101", lit "1", lit "D000001", [Sample.superscript_two])])
  = Raise ValueError.
Proof.
  apply (nondecimal_year_raises_ValueError (rt := Sample.superscript_runtime)
           _ (lit "101", lit "1", lit "D000001", [Sample.superscript_two]));
    [apply list_elem_of_here|reflexivity..].
Defined.

(** The report of the three pairs of one edge. *)
Lemma report_counts_dated_pairs_witness :
  exists out,
    TemporalAnalysis.analyze_temporal_edges
      (rt := Sample.ascii_runtime) (sv := Sample.merge_sort_values)
      (GraphBuilder.build_graph (rt := Sample.ascii_runtime) Sample.three_pairs)
    = Ok out
    /\ forall row, row ∈ out -> TemporalAnalysis.total_mentions row = 3.
Proof.
  eexists. split; [vm_compute; reflexivity|].
  intros row Hrow.
  destruct (report_counts_dated_pairs (rt := Sample.ascii_runtime)
              (sv := Sample.merge_sort_values) Sample.three_pairs _ eq_refl)
    as (_ & Hrows & _).
  destruct (Hrows row Hrow) as (_ & _ & _ & ->).
  apply list_elem_of_singleton in Hrow as ->. reflexivity.
Defined.

(** ** The annotation service (ner.py) *)

Section AnnotateFacts.
Context {ws : Whitespace} {lc : Annotate.Lowercase}.

Lemma lstrip_id s :
  (forall c, head s = Some c -> char_isspace c = false) -> lstrip s = s.
Proof.
  destruct s as [|c s]; [reflexivity|]. intros Hh. cbn.
  now rewrite (Hh c eq_refl).
Qed.

Lemma strip_idem s : strip (strip s) = strip s.
Proof.
  assert (Hfix : forall t,
            (forall c, head t = Some c -> char_isspace c = false) ->
            (forall c, last t = Some c -> char_isspace c = false) ->
            strip t = t).
  { intros t Hh Hl. unfold strip. rewrite (lstrip_id t Hh).
    rewrite lstrip_id; [apply reverse_involutive|].
    intros c. rewrite head_reverse. apply Hl. }
  apply Hfix; [apply strip_head|apply strip_last].
Qed.

(** The parts of a stripped identifier that is not empty: none is
    empty, none starts or ends with whitespace, none contains a
    semicolon. *)
Lemma split_ids_stripped raw p :
  strip raw = raw -> raw <> [] ->
  p ∈ Ner._split_ids raw ->
  p <> [] /\ (semicolon ∉ p)
  /\ (forall c, head p = Some c -> char_isspace c = false)
  /\ (forall c, last p = Some c -> char_isspace c = false).
Proof.
  intros Hraw Hne. unfold Ner._split_ids.
  destruct (contains_char semicolon raw) eqn:Es.
  - intros (? & ? & ? & ?)%elem_split_on. auto.
  - apply contains_char_false in Es.
    destruct (contains_char comma raw) eqn:Ec.
    + unfold Ner.split_on.
      intros (q & -> & [Hq Hin]%list_elem_of_filter)%list_elem_of_fmap.
      split_and!; [assumption| |apply strip_head|apply strip_last].
      intros Hs%elem_strip. apply Es.
      clear -Hin Hs. unfold split in Hin.
      revert q Hin Hs. induction raw as [|c raw IH]; intros q Hin Hs.
      * cbn in Hin. apply list_elem_of_singleton in Hin as ->.
        now apply elem_of_nil in Hs.
      * cbn in Hin. destruct (split_parts comma raw) as [p0 ps] eqn:Ep.
        destruct (N.eqb_spec c comma) as [->|Hc].
        -- apply elem_of_cons in Hin as [->|Hin];
             [now apply elem_of_nil in Hs|].
           apply list_elem_of_further. now apply (IH q).
        -- apply elem_of_cons in Hin as [->|Hin].
           ++ apply elem_of_cons in Hs as [->|Hs]; [apply list_elem_of_here|].
              apply list_elem_of_further. apply (IH p0); [apply list_elem_of_here|exact Hs].
           ++ apply list_elem_of_further. apply (IH q); [|exact Hs].
              now apply list_elem_of_further.
    + intros ->%list_elem_of_singleton. rewrite Hraw.
      split_and!; [assumption|assumption| |].
      * rewrite <- Hraw. apply strip_head.
      * rewrite <- Hraw. apply strip_last.
Qed.

Lemma fold_add_ident t m ids :
  forall ann,
    Ner.genes (fold_left (Annotate.add_ident t m) ids ann)
    = Ner.genes ann
      ++ (if decide (t = lit "gene") then (fun id => (m, id)) <$> ids else [])
    /\ Ner.diseases (fold_left (Annotate.add_ident t m) ids ann)
       = Ner.diseases ann
         ++ (if decide (t = lit "disease") then (fun id => (m, id)) <$> ids else []).
Proof.
  induction ids as [|id ids IH]; intros ann; cbn [fold_left].
  - destruct (decide _), (decide _); cbn; now rewrite !app_nil_r.
  - destruct (IH (Annotate.add_ident t m ann id)) as [-> ->].
    unfold Annotate.add_ident.
    destruct (decide (t = lit "gene")) as [->|Hg];
      [rewrite (decide_False (P := lit "gene" = lit "disease")) by discriminate
      |destruct (decide (t = lit "disease"))];
      cbn; rewrite ?app_nil_r, <- ?app_assoc; auto.
Qed.

(** What one annotation adds to the tags. *)
Lemma add_denotation_spec text ann inf ann' :
  Annotate.add_denotation text ann inf = Ok ann' ->
  exists gs ds,
    Ner.genes ann' = Ner.genes ann ++ gs
    /\ Ner.diseases ann' = Ner.diseases ann ++ ds
    /\ (forall m, m ∈ gs <-> Spec.mention_in (lit "gene") text inf m)
    /\ (forall m, m ∈ ds <-> Spec.mention_in (lit "disease") text inf m).
Proof.
  unfold Annotate.add_denotation. intros Hrun.
  assert (Hnone : (forall kind m, ~ Spec.mention_in kind text inf m) ->
            ann' = ann ->
            exists gs ds,
              Ner.genes ann' = Ner.genes ann ++ gs
              /\ Ner.diseases ann' = Ner.diseases ann ++ ds
              /\ (forall m, m ∈ gs <-> Spec.mention_in (lit "gene") text inf m)
              /\ (forall m, m ∈ ds <-> Spec.mention_in (lit "disease") text inf m)).
  { intros Hno ->. exists [], []. rewrite !app_nil_r.
    split_and!; [reflexivity..| |]; intros m; split;
      try (intros H; now apply elem_of_nil in H); intros H; now apply Hno in H. }
  destruct (Annotate.den_type inf) as [ty|] eqn:Ety;
    cbn [Annotate.as_str mbind result_bind] in Hrun; [|discriminate].
  destruct (Annotate.den_identifier inf) as [identifier|] eqn:Eid;
    cbn [Annotate.as_str mbind result_bind] in Hrun; [|discriminate].
  destruct (strip identifier) as [|c raw] eqn:Eraw.
  { apply Hnone; [|congruence].
    intros kind m (ty' & id' & o & l & _ & _ & Hid & Hne & _).
    rewrite Eid in Hid. injection Hid as <-. congruence. }
  destruct (Annotate.den_location inf) as [[[o l]|e]|] eqn:Eloc;
    cbn [mbind result_bind] in Hrun.
  - injection Hrun as <-.
    destruct (fold_add_ident (Annotate.py_lower ty)
                (o, o + l, Annotate.py_slice text o (o + l))
                (Ner._split_ids (c :: raw)) ann) as [-> ->].
    assert (Hkind : forall kind m,
              Spec.mention_in kind text inf m
              <-> Annotate.py_lower ty = kind
                  /\ m ∈ (fun id => (o, o + l, Annotate.py_slice text o (o + l), id))
                          <$> Ner._split_ids (c :: raw)).
    { intros kind m. unfold Spec.mention_in. rewrite list_elem_of_fmap. split.
      - intros (ty' & id' & o' & l' & Hty & Ht & Hident & _ & Hloc & Hid & Hm).
        rewrite Ety in Hty. rewrite Eid in Hident. rewrite Eloc in Hloc.
        injection Hty as <-. injection Hident as <-. injection Hloc as <- <-.
        split; [exact Ht|]. exists (Ner.ident m). rewrite Eraw in Hid.
        split; [|exact Hid]. destruct m as [m1 id]. cbn in *. now subst.
      - intros (Ht & id & -> & Hid). exists ty, identifier, o, l.
        rewrite Eraw. split_and!; try reflexivity; try assumption. discriminate. }
    eexists _, _. split_and!; [reflexivity..| |]; intros m; rewrite Hkind.
    + destruct (decide (_ = lit "gene")) as [Ht|Ht]; [tauto|].
      split; [intros H; now apply elem_of_nil in H|tauto].
    + destruct (decide (_ = lit "disease")) as [Ht|Ht]; [tauto|].
      split; [intros H; now apply elem_of_nil in H|tauto].
  - discriminate.
  - apply Hnone; [|congruence].
    intros kind m (ty' & id' & o & l & _ & _ & _ & _ & Hl & _).
    rewrite Eloc in Hl. discriminate.
Qed.

Lemma add_denotations_spec text denots :
  forall ann ann',
    Annotate.add_denotations text ann denots = Ok ann' ->
    exists gs ds,
      Ner.genes ann' = Ner.genes ann ++ gs
      /\ Ner.diseases ann' = Ner.diseases ann ++ ds
      /\ (forall m, m ∈ gs <->
            exists inf, inf ∈ denots /\ Spec.mention_in (lit "gene") text inf m)
      /\ (forall m, m ∈ ds <->
            exists inf, inf ∈ denots /\ Spec.mention_in (lit "disease") text inf m).
Proof.
  induction denots as [|inf denots IH]; intros ann ann'; cbn [Annotate.add_denotations].
  - intros [= <-]. exists [], []. rewrite !app_nil_r.
    split_and!; [reflexivity..| |]; intros m; split;
      try (intros H; now apply elem_of_nil in H);
      intros (inf & H & _); now apply elem_of_nil in H.
  - destruct (Annotate.add_denotation text ann inf) as [ann1|e] eqn:E1;
      cbn [mbind result_bind]; [|discriminate].
    apply add_denotation_spec in E1 as (gs1 & ds1 & Hg1 & Hd1 & Hgs1 & Hds1).
    intros (gs2 & ds2 & Hg2 & Hd2 & Hgs2 & Hds2)%IH.
    exists (gs1 ++ gs2), (ds1 ++ ds2).
    rewrite Hg2, Hd2, Hg1, Hd1, <- !app_assoc.
    split_and!; [reflexivity..| |]; intros m; rewrite elem_of_app.
    + rewrite Hgs1, Hgs2. split.
      * intros [H|(inf' & Hin & H)]; [exists inf|exists inf'];
          (split; [|assumption]); [apply list_elem_of_here|now apply list_elem_of_further].
      * intros (inf' & [->|Hin]%elem_of_cons & H); [now left|right; eauto].
    + rewrite Hds1, Hds2. split.
      * intros [H|(inf' & Hin & H)]; [exists inf|exists inf'];
          (split; [|assumption]); [apply list_elem_of_here|now apply list_elem_of_further].
      * intros (inf' & [->|Hin]%elem_of_cons & H); [now left|right; eauto].
Qed.

Lemma add_passages_spec ps :
  forall ann ann',
    Annotate.add_passages ann ps = Ok ann' ->
    exists gs ds,
      Ner.genes ann' = Ner.genes ann ++ gs
      /\ Ner.diseases ann' = Ner.diseases ann ++ ds
      /\ (forall m, m ∈ gs <->
            exists passage inf, passage ∈ ps
              /\ inf ∈ Annotate.denotations passage
              /\ Spec.mention_in (lit "gene") (Annotate.passage_text passage) inf m)
      /\ (forall m, m ∈ ds <->
            exists passage inf, passage ∈ ps
              /\ inf ∈ Annotate.denotations passage
              /\ Spec.mention_in (lit "disease") (Annotate.passage_text passage) inf m).
Proof.
  induction ps as [|passage ps IH]; intros ann ann'; cbn [Annotate.add_passages].
  - intros [= <-]. exists [], []. rewrite !app_nil_r.
    split_and!; [reflexivity..| |]; intros m; split;
      try (intros H; now apply elem_of_nil in H);
      intros (p' & inf & H & _); now apply elem_of_nil in H.
  - destruct (Annotate.add_denotations _ ann _) as [ann1|e] eqn:E1;
      cbn [mbind result_bind]; [|discriminate].
    apply add_denotations_spec in E1 as (gs1 & ds1 & Hg1 & Hd1 & Hgs1 & Hds1).
    intros (gs2 & ds2 & Hg2 & Hd2 & Hgs2 & Hds2)%IH.
    exists (gs1 ++ gs2), (ds1 ++ ds2).
    rewrite Hg2, Hd2, Hg1, Hd1, <- !app_assoc.
    split_and!; [reflexivity..| |]; intros m; rewrite elem_of_app.
    + rewrite Hgs1, Hgs2. split.
      * intros [(inf & Hin & H)|(p' & inf & Hp & Hin & H)].
        -- exists passage, inf. split; [apply list_elem_of_here|auto].
        -- exists p', inf. split; [now apply list_elem_of_further|auto].
      * intros (p' & inf & [->|Hp]%elem_of_cons & Hin & H); [left|right]; eauto.
    + rewrite Hds1, Hds2. split.
      * intros [(inf & Hin & H)|(p' & inf & Hp & Hin & H)].
        -- exists passage, inf. split; [apply list_elem_of_here|auto].
        -- exists p', inf. split; [now apply list_elem_of_further|auto].
      * intros (p' & inf & [->|Hp]%elem_of_cons & Hin & H); [left|right]; eauto.
Qed.

(** The loops as list comprehensions: what they add, in order and
    with repetitions. *)
Lemma add_denotation_eq text ann inf ann' :
  Annotate.add_denotation text ann inf = Ok ann' ->
  Ner.genes ann' = Ner.genes ann ++ Spec.mentions_in (lit "gene") text inf
  /\ Ner.diseases ann'
     = Ner.diseases ann ++ Spec.mentions_in (lit "disease") text inf.
Proof.
  unfold Annotate.add_denotation, Spec.mentions_in.
  destruct (Annotate.den_type inf) as [ty|];
    cbn [Annotate.as_str mbind result_bind]; [|discriminate].
  destruct (Annotate.den_identifier inf) as [identifier|];
    cbn [Annotate.as_str mbind result_bind]; [|discriminate].
  destruct (strip identifier) as [|c raw].
  { intros [= <-].
    destruct (Annotate.den_location inf) as [[[o l]|e]|];
      repeat destruct (decide _); now rewrite !app_nil_r. }
  destruct (Annotate.den_location inf) as [[[o l]|e]|]; cbn [mbind result_bind].
  - intros [= <-].
    destruct (fold_add_ident (Annotate.py_lower ty)
                (o, o + l, Annotate.py_slice text o (o + l))
                (Ner._split_ids (c :: raw)) ann) as [-> ->].
    split; reflexivity.
  - discriminate.
  - intros [= <-]. now rewrite !app_nil_r.
Qed.

Lemma add_denotations_eq text denots :
  forall ann ann',
    Annotate.add_denotations text ann denots = Ok ann' ->
    Ner.genes ann'
    = Ner.genes ann ++ (denots ≫= Spec.mentions_in (lit "gene") text)
    /\ Ner.diseases ann'
       = Ner.diseases ann ++ (denots ≫= Spec.mentions_in (lit "disease") text).
Proof.
  induction denots as [|inf denots IH]; intros ann ann'; cbn [Annotate.add_denotations].
  - intros [= <-]. cbn. now rewrite !app_nil_r.
  - destruct (Annotate.add_denotation text ann inf) as [ann1|e] eqn:E1;
      cbn [mbind result_bind]; [|discriminate].
    apply add_denotation_eq in E1 as [Hg1 Hd1].
    intros [Hg2 Hd2]%IH. rewrite !bind_cons, Hg2, Hd2, Hg1, Hd1, <- !app_assoc.
    split; reflexivity.
Qed.

Lemma add_passages_eq ps :
  forall ann ann',
    Annotate.add_passages ann ps = Ok ann' ->
    Ner.genes ann'
    = Ner.genes ann
      ++ (ps ≫= fun passage =>
            Annotate.denotations passage
              ≫= Spec.mentions_in (lit "gene") (Annotate.passage_text passage))
    /\ Ner.diseases ann'
       = Ner.diseases ann
         ++ (ps ≫= fun passage =>
               Annotate.denotations passage
                 ≫= Spec.mentions_in (lit "disease") (Annotate.passage_text passage)).
Proof.
  induction ps as [|passage ps IH]; intros ann ann'; cbn [Annotate.add_passages].
  - intros [= <-]. cbn. now rewrite !app_nil_r.
  - destruct (Annotate.add_denotations _ ann _) as [ann1|e] eqn:E1;
      cbn [mbind result_bind]; [|discriminate].
    apply add_denotations_eq in E1 as [Hg1 Hd1].
    intros [Hg2 Hd2]%IH. rewrite !bind_cons, Hg2, Hd2, Hg1, Hd1, <- !app_assoc.
    split; reflexivity.
Qed.

End AnnotateFacts.

Section AnnotateClaims.
Context {ws : Whitespace} {lc : Annotate.Lowercase}.

Lemma mention_in_ident kind text inf m :
  Spec.mention_in kind text inf m ->
  Ner.ident m <> [] /\ (semicolon ∉ Ner.ident m)
  /\ (forall c, head (Ner.ident m) = Some c -> char_isspace c = false)
  /\ (forall c, last (Ner.ident m) = Some c -> char_isspace c = false).
Proof.
  intros (ty & identifier & o & l & _ & _ & _ & Hne & _ & Hid & _).
  apply (split_ids_stripped (strip identifier));
    [apply strip_idem|exact Hne|exact Hid].
Qed.

(** X20: the gene mentions and the disease mentions in the tags of a
    document are, in this order and with repetitions, the mentions
    that its annotations of lower-cased type "gene" and "disease"
    give rise to, passage by passage and annotation by annotation:
    one per part of the stripped identifier, for annotations with an
    identifier and a location; annotations of any other type leave no
    mention.  The identifier of every mention is not empty, has no
    whitespace at its ends and contains no semicolon. *)
Theorem annotate_doc_mentions doc t :
  Annotate.annotate_doc doc = Ok t ->
  Ner.genes t = Spec.mentions_of (lit "gene") doc
  /\ Ner.diseases t = Spec.mentions_of (lit "disease") doc
  /\ (forall m, m ∈ Ner.genes t <-> Spec.mention_of (lit "gene") doc m)
  /\ (forall m, m ∈ Ner.diseases t <-> Spec.mention_of (lit "disease") doc m)
  /\ (forall m, m ∈ Ner.genes t ++ Ner.diseases t ->
        Ner.ident m <> [] /\ (semicolon ∉ Ner.ident m)
        /\ (forall c, head (Ner.ident m) = Some c -> char_isspace c = false)
        /\ (forall c, last (Ner.ident m) = Some c -> char_isspace c = false)).
Proof.
  unfold Annotate.annotate_doc. intros Hrun.
  pose proof (add_passages_eq _ _ _ Hrun) as [Hge Hde].
  apply add_passages_spec in Hrun as (gs & ds & Hg & Hd & Hgs & Hds).
  cbn [Ner.genes Ner.diseases app] in Hg, Hd, Hge, Hde.
  split_and!; [exact Hge|exact Hde| | |]; rewrite ?Hg, ?Hd.
  - exact Hgs.
  - exact Hds.
  - intros m [Hm|Hm]%elem_of_app.
    + apply Hgs in Hm as (passage & inf & _ & _ & Hm).
      now apply mention_in_ident in Hm.
    + apply Hds in Hm as (passage & inf & _ & _ & Hm).
      now apply mention_in_ident in Hm.
Qed.

Lemma elem_set_inv {K V} `{EqDecision K} (k k' : K) (v v' : V) d :
  (k', v') ∈ Dict.set k v d -> (k', v') = (k, v) \/ (k', v') ∈ d.
Proof.
  induction d as [|[k0 v0] d IH]; cbn.
  - intros ->%list_elem_of_singleton. now left.
  - destruct (decide (k = k0)) as [->|Hne].
    + intros [->|Hin]%elem_of_cons; [now left|].
      right. now apply list_elem_of_further.
    + intros [->|Hin]%elem_of_cons; [right; apply list_elem_of_here|].
      destruct (IH Hin) as [?|?]; [now left|].
      right. now apply list_elem_of_further.
Qed.

Lemma add_docs_spec docs :
  forall anns anns',
    Annotate.add_docs anns docs = Ok anns' ->
    NoDup anns.*1 ->
    NoDup anns'.*1
    /\ forall p t, (p, t) ∈ anns' ->
         (p, t) ∈ anns
         \/ exists doc, doc ∈ docs /\ Annotate.doc_id doc = p
              /\ Annotate.annotate_doc doc = Ok t.
Proof.
  induction docs as [|doc docs IH]; intros anns anns'; cbn [Annotate.add_docs].
  - intros [= <-] Hnd. auto.
  - destruct (Annotate.annotate_doc doc) as [t0|e] eqn:E0;
      cbn [mbind result_bind]; [|discriminate].
    intros Hrun Hnd.
    destruct (IH _ _ Hrun (NoDup_keys_set _ _ _ Hnd)) as [Hnd' Hin].
    split; [exact Hnd'|]. intros p t Hpt.
    destruct (Hin p t Hpt) as [Hset|(doc' & Hd' & ? & ?)].
    + apply elem_set_inv in Hset as [[= -> ->]|?]; [|now left].
      right. exists doc. split; [apply list_elem_of_here|auto].
    + right. exists doc'. split; [now apply list_elem_of_further|auto].
Qed.

Lemma add_docs_raise docs e :
  forall anns,
    Annotate.add_docs anns docs = Raise e ->
    exists doc, doc ∈ docs /\ Annotate.annotate_doc doc = Raise e.
Proof.
  induction docs as [|doc docs IH]; intros anns; cbn [Annotate.add_docs];
    [discriminate|].
  destruct (Annotate.annotate_doc doc) as [t0|e'] eqn:E0; cbn [mbind result_bind].
  - intros (doc' & ? & ?)%IH. exists doc'.
    split; [now apply list_elem_of_further|assumption].
  - intros [= <-]. exists doc. split; [apply list_elem_of_here|assumption].
Qed.

Variable service : Annotate.Service.

Lemma annotate_batches_spec chunks :
  forall i anns anns',
    Annotate.annotate_batches service i chunks anns = Ok anns' ->
    NoDup anns.*1 ->
    NoDup anns'.*1
    /\ forall p t, (p, t) ∈ anns' ->
         (p, t) ∈ anns
         \/ exists j docs doc,
              (i <= j < i + length chunks)%nat
              /\ service j = Ok (Ok docs) /\ doc ∈ docs
              /\ Annotate.doc_id doc = p
              /\ Annotate.annotate_doc doc = Ok t.
Proof.
  induction chunks as [|c chunks IH]; intros i anns anns';
    cbn [Annotate.annotate_batches].
  - intros [= <-] Hnd. auto.
  - destruct (service i) as [[docs|e]|e] eqn:Es; cbn [mbind result_bind];
      [| |discriminate].
    + destruct (Annotate.add_docs anns docs) as [anns1|e] eqn:E1;
        cbn [mbind result_bind]; [|discriminate].
      intros Hrun Hnd.
      destruct (add_docs_spec docs anns anns1 E1 Hnd) as [Hnd1 Hin1].
      destruct (IH _ _ _ Hrun Hnd1) as [Hnd' Hin].
      split; [exact Hnd'|]. intros p t Hpt.
      destruct (Hin p t Hpt) as [H1|(j & docs' & doc & Hj & ?)].
      * destruct (Hin1 p t H1) as [?|(doc & ? & ? & ?)]; [now left|].
        right. exists i, docs, doc. split; [cbn [length]; lia|auto].
      * right. exists j, docs', doc. split; [cbn [length]; lia|auto].
    + destruct e; try discriminate.
      intros Hrun Hnd. destruct (IH _ _ _ Hrun Hnd) as [Hnd' Hin].
      split; [exact Hnd'|]. intros p t Hpt.
      destruct (Hin p t Hpt) as [?|(j & docs' & doc & Hj & ?)]; [now left|].
      right. exists j, docs', doc. split; [cbn [length]; lia|auto].
Qed.

Lemma annotate_batches_raise chunks e :
  forall i anns,
    Annotate.annotate_batches service i chunks anns = Raise e ->
    exists j,
      (i <= j < i + length chunks)%nat
      /\ (service j = Raise e
          \/ (service j = Ok (Raise e) /\ e <> JSONDecodeError)
          \/ exists docs doc, service j = Ok (Ok docs) /\ doc ∈ docs
               /\ Annotate.annotate_doc doc = Raise e).
Proof.
  induction chunks as [|c chunks IH]; intros i anns;
    cbn [Annotate.annotate_batches]; [discriminate|].
  destruct (service i) as [[docs|e']|e'] eqn:Es; cbn [mbind result_bind].
  - destruct (Annotate.add_docs anns docs) as [anns1|e'] eqn:E1;
      cbn [mbind result_bind].
    + intros (j & Hj & Hcase)%IH. exists j.
      split; [cbn [length]; lia|exact Hcase].
    + intros [= <-]. apply add_docs_raise in E1 as (doc & ? & ?).
      exists i. split; [cbn [length]; lia|]. right. right. eauto.
  - destruct e';
      try (intros [= <-]; exists i; split; [cbn [length]; lia|];
           right; left; split; [exact Es|discriminate]).
    intros (j & Hj & Hcase)%IH. exists j.
    split; [cbn [length]; lia|exact Hcase].
  - intros [= <-]. exists i. split; [cbn [length]; lia|now left].
Qed.

Lemma annotate_batches_all_skipped chunks :
  forall i anns,
    (forall j, (i <= j < i + length chunks)%nat ->
               service j = Ok (Raise JSONDecodeError)) ->
    Annotate.annotate_batches service i chunks anns = Ok anns.
Proof.
  induction chunks as [|c chunks IH]; intros i anns Hall; [reflexivity|].
  cbn [Annotate.annotate_batches]. rewrite (Hall i) by (cbn [length]; lia).
  cbn [mbind result_bind]. apply IH. intros j Hj. apply Hall. cbn [length]. lia.
Qed.

(** X21: the dictionary [annotate_pmids] returns has one entry per
    key, and each entry holds the tags of a document with this
    identifier that the service sent in the JSON body of one of the
    batches; the identifiers requested are not compared with those
    returned. *)
Theorem annotations_come_from_documents pmids batch_size ann :
  Annotate.annotate_pmids service pmids batch_size = Ok ann ->
  NoDup ann.*1
  /\ forall p t, (p, t) ∈ ann ->
       exists chunks i docs doc,
         DataRetrieval._chunked pmids batch_size = Ok chunks
         /\ (i < length chunks)%nat
         /\ service i = Ok (Ok docs) /\ doc ∈ docs
         /\ Annotate.doc_id doc = p
         /\ Annotate.annotate_doc doc = Ok t.
Proof.
  unfold Annotate.annotate_pmids.
  destruct (DataRetrieval._chunked pmids batch_size) as [chunks|e];
    cbn [mbind result_bind]; [|discriminate].
  intros Hrun.
  destruct (annotate_batches_spec chunks 0 [] ann Hrun) as [Hnd Hin];
    [constructor|].
  split; [exact Hnd|]. intros p t Hpt.
  destruct (Hin p t Hpt) as [H|(j & docs & doc & Hj & ?)];
    [now apply elem_of_nil in H|].
  exists chunks, j, docs, doc. split; [reflexivity|]. split; [lia|auto].
Qed.

(** X22: a batch whose body is not JSON is skipped: when every
    batch is answered so, [annotate_pmids] returns the empty
    dictionary; and [annotate_pmids] raises only the [ValueError] of
    a zero batch size, an exception of the transport, an exception
    other than [JSONDecodeError] from reading a body, or an exception
    raised while reading a document (a type or identifier that is not
    a string, a location without offset or length). *)
Theorem annotate_skips_non_json pmids batch_size :
  (batch_size <> 0 ->
   (forall i, service i = Ok (Raise JSONDecodeError)) ->
   Annotate.annotate_pmids service pmids batch_size = Ok [])
  /\ forall e,
       Annotate.annotate_pmids service pmids batch_size = Raise e ->
       (batch_size = 0 /\ e = ValueError)
       \/ exists i,
            service i = Raise e
            \/ (service i = Ok (Raise e) /\ e <> JSONDecodeError)
            \/ exists docs doc, service i = Ok (Ok docs) /\ doc ∈ docs
                 /\ Annotate.annotate_doc doc = Raise e.
Proof.
  unfold Annotate.annotate_pmids, DataRetrieval._chunked. split.
  - intros Hb Hall. destruct (Z.eqb_spec batch_size 0) as [?|_]; [contradiction|].
    destruct (batch_size <? 0); cbn [mbind result_bind]; [reflexivity|].
    apply annotate_batches_all_skipped. auto.
  - intros e. destruct (Z.eqb_spec batch_size 0) as [->|_].
    + intros [= <-]. now left.
    + destruct (batch_size <? 0); cbn [mbind result_bind]; [discriminate|].
      intros (j & _ & Hcase)%annotate_batches_raise. right. now exists j.
Qed.

End AnnotateClaims.

Section ExtractionChain.
Context {ws : Whitespace} {lc : Annotate.Lowercase}.
Context {rt : Runtime} {si : SetIter}.

(** X23: every pair that the extraction returns comes from one
    document of the service: the document has the pair's pmid as its
    identifier, a gene mention with the pair's gene identifier and a
    disease mention with the pair's disease identifier, anywhere in
    its passages; the pair's year is that of the last record with
    this pmid, and the empty string when no record has it. *)
Theorem pairs_are_document_co_mentions service records batch_size pairs :
  Annotate.extract_gene_disease_pairs service records batch_size = Ok pairs ->
  forall q, q ∈ pairs ->
    exists i docs doc mg md,
      service i = Ok (Ok docs) /\ doc ∈ docs
      /\ Annotate.doc_id doc = Ner.pair_pmid q
      /\ Spec.mention_of (lit "gene") doc mg
      /\ Ner.ident mg = Ner.pair_gene q
      /\ Spec.mention_of (lit "disease") doc md
      /\ Ner.ident md = Ner.pair_disease q
      /\ Ner.pair_year q = Ner.document_year records (Ner.pair_pmid q).
Proof.
  unfold Annotate.extract_gene_disease_pairs, Annotate.annotate_pmids.
  destruct (DataRetrieval._chunked _ batch_size) as [chunks|e];
    cbn [mbind result_bind]; [|discriminate].
  destruct (Annotate.annotate_batches service 0 chunks []) as [ann|e] eqn:Ea;
    cbn [mbind result_bind]; [|discriminate].
  intros [= <-] q (p & t & Hpt & (g & d & -> & Hg & Hd)%elem_doc_pairs)%elem_extract.
  apply elem_gene_set in Hg as (_ & mg & Hmg & <-).
  apply elem_disease_set in Hd as (_ & md & Hmd & <-).
  destruct (annotate_batches_spec service chunks 0 [] ann Ea) as [_ Hin];
    [constructor|].
  destruct (Hin p t Hpt) as [H|(i & docs & doc & _ & Hs & Hdoc & Hid & Ht)];
    [now apply elem_of_nil in H|].
  unfold Annotate.annotate_doc in Ht.
  apply add_passages_spec in Ht as (gs & ds & Hgs & Hds & Hg & Hd).
  cbn [Ner.genes Ner.diseases app] in Hgs, Hds. rewrite Hgs in Hmg. rewrite Hds in Hmd.
  exists i, docs, doc, mg, md.
  cbn [Ner.pair_pmid Ner.pair_gene Ner.pair_disease Ner.pair_year fst snd].
  split_and!; try assumption; try reflexivity.
  - now apply Hg.
  - now apply Hd.
  - apply year_map_get.
Qed.

End ExtractionChain.

(** The tags of [repeated_doc]: the gene is mentioned twice, once
    for each part of the identifier. *)
Lemma annotate_doc_mentions_witness :
  exists t,
    Annotate.annotate_doc (ws := Sample.ascii_whitespace)
      (lc := Sample.ascii_lowercase) Sample.repeated_doc = Ok t
    /\ Ner.genes t = [(0, 4, lit "TP53", lit "7157"); (0, 4, lit "TP53", lit "7157")]
    /\ Ner.genes t
       = Spec.mentions_of (ws := Sample.ascii_whitespace)
           (lc := Sample.ascii_lowercase) (lit "gene") Sample.repeated_doc.
Proof.
  eexists. split; [vm_compute; reflexivity|]. split; [reflexivity|].
  exact (proj1 (annotate_doc_mentions (ws := Sample.ascii_whitespace)
                  (lc := Sample.ascii_lowercase) Sample.repeated_doc _ eq_refl)).
Defined.

(** One batch answered with [tagged_doc]. *)
Lemma annotations_come_from_documents_witness :
  exists ann,
    Annotate.annotate_pmids (ws := Sample.ascii_whitespace)
      (lc := Sample.ascii_lowercase) Sample.one_doc_service [lit "77"] 100
    = Ok ann
    /\ ann.*1 = [lit "77"] /\ NoDup ann.*1.
Proof.
  eexists. split; [vm_compute; reflexivity|]. split; [reflexivity|].
  exact (proj1 (annotations_come_from_documents
                  (ws := Sample.ascii_whitespace) (lc := Sample.ascii_lowercase)
                  Sample.one_doc_service [lit "77"] 100 _ eq_refl)).
Defined.

(** The pairs of the record 77 annotated with [tagged_doc]. *)
Lemma pairs_are_document_co_mentions_witness :
  exists pairs,
    Annotate.extract_gene_disease_pairs (ws := Sample.ascii_whitespace)
      (lc := Sample.ascii_lowercase) (rt := Sample.ascii_runtime)
      (si := Sample.elements_iter)
      Sample.one_doc_service [Sample.record_of "77" "2000"] 100
    = Ok pairs
    /\ length pairs = 2%nat
    /\ forall q, q ∈ pairs -> Ner.pair_year q = lit "2000".
Proof.
  eexists. split; [vm_compute; reflexivity|]. split; [reflexivity|].
  intros q Hq.
  destruct (pairs_are_document_co_mentions
              (ws := Sample.ascii_whitespace) (lc := Sample.ascii_lowercase)
              (rt := Sample.ascii_runtime) (si := Sample.elements_iter)
              Sample.one_doc_service [Sample.record_of "77" "2000"] 100 _
              eq_refl q Hq)
    as (_ & _ & _ & _ & _ & _ & _ & _ & _ & _ & _ & _ & ->).
  repeat (apply elem_of_cons in Hq as [->|Hq]; [reflexivity|]).
  now apply elem_of_nil in Hq.
Defined.

(** ** The back-off of the year search (data_retrieval.py) *)

Section Backoff.
Import DataRetrieval.

Variable get : Z -> result SearchResponse.
Variables year max_retries : Z.

Lemma search_attempts_prefix pre rest :
  (forall a, a ∈ pre -> exists r, get a = Ok r /\ status_code r = 429) ->
  search_attempts get year max_retries (pre ++ rest)
  = MkEff (Spec.backoff year max_retries pre
           ++ trace (search_attempts get year max_retries rest))
          (outcome (search_attempts get year max_retries rest)).
Proof.
  induction pre as [|a pre IH]; intros Hpre; cbn [app].
  - now destruct (search_attempts get year max_retries rest).
  - destruct (Hpre a) as (r & Hg & Hs); [apply list_elem_of_here|].
    rewrite (search_attempts_429 get year max_retries a _ r Hg Hs).
    rewrite IH by (intros a' Ha'; apply Hpre; now apply list_elem_of_further).
    cbn [trace outcome]. unfold Spec.backoff. cbn [mbind list_bind app].
    reflexivity.
Qed.

End Backoff.

Section BackoffClaims.
Import DataRetrieval.

(** X24: the year search pauses [2 ^ attempt] seconds after each
    answer with status 429, after the last attempt too.  When the
    first other answer is a success, the search returns its
    identifiers and leaves behind only the warnings and pauses of the
    attempts before it; when every attempt is answered with 429, it
    leaves behind the warnings and pauses of all attempts and then
    the error line. *)
Theorem search_year_backoff w year max_retries :
  (forall n resp ids,
     1 <= n <= max_retries ->
     (forall a, 1 <= a < n ->
        exists r, esearch w year a = Ok r /\ status_code r = 429) ->
     esearch w year n = Ok resp ->
     status_code resp <> 429 ->
     is_http_error (status_code resp) = false ->
     idlist resp = Ok ids ->
     _search_year w year max_retries
     = MkEff (Spec.backoff year max_retries (range 1 n)) (Ok ids))
  /\ ((forall a, 1 <= a <= max_retries ->
         exists r, esearch w year a = Ok r /\ status_code r = 429) ->
      _search_year w year max_retries
      = MkEff (Spec.backoff year max_retries (range 1 (max_retries + 1))
               ++ [Log ERROR (SearchFailed year max_retries)])
              (Ok [])).
Proof.
  unfold _search_year. split.
  - intros n resp ids Hn Hpre Hg Hs He Hids.
    rewrite (range_split 1 n (max_retries + 1)) by lia.
    rewrite search_attempts_prefix
      by (intros a Ha%elem_of_range; now apply Hpre).
    cbn [search_attempts]. rewrite Hg.
    unfold mbind, eff_bind, lift. cbn [outcome trace].
    apply Z.eqb_neq in Hs. rewrite Hs, He, Hids. cbn [outcome trace].
    now rewrite app_nil_r.
  - intros Hall.
    rewrite <- (app_nil_r (range 1 (max_retries + 1))) at 1.
    rewrite search_attempts_prefix
      by (intros a Ha%elem_of_range; apply Hall; lia).
    reflexivity.
Qed.

End BackoffClaims.

(** ** Resolving names (gene_disease_utils.py) *)

Section NameFolds.
Context {K V A : Type} `{EqDecision K} `{EqDecision A}.

(** Assigning [d[key g] = f g] for [g] in a list. *)
Lemma get_fold_set (key : A -> K) (f : A -> V) `{!Inj (=) (=) key} l :
  forall d k,
    Dict.get (key k) (fold_left (fun d g => Dict.set (key g) (f g) d) l d)
    = if decide (k ∈ l) then Some (f k) else Dict.get (key k) d.
Proof.
  induction l as [|g l IH]; intros d k; cbn [fold_left].
  - rewrite decide_False by apply not_elem_of_nil. reflexivity.
  - rewrite IH. destruct (decide (k ∈ l)) as [Hin|Hin].
    + rewrite decide_True by now apply list_elem_of_further. reflexivity.
    + rewrite get_set. destruct (decide (key g = key k)) as [Heq|Hne].
      * apply (inj key) in Heq as ->.
        rewrite decide_True by apply list_elem_of_here. reflexivity.
      * rewrite decide_False; [reflexivity|].
        intros [->|?]%elem_of_cons; [now apply Hne|contradiction].
Qed.

Lemma get_fold_set_other (key : A -> K) (f : A -> V) l :
  forall d k',
    (forall g, g ∈ l -> key g <> k') ->
    Dict.get k' (fold_left (fun d g => Dict.set (key g) (f g) d) l d)
    = Dict.get k' d.
Proof.
  induction l as [|g l IH]; intros d k' Hne; cbn [fold_left]; [reflexivity|].
  rewrite IH by (intros g' Hg'; apply Hne; now apply list_elem_of_further).
  rewrite get_set_ne; [reflexivity|]. apply Hne, list_elem_of_here.
Qed.

End NameFolds.

Section GeneNameFacts.
Context {rt : Runtime} {si : SetIter}.
Import GeneDiseaseUtils.

#[local] Instance cache_path_inj prefix : Inj (=) (=) (_cache_path prefix).
Proof.
  intros a b. unfold _cache_path. intros H.
  apply app_inv_head in H. apply app_inv_head in H. now apply app_inv_tail in H.
Qed.

Lemma isdigit_truthy gid : isdigit gid = true -> truthy (Some gid) = true.
Proof. now destruct gid. Qed.

Local Abbreviation cached c gid := (_load_cached_name c (lit "gene") gid).

(** The first loop sorts the identifiers into those with a usable
    cached name and those to fetch. *)
Lemma gene_lookup_fold c l :
  forall res to_fetch,
    fold_left (gene_lookup c) l (res, to_fetch)
    = (fold_left (fun res gid => Dict.set gid (cached c gid) res)
         (filter (fun gid => truthy (cached c gid) = true) l) res,
       to_fetch ++ filter (fun gid => truthy (cached c gid) <> true) l).
Proof.
  induction l as [|gid l IH]; intros res to_fetch; cbn [fold_left].
  - cbn. now rewrite app_nil_r.
  - unfold gene_lookup at 2. destruct (truthy (cached c gid)) eqn:E.
    + rewrite IH, filter_cons_True, filter_cons_False by congruence.
      reflexivity.
    + rewrite IH, filter_cons_False, filter_cons_True by congruence.
      cbn [fold_left]. now rewrite <- app_assoc.
Qed.

(** A batch fetch whose requests all fail maps every identifier to
    no summary. *)
Lemma fetch_summaries_fail service chunks :
  (forall i, exists resp,
     service i = Ok resp /\ ok (summary_status resp) = false) ->
  forall i out,
    fetch_summaries service i chunks out
    = Ok (fold_left (fun out uid => Dict.set uid None out) (concat chunks) out).
Proof.
  intros Hfail. induction chunks as [|chunk chunks IH]; intros i out; [reflexivity|].
  cbn [fetch_summaries concat]. destruct (Hfail i) as (resp & -> & Hs).
  cbn [mbind result_bind]. rewrite Hs. cbn [mbind result_bind].
  now rewrite IH, fold_left_app.
Qed.

Lemma fold_set_none (l : list str) :
  NoDup l ->
  fold_left (fun out uid => Dict.set uid (@None (option str)) out) l []
  = (fun uid => (uid, None)) <$> l.
Proof.
  assert (Hgen : forall acc : list (str * option (option str)),
            NoDup (acc.*1 ++ l) ->
            fold_left (fun out uid => Dict.set uid None out) l acc
            = acc ++ ((fun uid => (uid, None)) <$> l)).
  { induction l as [|x l IH]; intros acc Hnd; cbn [fold_left fmap list_fmap].
    - now rewrite app_nil_r.
    - assert (Hx : x ∉ acc.*1).
      { apply NoDup_app in Hnd as (_ & Hdis & _). intros Hin.
        apply (Hdis x Hin), list_elem_of_here. }
      rewrite (set_fresh x None acc Hx), IH.
      + now rewrite <- app_assoc.
      + rewrite fmap_app. cbn. now rewrite <- app_assoc. }
  intros Hnd. now apply (Hgen []).
Qed.

Lemma gene_store_fail (l : list str) :
  forall c res,
    fold_left gene_store ((fun uid => (uid, None)) <$> l) (c, res)
    = (fold_left (fun c gid => Dict.set (_cache_path (lit "gene") gid) (Some gid) c) l c,
       fold_left (fun res gid => Dict.set gid (Some gid) res) l res).
Proof.
  induction l as [|gid l IH]; intros c res; [reflexivity|].
  cbn [fmap list_fmap fold_left]. unfold gene_store at 2.
  now rewrite IH.
Qed.

End GeneNameFacts.

Section GeneNames.
Context {rt : Runtime} {si : SetIter}.
Import GeneDiseaseUtils.

Local Abbreviation cached c gid := (_load_cached_name c (lit "gene") gid).
Local Abbreviation unique gene_ids :=
  (filter (fun gid => isdigit gid = true) (iter (list_to_set gene_ids))).

Lemma elem_unique gene_ids gid :
  gid ∈ unique gene_ids <-> gid ∈ gene_ids /\ isdigit gid = true.
Proof. rewrite list_elem_of_filter, iter_elem, elem_of_list_to_set. tauto. Qed.

Lemma NoDup_unique gene_ids : NoDup (unique gene_ids).
Proof. apply NoDup_filter, iter_NoDup. Qed.

Lemma match_nonempty {A B} (l : list A) (x y : B) :
  l <> [] -> match l with [] => x | _ :: _ => y end = y.
Proof. now destruct l. Qed.

Lemma get_names_fold (f : str -> option str) l k :
  Dict.get k (fold_left (fun res gid => Dict.set gid (f gid) res) l [])
  = if decide (k ∈ l) then Some (f k) else None.
Proof. apply (get_fold_set (fun gid : str => gid) f l [] k). Qed.

(** With a usable cached name for every identifier made of digits,
    the names are those of the cache and the service is not asked. *)
Lemma gene_names_cached service c gene_ids :
  (forall gid, gid ∈ gene_ids -> isdigit gid = true ->
               truthy (cached c gid) = true) ->
  get_gene_names service c gene_ids
  = Ok (c, fold_left (fun res gid => Dict.set gid (cached c gid) res)
             (unique gene_ids) []).
Proof.
  intros Hall. unfold get_gene_names. rewrite gene_lookup_fold.
  rewrite (filter_all (fun gid => truthy (cached c gid) = true))
    by (intros gid [? ?]%elem_unique; auto).
  rewrite (filter_none (fun gid => truthy (cached c gid) <> true)); [reflexivity|].
  intros gid [? ?]%elem_unique Hn. apply Hn. auto.
Qed.

(** X25: when every gene identifier made of digits has a cached
    name that is not empty, [get_gene_names] returns these names for
    these identifiers and nothing else, leaves the cache directory as
    it is, and does so whatever the service would answer: no request
    is sent. *)
Theorem cached_gene_names_need_no_request c gene_ids :
  (forall gid, gid ∈ gene_ids -> isdigit gid = true ->
     truthy (_load_cached_name c (lit "gene") gid) = true) ->
  exists res,
    (forall service, get_gene_names service c gene_ids = Ok (c, res))
    /\ forall gid,
         Dict.get gid res
         = if decide (gid ∈ gene_ids /\ isdigit gid = true)
           then Some (_load_cached_name c (lit "gene") gid) else None.
Proof.
  intros Hall. eexists. split.
  - intros service. now apply gene_names_cached.
  - intros gid. rewrite get_names_fold.
    destruct (decide (gid ∈ unique gene_ids)) as [Hin|Hin];
      rewrite elem_unique in Hin.
    + now rewrite decide_True.
    + now rewrite decide_False.
Qed.

(** X26: when every ESummary request of a call fails with an HTTP
    error status, each identifier made of digits without a usable
    cached name is mapped to itself and written to the cache as its
    own name; any later call on the same identifiers then returns
    the same names without asking the service, so the failure is
    never retried. *)
Theorem failed_gene_lookup_is_cached service c gene_ids :
  (forall i, exists resp,
     service i = Ok resp /\ ok (summary_status resp) = false) ->
  exists c1 res1,
    get_gene_names service c gene_ids = Ok (c1, res1)
    /\ (forall gid, gid ∈ gene_ids -> isdigit gid = true ->
          truthy (_load_cached_name c (lit "gene") gid) = false ->
          Dict.get gid res1 = Some (Some gid)
          /\ _load_cached_name c1 (lit "gene") gid = Some gid)
    /\ forall service2, exists res2,
         get_gene_names service2 c1 gene_ids = Ok (c1, res2)
         /\ forall gid, Dict.get gid res2 = Dict.get gid res1.
Proof.
  intros Hfail.
  set (U := unique gene_ids).
  set (C := filter (fun gid => truthy (cached c gid) = true) U).
  set (T := filter (fun gid => truthy (cached c gid) <> true) U).
  set (c1 := fold_left (fun c gid => Dict.set (_cache_path (lit "gene") gid) (Some gid) c) T c).
  set (res1 := fold_left (fun res gid => Dict.set gid (Some gid) res) T
                 (fold_left (fun res gid => Dict.set gid (cached c gid) res) C [])).
  assert (Hrun : get_gene_names service c gene_ids = Ok (c1, res1)).
  { unfold get_gene_names. fold U. rewrite gene_lookup_fold. fold C T. cbn [app].
    destruct (decide (T = [])) as [E|E].
    { unfold c1, res1. now rewrite E. }
    rewrite match_nonempty by exact E.
    unfold _batch_fetch. rewrite chunked_positive by lia. cbn [mbind result_bind].
    rewrite (fetch_summaries_fail service _ Hfail).
    destruct (chunks_of_spec (A := str) (Z.to_nat 200) ltac:(lia) (length T) T (le_n _))
      as (-> & _).
    rewrite fold_set_none by apply NoDup_filter, NoDup_unique.
    cbn [mbind result_bind]. now rewrite gene_store_fail. }
  assert (HT : forall gid, gid ∈ T <-> gid ∈ U /\ truthy (cached c gid) = false).
  { intros gid. unfold T. rewrite list_elem_of_filter.
    destruct (truthy (cached c gid)); split; intros [? ?]; auto; congruence. }
  assert (HC : forall gid, gid ∈ C <-> gid ∈ U /\ truthy (cached c gid) = true).
  { intros gid. unfold C. rewrite list_elem_of_filter. tauto. }
  assert (Hc1 : forall gid,
            cached c1 gid = if decide (gid ∈ T) then Some gid else cached c gid).
  { intros gid. unfold _load_cached_name, c1.
    rewrite (get_fold_set (_cache_path (lit "gene")) Some T c gid).
    now destruct (decide (gid ∈ T)). }
  assert (Hres1 : forall gid,
            Dict.get gid res1
            = if decide (gid ∈ T) then Some (Some gid)
              else if decide (gid ∈ C) then Some (cached c gid) else None).
  { intros gid. unfold res1.
    rewrite (get_fold_set (fun gid : str => gid) Some T _ gid).
    destruct (decide (gid ∈ T)); [reflexivity|apply get_names_fold]. }
  exists c1, res1. split_and!; [exact Hrun| |].
  - intros gid Hin Hd Hc.
    assert (HinT : gid ∈ T) by (apply HT; split; [now apply elem_unique|exact Hc]).
    rewrite Hres1, Hc1, !decide_True by exact HinT. auto.
  - intros service2. eexists. split.
    + apply gene_names_cached. intros gid Hin Hd. rewrite Hc1.
      destruct (decide (gid ∈ T)) as [_|Hn]; [now apply isdigit_truthy|].
      destruct (truthy (cached c gid)) eqn:E; [reflexivity|].
      exfalso. apply Hn, HT. split; [now apply elem_unique|exact E].
    + intros gid. rewrite get_names_fold, Hres1, Hc1. fold U.
      destruct (decide (gid ∈ T)) as [Ht|Ht].
      * apply HT in Ht as [Hu _]. now rewrite decide_True.
      * destruct (decide (gid ∈ C)) as [Hc|Hc].
        -- apply HC in Hc as [Hu _]. now rewrite decide_True.
        -- rewrite decide_False; [reflexivity|]. intros Hu.
           destruct (truthy (cached c gid)) eqn:E.
           ++ apply Hc, HC. auto.
           ++ apply Ht, HT. auto.
Qed.

End GeneNames.

(** A cache that holds the name of gene 672, and the identifiers
    "672" and "x". *)
Lemma cached_gene_names_need_no_request_witness :
  exists res,
    (forall service,
       GeneDiseaseUtils.get_gene_names (rt := Sample.ascii_runtime)
         (si := Sample.elements_iter) service Sample.name_cache
         [lit "672"; lit "x"]
       = Ok (Sample.name_cache, res))
    /\ Dict.get (lit "672") res = Some (Some (lit "BRCA1"))
    /\ Dict.get (lit "x") res = None.
Proof.
  destruct (cached_gene_names_need_no_request (rt := Sample.ascii_runtime)
              (si := Sample.elements_iter) Sample.name_cache [lit "672"; lit "x"])
    as (res & Hrun & Hget).
  - intros gid [->|[->|Hin]%elem_of_cons]%elem_of_cons Hd.
    + reflexivity.
    + discriminate Hd.
    + now apply elem_of_nil in Hin.
  - exists res. split; [exact Hrun|]. rewrite !Hget. split; reflexivity.
Defined.

(** The identifier 675 looked up while the service answers 500. *)
Lemma failed_gene_lookup_is_cached_witness :
  exists c1 res1,
    GeneDiseaseUtils.get_gene_names (rt := Sample.ascii_runtime)
      (si := Sample.elements_iter) Sample.failing_summary [] [lit "675"]
    = Ok (c1, res1)
    /\ Dict.get (lit "675") res1 = Some (Some (lit "675")).
Proof.
  destruct (failed_gene_lookup_is_cached (rt := Sample.ascii_runtime)
              (si := Sample.elements_iter) Sample.failing_summary [] [lit "675"])
    as (c1 & res1 & Hrun & Hself & _).
  - intros i. eexists. split; reflexivity.
  - exists c1, res1. split; [exact Hrun|].
    apply Hself; [apply list_elem_of_here|reflexivity..].
Defined.

Section DiseaseNames.
Context {rt : Runtime} {si : SetIter}.
Import GeneDiseaseUtils.

Local Abbreviation cached c core := (_load_cached_name c (lit "mesh") core).

Local Abbreviation pending := Spec.pending.
Local Abbreviation settled := Spec.settled.

Lemma disease_lookup_fold c l :
  forall cores res,
    fold_left (disease_lookup c) l (cores, res)
    = (cores ++ (core_of <$> filter (fun mid => pending c mid) l),
       fold_left (fun res mid => Dict.set mid (settled c mid) res)
         (filter (fun mid => ~ pending c mid) l) res).
Proof.
  induction l as [|mid l IH]; intros cores res; cbn [fold_left].
  - cbn. now rewrite app_nil_r.
  - unfold disease_lookup at 2.
    destruct (mesh_ui_match (core_of mid)) eqn:Em.
    + destruct (usable (cached c (core_of mid)) (core_of mid)) eqn:Eu.
      * rewrite IH, (filter_cons_False (fun mid => pending c mid)),
          (filter_cons_True (fun mid => ~ pending c mid));
          [|intros [_ ?]; congruence..].
        cbn [fold_left].
        replace (settled c mid) with (cached c (core_of mid))
          by (unfold Spec.settled; now rewrite Em).
        reflexivity.
      * rewrite IH, (filter_cons_True (fun mid => pending c mid)),
          (filter_cons_False (fun mid => ~ pending c mid));
          [|unfold Spec.pending; tauto..].
        cbn [fmap list_fmap]. now rewrite <- app_assoc.
    + rewrite IH, (filter_cons_False (fun mid => pending c mid)),
        (filter_cons_True (fun mid => ~ pending c mid));
        [|intros [? _]; congruence..].
      cbn [fold_left].
      replace (settled c mid) with (Some mid)
        by (unfold Spec.settled; now rewrite Em).
      reflexivity.
Qed.

Lemma get_core_fold core (name : str) ids :
  forall res mid,
    Dict.get mid
      (fold_left
         (fun res m =>
            if decide (core_of m = core) then Dict.set m (Some name) res else res)
         ids res)
    = if decide (mid ∈ ids /\ core_of mid = core) then Some (Some name)
      else Dict.get mid res.
Proof.
  induction ids as [|m ids IH]; intros res mid; cbn [fold_left].
  - rewrite decide_False; [reflexivity|]. intros [H%elem_of_nil _]. exact H.
  - rewrite IH. destruct (decide (mid ∈ ids /\ core_of mid = core)) as [[Hin Hc]|Hn].
    + rewrite decide_True; [reflexivity|].
      split; [now apply list_elem_of_further|exact Hc].
    + destruct (decide (core_of m = core)) as [Hm|Hm].
      * rewrite get_set. destruct (decide (m = mid)) as [->|Hne].
        -- rewrite decide_True; [reflexivity|]. split; [apply list_elem_of_here|exact Hm].
        -- rewrite decide_False; [reflexivity|].
           intros [[->|?]%elem_of_cons ?]; [congruence|tauto].
      * rewrite decide_False; [reflexivity|].
        intros [[->|?]%elem_of_cons ?]; [congruence|tauto].
Qed.

(** The second loop: every input identifier whose core is looked up
    gets the name of its core, and the cache gets the names. *)
Lemma disease_store_fold labels ids cores :
  forall c res,
    (forall mid,
       Dict.get mid (fold_left (disease_store labels ids) cores (c, res)).2
       = if decide (mid ∈ ids /\ core_of mid ∈ cores)
         then Some (Some (label_or_core labels (core_of mid)))
         else Dict.get mid res)
    /\ (forall core,
          cached (fold_left (disease_store labels ids) cores (c, res)).1 core
          = if decide (core ∈ cores) then Some (label_or_core labels core)
            else cached c core).
Proof.
  induction cores as [|k cores IH]; intros c res; cbn [fold_left].
  - split.
    + intros mid. rewrite decide_False; [reflexivity|].
      intros [_ H%elem_of_nil]. exact H.
    + intros core. rewrite decide_False; [reflexivity|apply not_elem_of_nil].
  - unfold disease_store at 2 4. destruct (IH
      (_save_cached_name c (lit "mesh") k (Some (label_or_core labels k)))
      (fold_left
         (fun res m =>
            if decide (core_of m = k)
            then Dict.set m (Some (label_or_core labels k)) res else res)
         ids res)) as [Hres Hcache].
    split.
    + intros mid. rewrite Hres, get_core_fold.
      destruct (decide (mid ∈ ids /\ core_of mid ∈ cores)) as [[Hin Hc]|Hn].
      * rewrite decide_True; [reflexivity|].
        split; [exact Hin|now apply list_elem_of_further].
      * destruct (decide (mid ∈ ids /\ core_of mid = k)) as [[Hin <-]|Hn'].
        -- rewrite decide_True; [reflexivity|].
           split; [exact Hin|apply list_elem_of_here].
        -- rewrite decide_False; [reflexivity|].
           intros [? [?|?]%elem_of_cons]; tauto.
    + intros core. rewrite Hcache.
      destruct (decide (core ∈ cores)) as [Hin|Hn].
      * rewrite decide_True; [reflexivity|now apply list_elem_of_further].
      * unfold _load_cached_name, _save_cached_name. rewrite get_set.
        destruct (decide (_cache_path (lit "mesh") k = _cache_path (lit "mesh") core))
          as [Heq|Hne].
        -- apply (inj (_cache_path (lit "mesh"))) in Heq as ->.
           rewrite decide_True; [reflexivity|apply list_elem_of_here].
        -- rewrite decide_False; [reflexivity|].
           intros [->|?]%elem_of_cons; [now apply Hne|contradiction].
Qed.

(** X27: when [get_disease_names] returns, its result has an entry
    for every input identifier and for nothing else.  An identifier
    whose core (the text after the first colon) is not a MeSH code
    maps to itself; one whose core has a cached label that is not
    empty and differs from the core maps to this label; every other
    one maps to the label the lookup returned for its core, or to the
    bare core without its prefix, and this name is written to the
    cache. *)
Theorem disease_names_cover_input service c mesh_ids c' res :
  get_disease_names service c mesh_ids = Ok (c', res) ->
  exists labels,
    (forall mid, mid ∈ mesh_ids ->
       let core := core_of mid in
       let cached := _load_cached_name c (lit "mesh") core in
       Dict.get mid res
       = Some (if mesh_ui_match core then
                 if usable cached core then cached
                 else Some (label_or_core labels core)
               else Some mid)
       /\ (mesh_ui_match core = true -> usable cached core = false ->
           _load_cached_name c' (lit "mesh") core
           = Some (label_or_core labels core)))
    /\ (forall mid, mid ∉ mesh_ids -> Dict.get mid res = None)
    /\ (labels = []
        \/ exists cores, _batch_fetch_mesh_names service cores 50 = Ok labels).
Proof.
  unfold get_disease_names. rewrite disease_lookup_fold. cbn [app].
  set (M := iter (list_to_set mesh_ids)).
  set (K := core_of <$> filter (fun mid => pending c mid) M).
  set (res1 := fold_left (fun res mid => Dict.set mid (settled c mid) res)
                 (filter (fun mid => ~ pending c mid) M) []).
  assert (HM : forall mid, mid ∈ M <-> mid ∈ mesh_ids)
    by (intros mid; unfold M; now rewrite iter_elem, elem_of_list_to_set).
  assert (Hres1 : forall mid,
            Dict.get mid res1
            = if decide (mid ∈ mesh_ids /\ ~ pending c mid)
              then Some (settled c mid) else None).
  { intros mid. unfold res1. rewrite get_names_fold.
    destruct (decide (mid ∈ filter _ M)) as [Hin|Hin];
      rewrite list_elem_of_filter, HM in Hin.
    - rewrite decide_True by tauto. reflexivity.
    - rewrite decide_False by tauto. reflexivity. }
  assert (HK : forall mid, mid ∈ mesh_ids ->
            core_of mid ∈ K <-> pending c mid).
  { intros mid Hin. unfold K. rewrite list_elem_of_fmap. split.
    - intros (m' & Heq & [Hp _]%list_elem_of_filter).
      unfold Spec.pending in *. now rewrite Heq.
    - intros Hp. exists mid. split; [reflexivity|].
      apply list_elem_of_filter. split; [exact Hp|now apply HM]. }
  assert (Hsettled : forall mid, ~ pending c mid ->
            settled c mid
            = (if mesh_ui_match (core_of mid) then
                 if usable (cached c (core_of mid)) (core_of mid)
                 then cached c (core_of mid)
                 else Some (label_or_core [] (core_of mid))
               else Some mid) /\ forall labels,
            (if mesh_ui_match (core_of mid) then
               if usable (cached c (core_of mid)) (core_of mid)
               then cached c (core_of mid)
               else Some (label_or_core labels (core_of mid))
             else Some mid) = settled c mid).
  { intros mid Hp. unfold Spec.settled, Spec.pending in *.
    destruct (mesh_ui_match (core_of mid)); [|auto].
    destruct (usable _ _); [auto|tauto]. }
  destruct (decide (K = [])) as [EK|EK].
  - rewrite EK. intros [= <- <-]. exists []. split_and!; [| |now left].
    + intros mid Hin.
      assert (Hp : ~ pending c mid).
      { intros Hp. apply (HK mid Hin) in Hp. rewrite EK in Hp.
        now apply elem_of_nil in Hp. }
      rewrite Hres1, decide_True by tauto. split.
      * f_equal. apply (Hsettled mid Hp).
      * intros Hm Hu. exfalso. apply Hp. now split.
    + intros mid Hn. rewrite Hres1, decide_False by tauto. reflexivity.
  - rewrite match_nonempty by exact EK.
    destruct (_batch_fetch_mesh_names service K 50) as [labels|e] eqn:El;
      cbn [mbind result_bind]; [|discriminate].
    destruct (disease_store_fold labels mesh_ids K c res1) as [Hres Hcache].
    destruct (fold_left (disease_store labels mesh_ids) K (c, res1)) as [c2 res2].
    cbn [fst snd] in Hres, Hcache. intros [= <- <-].
    exists labels. split_and!; [| |right; now exists K].
    + intros mid Hin.
      rewrite Hres, Hcache. destruct (decide (pending c mid)) as [Hp|Hp].
      * pose proof (proj2 (HK mid Hin) Hp) as HinK.
        rewrite !decide_True by tauto. destruct Hp as [-> ->]. auto.
      * rewrite decide_False by (rewrite (HK mid Hin); tauto).
        rewrite Hres1, decide_True by tauto. split.
        -- f_equal. symmetry. apply (Hsettled mid Hp).
        -- intros Hm Hu. exfalso. apply Hp. now split.
    + intros mid Hn. rewrite Hres, decide_False by tauto.
      rewrite Hres1, decide_False by tauto. reflexivity.
Qed.

End DiseaseNames.

(** A MeSH identifier that is looked up and an OMIM identifier that
    is kept as it is. *)
Lemma disease_names_cover_input_witness :
  exists c' res,
    GeneDiseaseUtils.get_disease_names (rt := Sample.ascii_runtime)
      (si := Sample.elements_iter) Sample.mesh_service []
      [lit "MESH:D009369"; lit "OMIM:114480"]
    = Ok (c', res)
    /\ Dict.get (lit "MESH:D009369") res = Some (Some (lit "Neoplasms"))
    /\ Dict.get (lit "OMIM:114480") res = Some (Some (lit "OMIM:114480")).
Proof.
  eexists _, _. split; [vm_compute; reflexivity|]. split; [reflexivity|].
  destruct (disease_names_cover_input (rt := Sample.ascii_runtime)
              (si := Sample.elements_iter) Sample.mesh_service []
              [lit "MESH:D009369"; lit "OMIM:114480"] _ _ eq_refl)
    as (labels & Hin & _).
  destruct (Hin (lit "OMIM:114480")) as [H _].
  - apply list_elem_of_further, list_elem_of_here.
  - exact H.
Defined.

(** ** A year whose fetch fails (data_retrieval.py) *)

Section LostYear.
Import DataRetrieval.




End LostYear.
